(** * Product assistant: the agentic control flow

    A shallow embedding of the three workflow variants of the product
    assistant (package [product_assistant.workflow]):

    - [agentic_rag_workflow.py]               (module [AgenticRag]),
    - [agentic_workflow_with_mcp_websearch.py] (module [McpWorkflow]),
    - [normal_generation_workflow.py]          (module [NormalWorkflow]).

    Modelling conventions.

    - Text is a byte string ([string] of the Standard Library), the UTF-8
      encoding of a Python [str].  The regular expressions of [web_search]
      work on characters: [Text.chars] cuts a text into its characters, and
      the classes [\d] and [\s] are those of a [str] pattern, ASCII and
      beyond.  What they hold beyond ASCII is a table of the Python runtime,
      taken as a parameter ([Text.Unicode], a field of [World]).
      [str.lower] and [str.strip] act on the ASCII range, where they agree
      with Python; [normalize] applies them to ASCII letters and digits
      only.
    - The language model, the vector index, the Tavily client and the MCP
      tools are external services.  They are fields of a record [World];
      every call is given the log of what happened so far, so a service may
      answer the same request differently at different times, and it may
      raise.
    - A node function is a computation in the monad [M]: it reads and
      extends the log of events and either returns or raises.  The log
      keeps the banner each function prints on entry and every call to an
      external service; [logging] output and the other prints are left out.
    - The graph is run as LangGraph runs it: the node's update is merged
      into the state by the channel reducers ([add_messages] appends, a
      plain channel is overwritten), then the outgoing edge is chosen on
      the merged state.  A run of [recursion_limit] supersteps that has not
      reached [END] raises.
    - The two agentic workflows are compiled with a [MemorySaver]
      checkpointer, and [run] names a thread ("default_thread" unless the
      caller gives another).  A run on a thread starts from the messages the
      thread has saved, with the new query appended by the reducer:
      [run_on] is the run on a thread that holds given messages,
      [run_thread] threads the checkpoints through successive runs, and
      [run] is the first run on a thread, which holds nothing yet. *)

From Stdlib Require Import String Ascii List Bool Arith ZArith Lia.
Import ListNotations.
Open Scope string_scope.

(** ** Text *)

Module Text.

Definition NL : string := String "010"%char EmptyString.

Definition code (c : ascii) : nat := nat_of_ascii c.

Definition between (lo hi : nat) (c : ascii) : bool :=
  Nat.leb lo (code c) && Nat.leb (code c) hi.

Definition is_upper (c : ascii) : bool := between 65 90 c.
Definition is_lower (c : ascii) : bool := between 97 122 c.
Definition is_digit (c : ascii) : bool := between 48 57 c.

(** The class [[a-zA-Z0-9]]. *)
Definition is_alnum (c : ascii) : bool := is_lower c || is_upper c || is_digit c.

(** [str.isspace] on the ASCII range: tab to carriage return, the four
    separators 28..31 and the space.  It is what [lstrip], [rstrip] and
    [strip] below remove; the class [\s] of the regular expressions, which
    goes beyond ASCII, is [Regex.white_space]. *)
Definition is_space (c : ascii) : bool := between 9 13 c || between 28 32 c.

Definition lower_char (c : ascii) : ascii :=
  if is_upper c then ascii_of_nat (code c + 32) else c.

(** [s.lower()], on the ASCII letters.  Beyond ASCII [str.lower] changes
    other characters as well; the result then holds an ASCII letter for two
    characters only (U+212A gives "k"; U+0130 gives "i" followed by a
    combining dot), and no phrase the code looks for holds a "k" or ends with
    an "i", so the tests the code makes on a lowered text come out the
    same. *)
Fixpoint lower (s : string) : string :=
  match s with
  | EmptyString => EmptyString
  | String c t => String (lower_char c) (lower t)
  end.

(** [s.startswith(p)] *)
Definition startswith (s p : string) : bool := prefix p s.

(** [needle in hay] on strings. *)
Fixpoint contains (needle hay : string) : bool :=
  prefix needle hay ||
  match hay with
  | EmptyString => false
  | String _ t => contains needle t
  end.

(** [any(w in text for w in words)] *)
Definition contains_any (words : list string) (text : string) : bool :=
  existsb (fun w => contains w text) words.

(** [s[n:]] *)
Fixpoint drop (n : nat) (s : string) : string :=
  match n, s with
  | O, _ => s
  | S _, EmptyString => EmptyString
  | S k, String _ t => drop k t
  end.

(** [s.lstrip()] *)
Fixpoint lstrip (s : string) : string :=
  match s with
  | EmptyString => EmptyString
  | String c t => if is_space c then lstrip t else s
  end.

(** [s.rstrip()] *)
Fixpoint rstrip (s : string) : string :=
  match s with
  | EmptyString => EmptyString
  | String c t =>
      match rstrip t with
      | EmptyString => if is_space c then EmptyString else String c EmptyString
      | t' => String c t'
      end
  end.

(** [s.strip()] *)
Definition strip (s : string) : string := rstrip (lstrip s).

(** [re.sub(r'[^a-zA-Z0-9]', '', s)] *)
Fixpoint keep_alnum (s : string) : string :=
  match s with
  | EmptyString => EmptyString
  | String c t => if is_alnum c then String c (keep_alnum t) else keep_alnum t
  end.

(** The local function [normalize] of [run] and [_web_search_node]:
    [re.sub(r'[^a-zA-Z0-9]', '', text).lower().strip()]. *)
Definition normalize (text : string) : string :=
  strip (lower (keep_alnum text)).

(** [sep.join(parts)] *)
Fixpoint join (sep : string) (parts : list string) : string :=
  match parts with
  | [] => EmptyString
  | [p] => p
  | p :: rest => p ++ sep ++ join sep rest
  end.

(** No character of the text is white space. *)
Fixpoint no_space (s : string) : Prop :=
  match s with
  | EmptyString => True
  | String c t => is_space c = false /\ no_space t
  end.

(** Python truthiness of a string. *)
Definition truthy (s : string) : bool :=
  match s with EmptyString => false | _ => true end.

(** Every byte of the text is below 128: the text is ASCII. *)
Fixpoint is_ascii (s : string) : bool :=
  match s with
  | EmptyString => true
  | String c t => Nat.ltb (code c) 128 && is_ascii t
  end.

(** *** Characters

    A Python [str] is a sequence of characters (code points); a character
    outside ASCII takes several bytes of the UTF-8 text. *)

(** A byte [10xxxxxx] continues the character begun before it. *)
Definition is_continuation (c : ascii) : bool := between 128 191 c.

(** The continuation bytes a text begins with, and the characters that
    follow them. *)
Fixpoint split_chars (s : string) : string * list string :=
  match s with
  | EmptyString => (EmptyString, [])
  | String c t =>
      let (pending, cs) := split_chars t in
      if is_continuation c then (String c pending, cs)
      else (EmptyString, String c pending :: cs)
  end.

(** The characters of a text, each as the bytes that encode it.  (Bytes
    that continue no character, which the encoding of a [str] never has,
    count as one character.) *)
Definition chars (s : string) : list string :=
  match split_chars s with
  | (EmptyString, cs) => cs
  | (pending, cs) => pending :: cs
  end.

(** The text made of the characters [cs]. *)
Fixpoint text_of (cs : list string) : string :=
  match cs with
  | [] => EmptyString
  | c :: rest => c ++ text_of rest
  end.

(** The bits of the code point held by the first byte of a character. *)
Definition lead_bits (c : ascii) : N :=
  let n := N.of_nat (code c) in
  if (n <? 128)%N then n
  else if (n <? 224)%N then (n - 192)%N
  else if (n <? 240)%N then (n - 224)%N
  else (n - 240)%N.

Fixpoint continue (acc : N) (s : string) : N :=
  match s with
  | EmptyString => acc
  | String c t => continue (acc * 64 + (N.of_nat (code c) - 128))%N t
  end.

(** [ord(ch)]: the code point of a character. *)
Definition codepoint (ch : string) : N :=
  match ch with
  | EmptyString => 0%N
  | String c t => continue (lead_bits c) t
  end.

(** The character tables of the Python runtime beyond ASCII, by code
    point.  They belong to the Unicode database the interpreter was built
    with, not to this repository. *)
Record Unicode := {
  (** the decimal digits (category Nd), which [\d] matches *)
  decimal : N -> bool;
  (** the white space of [str.isspace], which [\s] matches *)
  space : N -> bool
}.


End Text.

(** ** The regular expressions of [web_search]

    The four price patterns use literals, an optional literal, a starred
    class and a class repeated at least once.  A pattern is a sequence of
    quantified character classes, matched against the characters of the text
    greedily and with backtracking, as [re] does. *)

Module Regex.
Import Text.

Inductive Quant := One | Opt | Star | Plus.

(** A class is a test on a character. *)
Definition Pattern := list (Quant * (string -> bool)).

(** A literal string, one class per character. *)
Definition lit (s : string) : Pattern :=
  map (fun ch => (One, String.eqb ch)) (chars s).

(** The class [\d] of a [str] pattern: the ASCII digits and the decimal
    digits of the Unicode table. *)
Definition digit (u : Unicode) (ch : string) : bool :=
  let n := codepoint ch in
  if (n <? 128)%N then (48 <=? n)%N && (n <=? 57)%N else decimal u n.

(** The class [\s] of a [str] pattern: the ASCII white space (tab to
    carriage return, the separators 28 to 31, the space) and the white space
    of the Unicode table. *)
Definition white_space (u : Unicode) (ch : string) : bool :=
  let n := codepoint ch in
  if (n <? 128)%N then
    ((9 <=? n)%N && (n <=? 13)%N) || ((28 <=? n)%N && (n <=? 32)%N)
  else space u n.

(** The class [[\d,]]. *)
Definition digit_or_comma (u : Unicode) (ch : string) : bool :=
  digit u ch || String.eqb ch ",".

Definition cons_match (c : string) (m : option (list string)) : option (list string) :=
  option_map (cons c) m.

Definition or_else (a b : option (list string)) : option (list string) :=
  match a with Some _ => a | None => b end.

(** [match_here p s]: the characters the pattern matches at the start of
    [s]. *)
Fixpoint match_here (p : Pattern) (s : list string) : option (list string) :=
  match p with
  | [] => Some []
  | (q, cls) :: rest =>
      let one (k : list string -> option (list string)) (s : list string) :=
        match s with
        | c :: t => if cls c then cons_match c (k t) else None
        | [] => None
        end in
      let star :=
        fix star (s : list string) : option (list string) :=
          match s with
          | c :: t =>
              if cls c then or_else (cons_match c (star t)) (match_here rest s)
              else match_here rest s
          | [] => match_here rest s
          end in
      match q with
      | One => one (match_here rest) s
      | Opt => or_else (one (match_here rest) s) (match_here rest s)
      | Star => star s
      | Plus => one star s
      end
  end.

(** The leftmost match among the characters [s]. *)
Fixpoint search_chars (p : Pattern) (s : list string) : option (list string) :=
  match match_here p s with
  | Some m => Some m
  | None =>
      match s with
      | [] => None
      | _ :: t => search_chars p t
      end
  end.

(** [re.search(p, s)], the leftmost match, as [match.group(0)]. *)
Definition search (p : Pattern) (s : string) : option string :=
  option_map text_of (search_chars p (chars s)).

End Regex.

(** ** Effects: the log, exceptions, external services *)

Module Effects.

(** What a run does that an observer can see. *)
Inductive Event :=
| Print (line : string)          (* the banner printed on entry of a function *)
| CallLLM (prompt : string)      (* one invocation of the language model *)
| CallVectorDB (query : string)  (* one lookup in the vector index *)
| CallTavily (query : string)    (* [client.search] of the Tavily client *)
| CallTool (name query : string) (* [tool.ainvoke] of an MCP tool *).

Definition Log := list Event.

(** A value, or a raised exception with its text. *)
Inductive Res (A : Type) :=
| Ok (a : A)
| Raise (e : string).
Arguments Ok {A} a.
Arguments Raise {A} e.

Definition M (A : Type) : Type := Log -> Log * Res A.

Definition ret {A} (a : A) : M A := fun log => (log, Ok a).

Definition bind {A B} (m : M A) (k : A -> M B) : M B :=
  fun log =>
    match m log with
    | (log', Ok a) => k a log'
    | (log', Raise e) => (log', Raise e)
    end.

Definition lift {A} (r : Res A) : M A := fun log => (log, r).

Definition print (line : string) : M unit :=
  fun log => ((log ++ [Print line])%list, Ok tt).

(** A call to an external service: logged, then answered by the service,
    which sees the log up to the call. *)
Definition call {A} (e : Event) (service : Log -> Res A) : M A :=
  fun log => ((log ++ [e])%list, service log).

(** [try: m  except Exception as e: ...], with the handler left to the
    caller. *)
Definition attempt {A} (m : M A) : M (Res A) :=
  fun log => let (log', r) := m log in (log', Ok r).

Declare Scope monad_scope.
Delimit Scope monad_scope with monad.
Notation "x <- m ;; k" := (bind m (fun x => k))
  (at level 61, m at next level, right associativity) : monad_scope.
Notation "m ;; k" := (bind m (fun _ => k))
  (at level 61, right associativity) : monad_scope.

(** A message of the conversation; every message the workflows build is a
    [HumanMessage]. *)
Record Message := HumanMessage { content : string }.

Definition contents (ms : list Message) : list string := map content ms.

(** [messages[0].content] *)
Definition first_content (ms : list Message) : Res string :=
  match ms with
  | [] => Raise "IndexError: list index out of range"
  | m :: _ => Ok (content m)
  end.

(** [messages[-1].content] *)
Definition last_content (ms : list Message) : Res string :=
  match rev ms with
  | [] => Raise "IndexError: list index out of range"
  | m :: _ => Ok (content m)
  end.

(** The reducer [add_messages] of the [messages] channel: the messages of
    an update carry fresh identifiers, so they are appended. *)
Definition add_messages (left right : list Message) : list Message :=
  (left ++ right)%list.

(** The content of the first message of a thread that holds the messages
    [saved] and is given [query]: the first query of the thread, which is
    [query] itself when the thread holds nothing. *)
Definition first_query (saved : list Message) (query : string) : string :=
  match saved with
  | [] => query
  | m :: _ => content m
  end.

(** A record of the vector index: the metadata a document may carry and
    its text. *)
Record Document := {
  product_title : option string;
  price : option string;
  rating : option string;
  page_content : string
}.

(** One entry of the [results] of a Tavily response: a dict with optional
    keys, or something else. *)
Inductive Result :=
| ResDict (r_content r_title r_url : option string)
| ResOther.

(** A Tavily response: a dict, with or without the key [results], or
    something else. *)
Inductive Response :=
| RespDict (results : option (list Result))
| RespOther.

(** An MCP tool. *)
Record Tool := {
  name : string;
  ainvoke : Log -> string -> Res string
}.

(** The services and the configuration a controller is built on. *)
Record World := {
  (** the language model, as [prompt | llm | StrOutputParser()] *)
  llm : Log -> string -> Res string;
  (** the retriever of [Retriever()] *)
  vector_db : Log -> string -> Res (list Document);
  (** [os.getenv("TAVILY_API_KEY")] *)
  TAVILY_API_KEY : option string;
  (** [TavilyClient.search(query, max_results=10)] *)
  tavily_search : Log -> string -> Res Response;
  (** [PROMPT_REGISTRY[PromptType.PRODUCT_BOT].template], with its slots
      [context] and [question] filled in *)
  product_bot_prompt : string -> string -> string;
  (** the MCP tools loaded by [__init__] *)
  mcp_enabled : bool;
  mcp_tools : list Tool;
  (** the character tables of the interpreter, for the classes of [re] *)
  unicode : Text.Unicode
}.

Definition call_llm (w : World) (prompt : string) : M string :=
  call (CallLLM prompt) (fun log => llm w log prompt).

Definition call_vector_db (w : World) (query : string) : M (list Document) :=
  call (CallVectorDB query) (fun log => vector_db w log query).

(** [dict.get(key, default)] on an optional field. *)
Definition get (field : option string) (default : string) : string :=
  match field with Some v => v | None => default end.

(** [_format_docs] / [format_docs], the same in the three files. *)
Definition format_doc (d : Document) : string :=
  "Title: " ++ get (product_title d) "N/A" ++ Text.NL ++
  "Price: " ++ get (price d) "N/A" ++ Text.NL ++
  "Rating: " ++ get (rating d) "N/A" ++ Text.NL ++
  "Reviews:" ++ Text.NL ++ Text.strip (page_content d).

Definition format_docs (docs : list Document) : string :=
  match docs with
  | [] => "No relevant documents found."
  | _ => Text.join (Text.NL ++ Text.NL ++ "---" ++ Text.NL ++ Text.NL) (map format_doc docs)
  end.

End Effects.

(** ** Running a graph *)

Module Graph.
Import Effects.
Open Scope monad_scope.

(** Where an edge leads: to a node, or to [END]. *)
Inductive Target (Node : Type) :=
| To (n : Node)
| END.
Arguments To {Node} n.
Arguments END {Node}.

(** The default [recursion_limit] of LangGraph. *)
Definition recursion_limit : nat := 25.

Section Executor.
Context {Node State Update : Type}.
(** the function registered for each node *)
Variable node_fn : Node -> State -> M Update.
(** the channel reducers *)
Variable reduce : State -> Update -> State.
(** the edge leaving each node, chosen on the merged state *)
Variable edge : Node -> State -> M (Target Node).
(** the node [START] leads to *)
Variable entry : Node.

Definition superstep (n : Node) (s : State) : M (Target Node * State) :=
  upd <- node_fn n s ;;
  let s' := reduce s upd in
  t <- edge n s' ;;
  ret (t, s').

Fixpoint exec (fuel : nat) (t : Target Node) (s : State) : M State :=
  match t with
  | END => ret s
  | To n =>
      match fuel with
      | O => lift (Raise "GraphRecursionError")
      | S fuel' =>
          c <- superstep n s ;;
          exec fuel' (fst c) (snd c)
      end
  end.

(** [app.invoke(input)] *)
Definition invoke (input : State) : M State :=
  exec recursion_limit (To entry) input.

(** The state a checkpointer holds once [exec] is over: a checkpoint is
    written after every superstep, so it is the state after the last
    superstep that succeeded, whether the run then returned or raised. *)
Fixpoint last_saved (fuel : nat) (t : Target Node) (s : State) (log : Log) : State :=
  match t with
  | END => s
  | To n =>
      match fuel with
      | O => s
      | S fuel' =>
          match superstep n s log with
          | (log', Ok c) => last_saved fuel' (fst c) (snd c) log'
          | (_, Raise _) => s
          end
      end
  end.

(** A target within a set of nodes; [END] always is. *)
Definition allowed_target (allowed : Node -> Prop) (t : Target Node) : Prop :=
  match t with To n => allowed n | END => True end.

(** The configurations a run goes through: where it is, the state, the
    log. *)
Definition Config : Type := Target Node * State * Log.

Inductive reach (c0 : Config) : Config -> Prop :=
| reach_start : reach c0 c0
| reach_step n s log t' s' log' :
    reach c0 (To n, s, log) ->
    superstep n s log = (log', Ok (t', s')) ->
    reach c0 (t', s', log').

End Executor.

End Graph.

(** ** [agentic_rag_workflow.py] *)

Module AgenticRag.
Import Text Regex Effects Graph.
Open Scope monad_scope.

Inductive Node := Assistant | Retriever | WebSearch | Generator | Rewriter.

(** [class AgentState(TypedDict)]: the one channel [messages]. *)
Record AgentState := { messages : list Message }.

(** What a node returns: the messages to add. *)
Definition Update := list Message.

Definition reduce (s : AgentState) (upd : Update) : AgentState :=
  {| messages := add_messages (messages s) upd |}.

(** [price_patterns], in the order of the list in [web_search]:
    [\₹[\d,]+], [Rs\.?\s*[\d,]+], [INR\s*[\d,]+] and [\$[\d,]+]. *)
Definition pat_rupee (u : Unicode) : Pattern :=
  (lit "₹" ++ [(Plus, digit_or_comma u)])%list.
Definition pat_rs (u : Unicode) : Pattern :=
  (lit "Rs" ++
   [(Opt, String.eqb "."); (Star, white_space u); (Plus, digit_or_comma u)])%list.
Definition pat_inr (u : Unicode) : Pattern :=
  (lit "INR" ++ [(Star, white_space u); (Plus, digit_or_comma u)])%list.
Definition pat_dollar (u : Unicode) : Pattern :=
  (lit "$" ++ [(Plus, digit_or_comma u)])%list.

Definition price_patterns (u : Unicode) : list Pattern :=
  [pat_rupee u; pat_rs u; pat_inr u; pat_dollar u].

(** The inner loop of [web_search]: the match of the first pattern that
    matches, [None] when the loop ends without [break]. *)
Fixpoint find_price (pats : list Pattern) (content : string) : option string :=
  match pats with
  | [] => None
  | pat :: rest =>
      match search pat content with
      | Some m => Some m
      | None => find_price rest content
      end
  end.

(** Truthiness of [price] and of [best_result]: [None] and the empty
    string are false. *)
Definition is_set (v : option string) : bool :=
  match v with Some s => truthy s | None => false end.

Definition with_price (title price content url : string) : string :=
  "Title: " ++ title ++ NL ++ "Price: " ++ price ++ NL ++
  "Details: " ++ content ++ NL ++ "Source: " ++ url.

Definition without_price (title content url : string) : string :=
  "Title: " ++ title ++ NL ++ "Details: " ++ content ++ NL ++ "Source: " ++ url.

(** The loop [for result in results] of [web_search], with the variable
    [best_result] and what follows the loop. *)
Fixpoint scan_results (u : Unicode) (results : list Result) (best_result : option string)
    : string :=
  match results with
  | [] => if is_set best_result then get best_result "" else ""
  | ResDict r_content r_title r_url :: rest =>
      let content := get r_content "" in
      let title := get r_title "Web Result" in
      let url := get r_url "" in
      let price := find_price (price_patterns u) content in
      if is_set price then with_price title (get price "") content url
      else
        scan_results u rest
          (if negb (is_set best_result) then Some (without_price title content url)
           else best_result)
  | ResOther :: rest => scan_results u rest best_result
  end.

(** [response.get('results', []) if isinstance(response, dict) else []] *)
Definition results_of (response : Response) : list Result :=
  match response with
  | RespDict (Some rs) => rs
  | RespDict None => []
  | RespOther => []
  end.

(** What [web_search] returns once the service has answered. *)
Definition select_result (u : Unicode) (results : list Result) : string :=
  match results with
  | [] => ""
  | _ => scan_results u results None
  end.

Definition apology_phrases : list string :=
  ["i am sorry"; "cannot provide"; "not included"; "no relevant documents"; "not found"].

Definition keywords : list string := ["price"; "review"; "product"].

Definition assistant_prompt (question : string) : string :=
  "You are a helpful assistant. Answer the user directly." ++ NL ++ NL ++
  "Question: " ++ question ++ NL ++ "Answer:".

Definition grader_prompt (question docs : string) : string :=
  "You are a grader. Question: " ++ question ++ NL ++ "Docs: " ++ docs ++ NL ++ NL ++
  "            Are docs relevant to the question? Answer yes or no.".

Definition no_price_message (query : string) : string :=
  "No price information found online for " ++ strip query ++ ".".

Definition database_indicator : string := "[Source: Database]".
Definition web_indicator : string := "[Source: Web Search]".

Section Nodes.
Variable w : World.

Definition web_search (query : string) : M string :=
  if negb (is_set (TAVILY_API_KEY w)) then
    ret "Web search failed: API key not set."
  else
    let refined_query := query ++ " price in India" in
    r <- attempt (call (CallTavily refined_query)
                       (fun log => tavily_search w log refined_query)) ;;
    match r with
    | Raise e => ret ("Web search failed: " ++ e)
    | Ok response => ret (select_result (unicode w) (results_of response))
    end.

Definition _ai_assistant (state : AgentState) : M Update :=
  print "--- CALL ASSISTANT ---" ;;
  last_message <- lift (last_content (messages state)) ;;
  if contains_any keywords (lower last_message) then
    ret [HumanMessage "TOOL: retriever"]
  else
    response <- call_llm w (assistant_prompt last_message) ;;
    ret [HumanMessage response].

Definition _vector_retriever (state : AgentState) : M Update :=
  print "--- RETRIEVER ---" ;;
  query <- lift (first_content (messages state)) ;;
  docs <- call_vector_db w query ;;
  match docs with
  | _ :: _ =>
      let context := format_docs docs in
      if contains_any apology_phrases (lower context) then
        ret [HumanMessage "TOOL: websearch"; HumanMessage query]
      else
        ret [HumanMessage (database_indicator ++ NL ++ context)]
  | [] => ret [HumanMessage "TOOL: websearch"; HumanMessage query]
  end.

(** The label the grader returns. *)
Definition _grade_documents (state : AgentState) : M string :=
  print "--- GRADER ---" ;;
  question <- lift (first_content (messages state)) ;;
  docs <- lift (last_content (messages state)) ;;
  score <- call_llm w (grader_prompt question docs) ;;
  ret (if contains "yes" (lower score) then "generator" else "rewriter").

(** The indicator found at the head of the context, and the context
    without it. *)
Definition split_indicator (docs : string) : string * string :=
  if startswith docs database_indicator then
    (database_indicator, lstrip (drop (String.length database_indicator) docs))
  else if startswith docs web_indicator then
    (web_indicator, lstrip (drop (String.length web_indicator) docs))
  else ("", docs).

Definition _generate (state : AgentState) : M Update :=
  print "--- GENERATE ---" ;;
  question <- lift (first_content (messages state)) ;;
  docs <- lift (last_content (messages state)) ;;
  let indicator := fst (split_indicator docs) in
  let docs := snd (split_indicator docs) in
  response <- call_llm w (product_bot_prompt w docs question) ;;
  let final_response :=
    if truthy indicator then indicator ++ NL ++ response else response in
  if contains_any apology_phrases (lower final_response) then
    ret [HumanMessage "TOOL: websearch"; HumanMessage question]
  else
    ret [HumanMessage final_response].

Definition _rewrite (state : AgentState) : M Update :=
  print "--- REWRITE ---" ;;
  question <- lift (first_content (messages state)) ;;
  new_q <- call_llm w ("Rewrite the query to be clearer: " ++ question) ;;
  ret [HumanMessage new_q].

(** [invalid_context] of [_web_search_node]. *)
Definition invalid_context (query context : string) : bool :=
  negb (truthy context)
  || String.eqb (normalize context) (normalize query)
  || contains "web search failed" (lower context)
  || contains "no web results found" (lower context)
  || contains "web search returned results, but none were usable" (lower context).

Definition _web_search_node (state : AgentState) : M Update :=
  print "--- WEB SEARCH ---" ;;
  query <- lift (first_content (messages state)) ;;
  context <- web_search query ;;
  let context :=
    if invalid_context query context then no_price_message query else context in
  ret [HumanMessage (web_indicator ++ NL ++ context)].

(** [_build_workflow]: the nodes. *)
Definition node_fn (n : Node) : AgentState -> M Update :=
  match n with
  | Assistant => _ai_assistant
  | Retriever => _vector_retriever
  | WebSearch => _web_search_node
  | Generator => _generate
  | Rewriter => _rewrite
  end.

(** The lambda on the edge out of [Assistant]; [None] is [END]. *)
Definition assistant_route (state : AgentState) : Res (option string) :=
  match last_content (messages state) with
  | Ok c => Ok (if contains "TOOL" c then Some "Retriever" else None)
  | Raise e => Raise e
  end.

(** The lambda on the edge out of [Retriever]. *)
Definition retriever_route (state : AgentState) : string :=
  if existsb (String.eqb "TOOL: websearch") (contents (messages state))
  then "WebSearch" else "generator".

(** The path map of the edge out of [Retriever]. *)
Definition retriever_path_map (label : string) : Res (Target Node) :=
  if String.eqb label "WebSearch" then Ok (To WebSearch)
  else if String.eqb label "generator" then Ok (To Generator)
  else if String.eqb label "rewriter" then Ok (To Rewriter)
  else Raise "KeyError".

(** [_build_workflow]: the edges. *)
Definition edge (n : Node) (state : AgentState) : M (Target Node) :=
  match n with
  | Assistant =>
      label <- lift (assistant_route state) ;;
      ret (match label with Some _ => To Retriever | None => END end)
  | Retriever => lift (retriever_path_map (retriever_route state))
  | WebSearch => ret END
  | Generator => ret END
  | Rewriter => ret (To Assistant)
  end.

Definition app_invoke (input : AgentState) : M AgentState :=
  invoke node_fn reduce edge Assistant input.

(** The input [run] gives to the graph.  On a thread that holds no
    checkpoint it is the state the graph starts from. *)
Definition input_of (query : string) : AgentState :=
  {| messages := [HumanMessage query] |}.

(** [run(query, thread_id)], the first run on the thread [thread_id]:
    nothing is saved for the thread yet.  ([run_on] and [run_thread] below
    are the run on a thread in general.) *)
Definition run (query : string) : M string :=
  result <- app_invoke (input_of query) ;;
  answer <- lift (last_content (messages result)) ;;
  if String.eqb (normalize answer) (normalize query) then
    ret (no_price_message query)
  else ret answer.

(** The configurations of the first run of a thread on [query]. *)
Definition reachable (query : string) : @Config Node AgentState -> Prop :=
  reach node_fn reduce edge (To Assistant, input_of query, []).

(** *** Threads and the checkpointer

    [self.app] is compiled with [MemorySaver()] and invoked with
    [{"configurable": {"thread_id": thread_id}}]. *)

(** The state [app.invoke] starts from on a thread whose checkpoint holds
    the messages [saved]: the input of [run] is merged into the saved state,
    so [add_messages] puts the new query after the saved messages. *)
Definition resume (saved : list Message) (query : string) : AgentState :=
  reduce {| messages := saved |} (messages (input_of query)).

(** [run(query, thread_id)] on a thread whose checkpoint holds the messages
    [saved]. *)
Definition run_on (saved : list Message) (query : string) : M string :=
  result <- app_invoke (resume saved query) ;;
  answer <- lift (last_content (messages result)) ;;
  if String.eqb (normalize answer) (normalize query) then
    ret (no_price_message query)
  else ret answer.

(** The configurations of the run on [query] on such a thread. *)
Definition reachable_on (saved : list Message) (query : string)
    : @Config Node AgentState -> Prop :=
  reach node_fn reduce edge (To Assistant, resume saved query, []).

(** What the checkpointer holds: for each thread the messages of the state
    saved last, none for a thread that has not run. *)
Definition Checkpoints := string -> list Message.

Definition no_checkpoints : Checkpoints := fun _ => [].

Definition put (store : Checkpoints) (thread_id : string) (saved : list Message)
    : Checkpoints :=
  fun t => if String.eqb t thread_id then saved else store t.

(** [run(query, thread_id)] with the checkpointer [store]: what [run_on]
    does on the messages of the thread, and the checkpoints afterwards. *)
Definition run_thread (store : Checkpoints) (query thread_id : string) (log : Log)
    : Log * Res string * Checkpoints :=
  let saved := store thread_id in
  (run_on saved query log,
   put store thread_id
     (messages (last_saved node_fn reduce edge recursion_limit (To Assistant)
                  (resume saved query) log))).

End Nodes.

(** [thread_id: str = "default_thread"] *)
Definition default_thread : string := "default_thread".

(** *** The selection policy of [web_search] *)

(** The inner loop over [price_patterns], written out: the patterns are
    tried in the order rupee sign, Rs, INR, dollar sign, and the first that
    matches gives the token. *)
Definition price_token (u : Unicode) (content : string) : option string :=
  match search (pat_rupee u) content with
  | Some m => Some m
  | None =>
      match search (pat_rs u) content with
      | Some m => Some m
      | None =>
          match search (pat_inr u) content with
          | Some m => Some m
          | None => search (pat_dollar u) content
          end
      end
  end.

(** A usable result is a dict. *)
Definition usable (r : Result) : bool :=
  match r with ResDict _ _ _ => true | ResOther => false end.

(** *** The price tokens, as the description of [web_search] has them

    These definitions follow the words of the description and the comments
    of [price_patterns] ("₹64,900", "Rs. 64,900 or Rs 64,900",
    "INR 64,900", "$799"); they do not use the matcher. *)

(** The currencies, in the order in which they are tried. *)
Inductive Currency := Rupee | Rs | INR | Dollar.

(** A character of a digit group: a decimal digit or a comma. *)
Definition group_char (u : Unicode) (ch : string) : Prop :=
  digit u ch = true \/ ch = ",".

(** A digit group: one character or more, each a digit or a comma. *)
Definition digit_group (u : Unicode) (ds : list string) : Prop :=
  ds <> [] /\ Forall (group_char u) ds.

(** White space, possibly none. *)
Definition blank (u : Unicode) (ws : list string) : Prop :=
  Forall (fun ch => white_space u ch = true) ws.

(** The tokens of each currency, as sequences of characters: the marker,
    after Rs an optional full stop, after Rs and INR any white space, and a
    digit group. *)
Inductive token (u : Unicode) : Currency -> list string -> Prop :=
| token_rupee ds :
    digit_group u ds -> token u Rupee ("₹" :: ds)
| token_rs ws ds :
    blank u ws -> digit_group u ds -> token u Rs ("R" :: "s" :: ws ++ ds)
| token_rs_dot ws ds :
    blank u ws -> digit_group u ds -> token u Rs ("R" :: "s" :: "." :: ws ++ ds)
| token_inr ws ds :
    blank u ws -> digit_group u ds -> token u INR ("I" :: "N" :: "R" :: ws ++ ds)
| token_dollar ds :
    digit_group u ds -> token u Dollar ("$" :: ds).

(** The text goes on after a token with something that does not continue
    its digit group. *)
Definition ends_group (u : Unicode) (after : list string) : Prop :=
  match after with
  | [] => True
  | ch :: _ => ~ group_char u ch
  end.

(** [found u k text tok]: [tok] is the token of currency [k] that a reader
    finds first in [text].  It stands in the text, no token of that currency
    begins at an earlier character, and no token of that currency that
    begins at the same character is longer: the token is taken as far as it
    goes. *)
Definition found (u : Unicode) (k : Currency) (text tok : list string) : Prop :=
  exists before after,
    text = (before ++ tok ++ after)%list /\
    token u k tok /\
    (forall b t a,
        text = (b ++ t ++ a)%list -> token u k t -> List.length before <= List.length b) /\
    (forall t a,
        (tok ++ after)%list = (t ++ a)%list -> token u k t ->
        List.length t <= List.length tok).

(** No token of currency [k] stands anywhere in the text. *)
Definition absent (u : Unicode) (k : Currency) (text : list string) : Prop :=
  forall b t a, text = (b ++ t ++ a)%list -> ~ token u k t.

(** [price_is u content p]: [p] is the price of [content], the token found
    for the first of the currencies rupee sign, Rs, INR, dollar sign that
    has a token in the text. *)
Definition price_is (u : Unicode) (content p : string) : Prop :=
  exists tok,
    p = text_of tok /\
    (found u Rupee (chars content) tok \/
     (absent u Rupee (chars content) /\ found u Rs (chars content) tok) \/
     (absent u Rupee (chars content) /\ absent u Rs (chars content) /\
      found u INR (chars content) tok) \/
     (absent u Rupee (chars content) /\ absent u Rs (chars content) /\
      absent u INR (chars content) /\ found u Dollar (chars content) tok)).

(** The text holds no price: no token of any currency. *)
Definition no_price (u : Unicode) (content : string) : Prop :=
  forall k, absent u k (chars content).

(** A result without a price: not a dict, or a dict whose content (the
    empty text when the key is missing) holds no price. *)
Definition unpriced (u : Unicode) (r : Result) : Prop :=
  match r with
  | ResDict c _ _ => no_price u (get c "")
  | ResOther => True
  end.

(** What the patterns have after their marker: [\s*[\d,]+], and
    [\.?\s*[\d,]+]. *)
Definition spaced (u : Unicode) : Pattern :=
  [(Star, white_space u); (Plus, digit_or_comma u)].

Definition dotted (u : Unicode) : Pattern := (Opt, String.eqb ".") :: spaced u.

(** The pattern of [price_patterns] for each currency. *)
Definition pattern_of (u : Unicode) (k : Currency) : Pattern :=
  match k with
  | Rupee => pat_rupee u
  | Rs => pat_rs u
  | INR => pat_inr u
  | Dollar => pat_dollar u
  end.

End AgenticRag.

(** ** [agentic_workflow_with_mcp_websearch.py] *)

Module McpWorkflow.
Import Text Effects Graph.
Open Scope monad_scope.

Inductive Node := Assistant | Retriever | Generator | Rewriter | WebSearch.

(** [class AgentState(TypedDict)]: [messages] and [retry_count]. *)
Record AgentState := {
  messages : list Message;
  retry_count : Z
}.

(** What a node returns: messages to add and, from [_rewrite], a new
    value for [retry_count]. *)
Record Update := {
  upd_messages : list Message;
  upd_retry_count : option Z
}.

Definition only_messages (ms : list Message) : Update :=
  {| upd_messages := ms; upd_retry_count := None |}.

(** [messages] is reduced by [add_messages]; [retry_count] has no reducer
    and takes the value written, if any. *)
Definition reduce (s : AgentState) (upd : Update) : AgentState :=
  {| messages := add_messages (messages s) (upd_messages upd);
     retry_count := match upd_retry_count upd with
                    | Some r => r
                    | None => retry_count s
                    end |}.

Definition keywords : list string := ["price"; "review"; "product"].

Definition assistant_prompt (question : string) : string :=
  "You are a helpful assistant. Answer the user directly." ++ NL ++ NL ++
  "Question: " ++ question ++ NL ++ "Answer:".

Definition rewrite_prompt (question : string) : string :=
  "Rewrite this user query to make it more clear and specific for a search engine. " ++
  "Do NOT answer the query. Only rewrite it." ++ NL ++ NL ++
  "Query: " ++ question ++ NL ++ "Rewritten Query:".

Definition no_web_search_message (query : string) : string :=
  "I couldn't perform a web search for '" ++ query ++
  "' at the moment. Please try again later or check online manually.".

Section Nodes.
Variable w : World.

(** The block guarded by [if self.mcp_enabled and self.mcp_tools] in
    [_vector_retriever] and [_web_search]: the context obtained from the
    tool called [tool_name], [None] when control falls through to the
    fallback (no tools, no tool of that name, or the call raised). *)
Definition via_mcp (tool_name default query : string) : M (option string) :=
  if mcp_enabled w && negb (match mcp_tools w with [] => true | _ => false end) then
    match find (fun t => String.eqb (name t) tool_name) (mcp_tools w) with
    | Some tool =>
        r <- attempt (call (CallTool tool_name query)
                           (fun log => ainvoke tool log query)) ;;
        match r with
        | Ok result => ret (Some (if truthy result then result else default))
        | Raise _ => ret None
        end
    | None => ret None
    end
  else ret None.

Definition _ai_assistant (state : AgentState) : M Update :=
  print "--- CALL ASSISTANT ---" ;;
  last_message <- lift (last_content (messages state)) ;;
  if contains_any keywords (lower last_message) then
    ret (only_messages [HumanMessage "TOOL: retriever"])
  else
    response <- call_llm w (assistant_prompt last_message) ;;
    ret (only_messages [HumanMessage response]).

Definition _vector_retriever (state : AgentState) : M Update :=
  print "--- RETRIEVER (MCP/Fallback) ---" ;;
  query <- lift (first_content (messages state)) ;;
  from_tool <- via_mcp "get_product_info" "No MCP data found" query ;;
  match from_tool with
  | Some context => ret (only_messages [HumanMessage context])
  | None =>
      docs <- call_vector_db w query ;;
      ret (only_messages [HumanMessage (format_docs docs)])
  end.

Definition _web_search (state : AgentState) : M Update :=
  print "--- WEB SEARCH (MCP/Fallback) ---" ;;
  query <- lift (first_content (messages state)) ;;
  from_tool <- via_mcp "web_search" "No web search data found" query ;;
  match from_tool with
  | Some context => ret (only_messages [HumanMessage context])
  | None => ret (only_messages [HumanMessage (no_web_search_message query)])
  end.

(** The label the grader returns. *)
Definition _grade_documents (state : AgentState) : M string :=
  print "--- GRADER ---" ;;
  question <- lift (first_content (messages state)) ;;
  docs <- lift (last_content (messages state)) ;;
  let retry_count := retry_count state in
  if contains "search" (lower docs) || contains "iphone" (lower docs)
     || contains "price" (lower docs) || Nat.ltb 50 (String.length (strip docs))
  then ret "generator"
  else if (retry_count >=? 1)%Z then ret "generator"
  else if truthy docs && truthy (strip docs) && negb (contains "No" docs)
          && Nat.ltb 10 (String.length (strip docs))
  then ret "generator"
  else ret "rewriter".

Definition _generate (state : AgentState) : M Update :=
  print "--- GENERATE ---" ;;
  question <- lift (first_content (messages state)) ;;
  docs <- lift (last_content (messages state)) ;;
  response <- call_llm w (product_bot_prompt w docs question) ;;
  ret (only_messages [HumanMessage response]).

Definition _rewrite (state : AgentState) : M Update :=
  print "--- REWRITE ---" ;;
  let retry_count := retry_count state in
  if (retry_count >=? 2)%Z then
    original <- lift (first_content (messages state)) ;;
    ret (only_messages [HumanMessage original])
  else
    question <- lift (first_content (messages state)) ;;
    new_q <- call_llm w (rewrite_prompt question) ;;
    ret {| upd_messages := [HumanMessage (strip new_q)];
           upd_retry_count := Some (retry_count + 1)%Z |}.

Definition node_fn (n : Node) : AgentState -> M Update :=
  match n with
  | Assistant => _ai_assistant
  | Retriever => _vector_retriever
  | Generator => _generate
  | Rewriter => _rewrite
  | WebSearch => _web_search
  end.

(** The lambda on the edge out of [Assistant]; [None] is [END]. *)
Definition assistant_route (state : AgentState) : Res (option string) :=
  match last_content (messages state) with
  | Ok c => Ok (if contains "TOOL" c then Some "Retriever" else None)
  | Raise e => Raise e
  end.

(** The path map of the edge out of [Retriever]. *)
Definition retriever_path_map (label : string) : Res (Target Node) :=
  if String.eqb label "generator" then Ok (To Generator)
  else if String.eqb label "rewriter" then Ok (To Rewriter)
  else Raise "KeyError".

Definition edge (n : Node) (state : AgentState) : M (Target Node) :=
  match n with
  | Assistant =>
      label <- lift (assistant_route state) ;;
      ret (match label with Some _ => To Retriever | None => END end)
  | Retriever =>
      label <- _grade_documents state ;;
      lift (retriever_path_map label)
  | Generator => ret END
  | Rewriter => ret (To WebSearch)
  | WebSearch => ret (To Generator)
  end.

Definition app_invoke (input : AgentState) : M AgentState :=
  invoke node_fn reduce edge Assistant input.

(** The input [run] gives to the graph.  On a thread that holds no
    checkpoint it is the state the graph starts from. *)
Definition input_of (query : string) : AgentState :=
  {| messages := [HumanMessage query]; retry_count := 0 |}.

(** [run(query, thread_id)], the first run on the thread [thread_id]:
    nothing is saved for the thread yet.  ([run_on] and [run_thread] below
    are the run on a thread in general.) *)
Definition run (query : string) : M string :=
  result <- app_invoke (input_of query) ;;
  lift (last_content (messages result)).

(** The configurations of a run of the graph on the input [input]. *)
Definition reachable_from (input : AgentState) : @Config Node AgentState -> Prop :=
  reach node_fn reduce edge (To Assistant, input, []).

(** *** Threads and the checkpointer

    [self.app] is compiled with [MemorySaver()] and invoked with
    [{"configurable": {"thread_id": thread_id}}]. *)

(** The state [app.invoke] starts from on a thread whose checkpoint holds
    [saved]: the input of [run] is merged into the saved state, so
    [add_messages] puts the new query after the saved messages, and
    [retry_count], a plain channel, takes the 0 of the input. *)
Definition resume (saved : AgentState) (query : string) : AgentState :=
  reduce saved {| upd_messages := messages (input_of query);
                  upd_retry_count := Some (retry_count (input_of query)) |}.

(** [run(query, thread_id)] on a thread whose checkpoint holds [saved]. *)
Definition run_on (saved : AgentState) (query : string) : M string :=
  result <- app_invoke (resume saved query) ;;
  lift (last_content (messages result)).

(** What the checkpointer holds: for each thread the state saved last; a
    thread that has not run holds no message. *)
Definition Checkpoints := string -> AgentState.

Definition no_checkpoints : Checkpoints :=
  fun _ => {| messages := []; retry_count := 0 |}.

Definition put (store : Checkpoints) (thread_id : string) (saved : AgentState)
    : Checkpoints :=
  fun t => if String.eqb t thread_id then saved else store t.

(** [run(query, thread_id)] with the checkpointer [store]: what [run_on]
    does on the state of the thread, and the checkpoints afterwards. *)
Definition run_thread (store : Checkpoints) (query thread_id : string) (log : Log)
    : Log * Res string * Checkpoints :=
  let saved := store thread_id in
  (run_on saved query log,
   put store thread_id
     (last_saved node_fn reduce edge recursion_limit (To Assistant)
        (resume saved query) log)).

End Nodes.

(** [thread_id: str = "default_thread"] *)
Definition default_thread : string := "default_thread".

End McpWorkflow.

(** ** [normal_generation_workflow.py] *)

Module NormalWorkflow.
Import Text Effects Graph.
Open Scope monad_scope.

Inductive Node := Assistant | Retriever | Generator | Rewriter.

Record AgentState := { messages : list Message }.

Definition Update := list Message.

Definition reduce (s : AgentState) (upd : Update) : AgentState :=
  {| messages := add_messages (messages s) upd |}.

Definition keywords : list string := ["price"; "review"; "product"].

Definition assistant_prompt (question : string) : string :=
  "You are a helpful assistant. Answer the user directly." ++ NL ++ NL ++
  "Question: " ++ question ++ NL ++ "Answer:".

Definition grader_prompt (question docs : string) : string :=
  "You are a grader. Question: " ++ question ++ NL ++ "Docs: " ++ docs ++ NL ++ NL ++
  "        Are docs relevant to the question? Answer yes or no.".

Section Nodes.
Variable w : World.

Definition ai_assistant (state : AgentState) : M Update :=
  print "--- CALL ASSISTANT ---" ;;
  last_message <- lift (last_content (messages state)) ;;
  if contains_any keywords (lower last_message) then
    ret [HumanMessage "TOOL: retriever"]
  else
    response <- call_llm w (assistant_prompt last_message) ;;
    ret [HumanMessage response].

Definition vector_retriever (state : AgentState) : M Update :=
  print "--- RETRIEVER ---" ;;
  query <- lift (last_content (messages state)) ;;
  docs <- call_vector_db w query ;;
  let context := format_docs docs in
  ret [HumanMessage context].

Definition grade_documents (state : AgentState) : M string :=
  print "--- GRADER ---" ;;
  question <- lift (first_content (messages state)) ;;
  docs <- lift (last_content (messages state)) ;;
  score <- call_llm w (grader_prompt question docs) ;;
  ret (if contains "yes" (lower score) then "generator" else "rewriter").

Definition generate (state : AgentState) : M Update :=
  print "--- GENERATE ---" ;;
  question <- lift (first_content (messages state)) ;;
  docs <- lift (last_content (messages state)) ;;
  response <- call_llm w (product_bot_prompt w docs question) ;;
  ret [HumanMessage response].

Definition rewrite (state : AgentState) : M Update :=
  print "--- REWRITE ---" ;;
  question <- lift (first_content (messages state)) ;;
  new_q <- call_llm w ("Rewrite the query to be clearer: " ++ question) ;;
  ret [HumanMessage new_q].

Definition node_fn (n : Node) : AgentState -> M Update :=
  match n with
  | Assistant => ai_assistant
  | Retriever => vector_retriever
  | Generator => generate
  | Rewriter => rewrite
  end.

Definition assistant_route (state : AgentState) : Res (option string) :=
  match last_content (messages state) with
  | Ok c => Ok (if contains "TOOL" c then Some "Retriever" else None)
  | Raise e => Raise e
  end.

Definition retriever_path_map (label : string) : Res (Target Node) :=
  if String.eqb label "generator" then Ok (To Generator)
  else if String.eqb label "rewriter" then Ok (To Rewriter)
  else Raise "KeyError".

Definition edge (n : Node) (state : AgentState) : M (Target Node) :=
  match n with
  | Assistant =>
      label <- lift (assistant_route state) ;;
      ret (match label with Some _ => To Retriever | None => END end)
  | Retriever =>
      label <- grade_documents state ;;
      lift (retriever_path_map label)
  | Generator => ret END
  | Rewriter => ret (To Assistant)
  end.

(** [app = workflow.compile()], invoked on the messages [input]. *)
Definition app_invoke (input : AgentState) : M AgentState :=
  invoke node_fn reduce edge Assistant input.

Definition input_of (query : string) : AgentState :=
  {| messages := [HumanMessage query] |}.

End Nodes.

(** *** The plain chain: [build_chain] and [invoke_chain]

    The prints of [invoke_chain] are logged. *)

(** The chain [{"context": retriever | format_docs, "question":
    RunnablePassthrough()} | prompt | llm | StrOutputParser()], invoked on
    [input]. *)
Definition chain (w : World) (input : string) : M string :=
  docs <- call_vector_db w input ;;
  call_llm w (product_bot_prompt w (format_docs docs) input).

(** [build_chain(query)]: the chain and [retrieved_contexts]. *)
Definition build_chain (w : World) (query : string) : M ((string -> M string) * list string) :=
  retrieved_docs <- call_vector_db w query ;;
  let retrieved_contexts :=
    match retrieved_docs with
    | _ :: _ => [format_docs retrieved_docs]
    | [] => ["No relevant documents found."]
    end in
  ret (chain w, retrieved_contexts).

(** [invoke_chain(query, debug)] *)
Definition invoke_chain (w : World) (query : string) (debug : bool)
    : M (list string * string) :=
  r <- attempt
         (built <- build_chain w query ;;
          (if debug then
             docs <- call_vector_db w query ;;
             print (NL ++ "Retrieved Documents:") ;;
             print (format_docs docs) ;;
             print (NL ++ "---" ++ NL)
           else ret tt) ;;
          response <- fst built query ;;
          ret (snd built, response)) ;;
  match r with
  | Ok v => ret v
  | Raise e =>
      print ("Error during invoke_chain: " ++ e) ;;
      ret (["Error: could not retrieve contexts."], "Error: " ++ e)
  end.

End NormalWorkflow.

(** ** Concrete services, for examples *)

Module Scenarios.
Import Effects.

(** Two blocks of decimal digits beyond ASCII: the Arabic-Indic digits
    (U+0660 to U+0669) and the Devanagari digits (U+0966 to U+096F). *)
Definition some_decimals (n : N) : bool :=
  ((1632 <=? n)%N && (n <=? 1641)%N) || ((2406 <=? n)%N && (n <=? 2415)%N).

(** The white space of [str.isspace] beyond ASCII: U+0085, U+00A0, U+1680,
    U+2000 to U+200A, U+2028, U+2029, U+202F, U+205F and U+3000. *)
Definition unicode_spaces (n : N) : bool :=
  (n =? 133)%N || (n =? 160)%N || (n =? 5760)%N ||
  ((8192 <=? n)%N && (n <=? 8202)%N) ||
  (n =? 8232)%N || (n =? 8233)%N || (n =? 8239)%N || (n =? 8287)%N || (n =? 12288)%N.

(** Character tables with these digits and this white space. *)
Definition tables : Text.Unicode :=
  {| Text.decimal := some_decimals; Text.space := unicode_spaces |}.

(** A world whose model always answers [reply], whose index always returns
    [docs], with the Tavily key [key] and the Tavily response [response];
    no MCP tools. *)
Definition world (reply : string) (docs : list Document) (key : option string)
    (response : Response) : World :=
  {| llm := fun _ _ => Ok reply;
     vector_db := fun _ _ => Ok docs;
     TAVILY_API_KEY := key;
     tavily_search := fun _ _ => Ok response;
     product_bot_prompt := fun context question =>
       "Context: " ++ context ++ " Question: " ++ question;
     mcp_enabled := false;
     mcp_tools := [];
     unicode := tables |}.

Definition iphone : Document :=
  {| product_title := Some "iPhone 15";
     price := Some "64900";
     rating := Some "4.5";
     page_content := " Great phone " |}.

Definition no_response : Response := RespDict (Some []).

(** Three results: one that is no dict, one without a price, one with
    two price tokens, the second in Rs without a full stop. *)
Definition three_results : list Result :=
  [ ResOther;
    ResDict (Some "The new iPhone 15 is out") (Some "Launch") (Some "http://a");
    ResDict (Some "From $799 abroad, Rs 64,900 in India") None (Some "http://b") ].

(** The no-break space U+00A0, in UTF-8. *)
Definition no_break_space : string :=
  String (ascii_of_nat 194) (String (ascii_of_nat 160) EmptyString).

(** The Arabic-Indic digits six and four, U+0666 and U+0664, in UTF-8. *)
Definition arabic_indic_64 : string :=
  String (ascii_of_nat 217) (String (ascii_of_nat 166)
    (String (ascii_of_nat 217) (String (ascii_of_nat 164) EmptyString))).

(** One result whose price has a no-break space after "Rs.". *)
Definition spaced_result : list Result :=
  [ResDict (Some ("Rs." ++ no_break_space ++ "64,900 today")) (Some "Shop")
     (Some "http://c")].

(** One result with a rupee price. *)
Definition rupee_result : list Result :=
  [ResDict (Some "iPhone 15 at ₹64,900 on sale") (Some "Store") (Some "http://s")].

(** A tool that raises on every call. *)
Definition crashing_tool (tool_name : string) : Tool :=
  {| name := tool_name; ainvoke := fun _ _ => Raise "tool crashed" |}.

(** The world [w] with the MCP tools [tools] loaded. *)
Definition with_tools (w : World) (tools : list Tool) : World :=
  {| llm := llm w;
     vector_db := vector_db w;
     TAVILY_API_KEY := TAVILY_API_KEY w;
     tavily_search := tavily_search w;
     product_bot_prompt := product_bot_prompt w;
     mcp_enabled := true;
     mcp_tools := tools;
     unicode := unicode w |}.

(** A record whose review mentions something not found. *)
Definition unlucky_review : Document :=
  {| product_title := Some "Phone case";
     price := Some "499";
     rating := Some "2.0";
     page_content := "Charger not found in the box" |}.

End Scenarios.

(** ** Observations on a log *)

Module Observe.
Import Effects.

(** Was the banner [line] printed? *)
Definition printed (line : string) (log : Log) : bool :=
  existsb (fun e => match e with Print l => String.eqb l line | _ => false end) log.

(** The queries the vector index was asked, in order. *)
Fixpoint vector_db_queries (log : Log) : list string :=
  match log with
  | [] => []
  | CallVectorDB q :: rest => q :: vector_db_queries rest
  | _ :: rest => vector_db_queries rest
  end.

(** Was the web-search service or a web-search tool called? *)
Definition searched_web (log : Log) : bool :=
  existsb (fun e => match e with
                    | CallTavily _ => true
                    | CallTool n _ => String.eqb n "web_search"
                    | _ => false
                    end) log.

(** The lines printed, in order. *)
Fixpoint banners (log : Log) : list string :=
  match log with
  | [] => []
  | Print line :: rest => line :: banners rest
  | _ :: rest => banners rest
  end.

End Observe.

(** ** Predicates on computations *)

Module Logic.
Import Effects.

(** [emits P m]: whatever the log before, [m] only adds events, and each
    event it adds satisfies [P]; this holds whether [m] returns or
    raises. *)
Definition emits {A} (P : Event -> Prop) (m : M A) : Prop :=
  forall log, exists evs, fst (m log) = (log ++ evs)%list /\ Forall P evs.

Definition any_event (e : Event) : Prop := True.

(** [starts m log pre]: run from [log], the computation [m] leaves a log
    that begins with [pre]. *)
Definition starts {A} (m : M A) (log pre : Log) : Prop :=
  exists evs, fst (m log) = (pre ++ evs)%list.

(** Neither the banner of the grader nor that of the rewriter. *)
Definition quiet (e : Event) : Prop :=
  e <> Print "--- GRADER ---" /\ e <> Print "--- REWRITE ---".

End Logic.

(** ** What the services are asked, and services that answer *)

Module Discipline.
Import Effects.

(** The requests a run of [agentic_rag_workflow] may make on a thread whose
    first message is [q]: the index is asked for [q], Tavily for [q] with
    " price in India" added, and no MCP tool is called. *)
Definition rag_request (q : string) (e : Event) : Prop :=
  match e with
  | CallVectorDB x => x = q
  | CallTavily x => x = q ++ " price in India"
  | CallTool _ _ => False
  | _ => True
  end.

(** The requests a run of the MCP workflow may make on a thread whose first
    message is [q]: the index and the two tools are asked for [q], and Tavily
    is not called. *)
Definition mcp_request (q : string) (e : Event) : Prop :=
  match e with
  | CallVectorDB x => x = q
  | CallTool n x => x = q /\ (n = "get_product_info" \/ n = "web_search")
  | CallTavily _ => False
  | _ => True
  end.

(** The model and the index answer every request. *)
Definition answers (w : World) : Prop :=
  (forall log p, exists r, llm w log p = Ok r) /\
  (forall log x, exists d, vector_db w log x = Ok d).

(** A model that never says yes and always mentions a price: every reply
    lacks "yes" and contains a product keyword. *)
Definition never_satisfied (w : World) : Prop :=
  (forall log p, exists r,
      llm w log p = Ok r /\
      Text.contains "yes" (Text.lower r) = false /\
      Text.contains_any NormalWorkflow.keywords (Text.lower r) = true) /\
  (forall log x, exists d, vector_db w log x = Ok d).

End Discipline.

(** * Properties *)

(** ** Facts on text *)

Module TextFacts.
Import Text.

Lemma space_not_alnum c : is_space c = true -> is_alnum c = false.
Proof.
  unfold is_space, is_alnum, is_lower, is_upper, is_digit, between.
  generalize (code c); intros n H.
  repeat match goal with
         | |- context [Nat.leb ?a ?b] => destruct (Nat.leb_spec a b)
         | H : context [Nat.leb ?a ?b] |- _ => destruct (Nat.leb_spec a b)
         end; simpl in *; try reflexivity; try discriminate; lia.
Qed.

Lemma keep_alnum_app a b : keep_alnum (a ++ b) = keep_alnum a ++ keep_alnum b.
Proof.
  induction a as [|c a IH]; simpl; [reflexivity|].
  destruct (is_alnum c); simpl; now rewrite IH.
Qed.

Lemma keep_alnum_lstrip s : keep_alnum (lstrip s) = keep_alnum s.
Proof.
  induction s as [|c s IH]; simpl; [reflexivity|].
  destruct (is_space c) eqn:E; [|reflexivity].
  now rewrite (space_not_alnum _ E).
Qed.

Lemma keep_alnum_rstrip s : keep_alnum (rstrip s) = keep_alnum s.
Proof.
  induction s as [|c s IH]; simpl; [reflexivity|].
  destruct (rstrip s) as [|c' t'] eqn:E.
  - simpl in IH. rewrite <- IH.
    destruct (is_space c) eqn:Es.
    + now rewrite (space_not_alnum _ Es).
    + simpl. now destruct (is_alnum c).
  - simpl in *. now rewrite IH.
Qed.

Lemma keep_alnum_strip s : keep_alnum (strip s) = keep_alnum s.
Proof. unfold strip. now rewrite keep_alnum_rstrip, keep_alnum_lstrip. Qed.

Lemma length_lower s : String.length (lower s) = String.length s.
Proof. induction s; simpl; congruence. Qed.

(** A letter or digit, once lowered, is not white space, so the final
    [strip] of [normalize] removes nothing. *)
Lemma lower_alnum_not_space c : is_alnum c = true -> is_space (lower_char c) = false.
Proof.
  unfold lower_char, is_space, is_alnum, is_lower, is_upper, is_digit, between, code.
  intros H.
  assert (Hc : nat_of_ascii c < 256) by apply nat_ascii_bounded.
  destruct (Nat.leb 65 (nat_of_ascii c) && Nat.leb (nat_of_ascii c) 90) eqn:Eu.
  - apply andb_prop in Eu. destruct Eu as [E1 E2].
    apply Nat.leb_le in E1, E2.
    rewrite nat_ascii_embedding by lia.
    repeat match goal with
           | |- context [Nat.leb ?a ?b] => destruct (Nat.leb_spec a b)
           end; simpl; try reflexivity; lia.
  - revert H Eu. generalize (nat_of_ascii c); intros n H Eu.
    repeat match goal with
           | |- context [Nat.leb ?a ?b] => destruct (Nat.leb_spec a b)
           | H : context [Nat.leb ?a ?b] |- _ => destruct (Nat.leb_spec a b)
           end; simpl in *; try reflexivity; try discriminate; lia.
Qed.

Lemma lstrip_no_space s : no_space s -> lstrip s = s.
Proof. destruct s as [|c s]; simpl; [reflexivity|]. now intros [-> _]. Qed.

Lemma rstrip_no_space s : no_space s -> rstrip s = s.
Proof.
  induction s as [|c s IH]; simpl; [reflexivity|].
  intros [Hc Hs]. rewrite (IH Hs), Hc. now destruct s.
Qed.

Lemma no_space_lower_alnum s : no_space (lower (keep_alnum s)).
Proof.
  induction s as [|c s IH]; simpl; [exact I|].
  destruct (is_alnum c) eqn:E; simpl; [|exact IH].
  split; [now apply lower_alnum_not_space | exact IH].
Qed.

Lemma normalize_eq s : normalize s = lower (keep_alnum s).
Proof.
  unfold normalize, strip.
  rewrite (lstrip_no_space _ (no_space_lower_alnum s)).
  apply rstrip_no_space, no_space_lower_alnum.
Qed.

Lemma length_normalize s : String.length (normalize s) = String.length (keep_alnum s).
Proof. rewrite normalize_eq. apply length_lower. Qed.

Lemma length_append a b : String.length (a ++ b) = String.length a + String.length b.
Proof. induction a; simpl; congruence. Qed.

(** A text that wraps the trimmed query in further letters or digits does
    not normalise to the query. *)
Lemma wrapped_not_echo before after query text :
  keep_alnum before <> EmptyString ->
  normalize text = normalize query ->
  before ++ strip query ++ after <> text.
Proof.
  intros Hb Hn Heq. subst text.
  apply (f_equal String.length) in Hn.
  rewrite !length_normalize, !keep_alnum_app, !length_append, keep_alnum_strip in Hn.
  destruct (keep_alnum before); [congruence | simpl in Hn; lia].
Qed.


(** *** Prefixes and pieces of a text *)

Lemma prefix_empty s : prefix "" s = true.
Proof. now destruct s. Qed.

Lemma prefix_cons c m t : prefix m t = true -> prefix (String c m) (String c t) = true.
Proof. intros H. simpl. destruct (ascii_dec c c); [exact H | congruence]. Qed.

Lemma prefix_app x b : prefix x (x ++ b) = true.
Proof.
  induction x as [|c x IH]; [now destruct b|].
  cbn [append prefix]. destruct (ascii_dec c c); [exact IH | congruence].
Qed.

Lemma prefix_app_l x a b : prefix x a = true -> prefix x (a ++ b) = true.
Proof.
  revert a. induction x as [|c x IH]; intros a H; [now destruct (a ++ b)|].
  destruct a as [|c' a]; [discriminate|].
  cbn [append prefix] in *.
  destruct (ascii_dec c c'); [now apply IH | discriminate].
Qed.

Lemma contains_app_l x a b : contains x a = true -> contains x (a ++ b) = true.
Proof.
  induction a as [|c a IH]; cbn [contains append]; intros H.
  - rewrite orb_false_r in H. destruct x; [|discriminate].
    destruct b; reflexivity.
  - apply orb_true_iff in H. destruct H as [H | H].
    + change (String c (a ++ b)) with (String c a ++ b).
      now rewrite (prefix_app_l _ _ b H).
    + rewrite (IH H). apply orb_true_r.
Qed.

Lemma contains_app_r x a b : contains x b = true -> contains x (a ++ b) = true.
Proof.
  intros H. induction a as [|c a IH]; cbn [contains append]; [exact H|].
  rewrite IH. apply orb_true_r.
Qed.

Lemma contains_self_app x b : contains x (x ++ b) = true.
Proof.
  destruct x as [|c x]; cbn [contains append].
  - destruct b; reflexivity.
  - change (String c (x ++ b)) with (String c x ++ b). now rewrite prefix_app.
Qed.



(** *** Characters *)

Lemma append_assoc a b c : (a ++ b) ++ c = a ++ b ++ c.
Proof. induction a; simpl; congruence. Qed.

Lemma text_of_app a b : text_of (a ++ b)%list = text_of a ++ text_of b.
Proof.
  induction a as [|c a IH]; simpl; [reflexivity|].
  now rewrite IH, append_assoc.
Qed.

Lemma split_chars_text s :
  fst (split_chars s) ++ text_of (snd (split_chars s)) = s.
Proof.
  induction s as [|c s IH]; simpl; [reflexivity|].
  destruct (split_chars s) as [pending cs]. simpl in IH.
  destruct (is_continuation c); simpl; now rewrite IH.
Qed.

(** Cutting a text into characters loses nothing. *)
Lemma text_of_chars s : text_of (chars s) = s.
Proof.
  unfold chars. pose proof (split_chars_text s) as H.
  destruct (split_chars s) as [pending cs]. simpl in H.
  destruct pending; simpl; exact H.
Qed.

End TextFacts.

(** ** Facts on computations and on runs *)

Module EffectFacts.
Import Effects Logic.
Open Scope monad_scope.

Lemma bind_ok {A B} (m : M A) (k : A -> M B) log log' a :
  m log = (log', Ok a) -> bind m k log = k a log'.
Proof. unfold bind. now intros ->. Qed.

Section Emits.
Context (P : Event -> Prop).

Lemma emits_ret {A} (a : A) : emits P (ret a).
Proof. intros log. exists []. simpl. now rewrite app_nil_r. Qed.

Lemma emits_lift {A} (r : Res A) : emits P (lift r).
Proof. intros log. exists []. simpl. now rewrite app_nil_r. Qed.

Lemma emits_print line : P (Print line) -> emits P (print line).
Proof. intros H log. exists [Print line]. simpl. auto. Qed.

Lemma emits_call {A} e (service : Log -> Res A) : P e -> emits P (call e service).
Proof. intros H log. exists [e]. simpl. auto. Qed.

Lemma emits_attempt {A} (m : M A) : emits P m -> emits P (attempt m).
Proof.
  intros H log. destruct (H log) as (evs & E & F).
  exists evs. unfold attempt. destruct (m log). simpl in *. auto.
Qed.

Lemma emits_bind {A B} (m : M A) (k : A -> M B) :
  emits P m -> (forall a, emits P (k a)) -> emits P (bind m k).
Proof.
  intros Hm Hk log. destruct (Hm log) as (evs & E & F).
  unfold bind. destruct (m log) as [log' [a|e]]; simpl in E; subst log'.
  - destruct (Hk a (log ++ evs)%list) as (evs' & E' & F').
    exists (evs ++ evs')%list. rewrite E', app_assoc. split; [reflexivity|].
    apply Forall_app; auto.
  - exists evs. auto.
Qed.

End Emits.

Lemma last_content_snoc ms m : last_content (ms ++ [m])%list = Ok (content m).
Proof. unfold last_content. now rewrite rev_unit. Qed.

Lemma first_content_app ms added c :
  first_content ms = Ok c -> first_content (ms ++ added)%list = Ok c.
Proof. destruct ms; simpl; [discriminate | auto]. Qed.

Lemma starts_bind_ok {A B} (m : M A) (k : A -> M B) log log1 a pre :
  m log = (log1, Ok a) -> starts (k a) log1 pre -> starts (bind m k) log pre.
Proof. intros Hm (evs & E). exists evs. now rewrite (bind_ok _ _ _ _ _ Hm). Qed.

Lemma starts_bind_any {A B} (m : M A) (k : A -> M B) log pre :
  starts m log pre -> (forall a, emits any_event (k a)) -> starts (bind m k) log pre.
Proof.
  intros (evs & E) Hk. unfold starts, bind.
  destruct (m log) as [log1 [a|e]]; simpl in E; subst log1.
  - destruct (Hk a (pre ++ evs)%list) as (evs' & E' & _).
    exists (evs ++ evs')%list. now rewrite E', app_assoc.
  - exists evs. reflexivity.
Qed.

Lemma starts_call {A} e (service : Log -> Res A) log :
  starts (call e service) log (log ++ [e])%list.
Proof. exists []. simpl. now rewrite app_nil_r. Qed.

Ltac emits_tac :=
  unfold call_llm, call_vector_db;
  repeat first
    [ apply emits_bind; [|intros ?]
    | apply emits_ret
    | apply emits_lift
    | apply emits_print
    | apply emits_call
    | apply emits_attempt
    | match goal with
      | |- emits _ (if ?b then _ else _) => destruct b
      | |- emits _ (match ?x with _ => _ end) => destruct x
      end ].

Ltac run_monad :=
  cbv [bind print lift call_llm call_vector_db call ret attempt].

Ltac split_matches :=
  repeat match goal with
         | H : (_, _) = (_, _) |- _ => inversion H; subst; clear H
         | H : context [match ?x with _ => _ end] |- _ => destruct x eqn:?
         end.

End EffectFacts.

Module GraphFacts.
Import Effects Graph Logic EffectFacts.
Open Scope monad_scope.

Section Runs.
Context {Node State Update : Type}.
Variable node_fn : Node -> State -> M Update.
Variable reduce : State -> Update -> State.
Variable edge : Node -> State -> M (Target Node).

Lemma exec_S fuel n s log :
  exec node_fn reduce edge (S fuel) (To n) s log =
  match superstep node_fn reduce edge n s log with
  | (log', Ok c) => exec node_fn reduce edge fuel (fst c) (snd c) log'
  | (log', Raise e) => (log', Raise e)
  end.
Proof. reflexivity. Qed.

Lemma exec_END fuel s log :
  exec node_fn reduce edge fuel END s log = (log, Ok s).
Proof. now destruct fuel. Qed.

(** The superstep of a node whose function returns [upd] and whose edge
    then chooses [t]. *)
Lemma superstep_ok n s log log1 upd log2 t :
  node_fn n s log = (log1, Ok upd) ->
  edge n (reduce s upd) log1 = (log2, Ok t) ->
  superstep node_fn reduce edge n s log = (log2, Ok (t, reduce s upd)).
Proof.
  intros Hn He. unfold superstep.
  rewrite (bind_ok _ _ _ _ _ Hn). rewrite (bind_ok _ _ _ _ _ He). reflexivity.
Qed.

(** A superstep that succeeds ran the node, merged its update and chose
    the edge on the merged state. *)
Lemma superstep_inv n s log log' t s' :
  superstep node_fn reduce edge n s log = (log', Ok (t, s')) ->
  exists log1 upd,
    node_fn n s log = (log1, Ok upd) /\
    s' = reduce s upd /\
    edge n s' log1 = (log', Ok t).
Proof.
  unfold superstep, bind, ret.
  destruct (node_fn n s log) as [log1 [upd|e]]; [|discriminate].
  destruct (edge n (reduce s upd) log1) as [log2 [t2|e]] eqn:E; [|discriminate].
  intros H. inversion H; subst. eauto.
Qed.

(** The final state of a run that returns is a configuration of the
    run. *)
Lemma exec_reach c0 fuel : forall t s log log' s',
  reach node_fn reduce edge c0 (t, s, log) ->
  exec node_fn reduce edge fuel t s log = (log', Ok s') ->
  reach node_fn reduce edge c0 (END, s', log').
Proof.
  induction fuel as [|fuel IH]; intros t s log log' s' Hr He.
  - destruct t; simpl in He; [discriminate|].
    inversion He; subst. exact Hr.
  - destruct t as [n|].
    + rewrite exec_S in He.
      destruct (superstep node_fn reduce edge n s log) as [log1 [[t1 s1]|e]] eqn:Es;
        [|discriminate].
      eapply IH; [|exact He]. eapply reach_step; eauto.
    + simpl in He. inversion He; subst. exact Hr.
Qed.

(** What the checkpointer holds at the end is the state of a configuration
    of the run, and the final state when the run returns. *)
Lemma last_saved_reach c0 fuel : forall t s log,
  reach node_fn reduce edge c0 (t, s, log) ->
  exists t' log',
    reach node_fn reduce edge c0 (t', last_saved node_fn reduce edge fuel t s log, log').
Proof.
  induction fuel as [|fuel IH]; intros t s log Hr.
  - destruct t; simpl; eauto.
  - destruct t as [n|]; [|simpl; eauto].
    cbn [last_saved].
    destruct (superstep node_fn reduce edge n s log) as [log1 [[t1 s1]|e]] eqn:Es;
      [|eauto].
    apply IH. eapply reach_step; eauto.
Qed.

Lemma last_saved_result fuel : forall t s log log' s',
  exec node_fn reduce edge fuel t s log = (log', Ok s') ->
  last_saved node_fn reduce edge fuel t s log = s'.
Proof.
  induction fuel as [|fuel IH]; intros t s log log' s' He.
  - destruct t; simpl in He; [discriminate|]. now inversion He.
  - destruct t as [n|]; [|simpl in He; now inversion He].
    rewrite exec_S in He. cbn [last_saved].
    destruct (superstep node_fn reduce edge n s log) as [log1 [[t1 s1]|e]] eqn:Es;
      [|discriminate].
    eapply IH; eauto.
Qed.

(** A set of nodes closed under the edges, whose functions and edges
    only emit events in [P]: every run from within the set stays in it
    and only emits events in [P]. *)
Section Closed.
Variable P : Event -> Prop.
Variable allowed : Node -> Prop.
Hypothesis Hnode : forall n s, allowed n -> emits P (node_fn n s).
Hypothesis Hedge : forall n s, allowed n -> emits P (edge n s).
Hypothesis Hclosed : forall n s log t,
  allowed n -> snd (edge n s log) = Ok (To t) -> allowed t.

Lemma superstep_emits n s : allowed n -> emits P (superstep node_fn reduce edge n s).
Proof.
  intros H. unfold superstep.
  apply emits_bind; [now apply Hnode|]. intros upd.
  apply emits_bind; [now apply Hedge|]. intros t.
  apply emits_ret.
Qed.

Lemma superstep_closed n s log log' t s' :
  allowed n ->
  superstep node_fn reduce edge n s log = (log', Ok (t, s')) ->
  allowed_target allowed t.
Proof.
  intros H Hs. apply superstep_inv in Hs.
  destruct Hs as (log1 & upd & _ & _ & He).
  destruct t as [n'|]; [|exact I].
  apply (Hclosed n s' log1 n' H). now rewrite He.
Qed.

Lemma exec_emits fuel : forall t s,
  allowed_target allowed t -> emits P (exec node_fn reduce edge fuel t s).
Proof.
  induction fuel as [|fuel IH]; intros [n|] s Ht;
    [apply (emits_lift P) | apply (emits_ret P) | | apply (emits_ret P)].
  intros log. rewrite exec_S.
  destruct (superstep_emits n s Ht log) as (evs & E & F).
  destruct (superstep node_fn reduce edge n s log) as [log1 [[t1 s1]|e]] eqn:Es;
    simpl in E; subst log1.
  - assert (Ht1 : allowed_target allowed t1) by (eapply superstep_closed; eauto).
    destruct (IH t1 s1 Ht1 (log ++ evs)%list) as (evs' & E' & F').
    exists (evs ++ evs')%list. simpl. rewrite E', app_assoc. split; [reflexivity|].
    apply Forall_app; auto.
  - exists evs. auto.
Qed.

Lemma reach_closed t0 s0 log0 : forall c,
  allowed_target allowed t0 -> Forall P log0 ->
  reach node_fn reduce edge (t0, s0, log0) c ->
  allowed_target allowed (fst (fst c)) /\ Forall P (snd c).
Proof.
  intros c Ht0 Hl0 Hr. induction Hr as [|n s log t' s' log' Hr IH Hs].
  - simpl. auto.
  - destruct IH as [Hn Hl]. simpl in Hn, Hl. simpl. split.
    + eapply superstep_closed; eauto.
    + destruct (superstep_emits n s Hn log) as (evs & E & F).
      rewrite Hs in E. simpl in E. subst log'. apply Forall_app; auto.
Qed.

End Closed.

End Runs.

End GraphFacts.

(** ** Facts on observations *)

Module ObserveFacts.
Import Effects Observe.

Lemma printed_false line log :
  Forall (fun e => e <> Print line) log -> printed line log = false.
Proof.
  induction 1 as [|e log He _ IH]; simpl; [reflexivity|].
  rewrite IH, orb_false_r. destruct e; try reflexivity.
  apply String.eqb_neq. congruence.
Qed.

Lemma vector_db_queries_app a b :
  vector_db_queries (a ++ b)%list = (vector_db_queries a ++ vector_db_queries b)%list.
Proof.
  induction a as [|e a IH]; simpl; [reflexivity|].
  destruct e; simpl; now rewrite IH.
Qed.

Lemma banners_app a b : banners (a ++ b)%list = (banners a ++ banners b)%list.
Proof.
  induction a as [|e a IH]; simpl; [reflexivity|].
  destruct e; simpl; now rewrite IH.
Qed.

End ObserveFacts.

(** ** The price patterns of [web_search] and their description *)

Module PatternFacts.
Import Text Regex AgenticRag TextFacts.

Ltac conj := repeat match goal with |- _ /\ _ => split end.

(** *** The equations of the matcher *)

Lemma match_one cls rest c t :
  match_here ((One, cls) :: rest) (c :: t) =
  if cls c then cons_match c (match_here rest t) else None.
Proof. reflexivity. Qed.

Lemma match_one_nil cls rest : match_here ((One, cls) :: rest) [] = None.
Proof. reflexivity. Qed.

Lemma match_opt cls rest s :
  match_here ((Opt, cls) :: rest) s =
  or_else (match_here ((One, cls) :: rest) s) (match_here rest s).
Proof. reflexivity. Qed.

Lemma match_star_nil cls rest :
  match_here ((Star, cls) :: rest) [] = match_here rest [].
Proof. reflexivity. Qed.

Lemma match_star_cons cls rest c t :
  match_here ((Star, cls) :: rest) (c :: t) =
  if cls c then
    or_else (cons_match c (match_here ((Star, cls) :: rest) t)) (match_here rest (c :: t))
  else match_here rest (c :: t).
Proof. reflexivity. Qed.

Lemma match_plus cls rest c t :
  match_here ((Plus, cls) :: rest) (c :: t) =
  if cls c then cons_match c (match_here ((Star, cls) :: rest) t) else None.
Proof. reflexivity. Qed.

Lemma match_plus_nil cls rest : match_here ((Plus, cls) :: rest) [] = None.
Proof. reflexivity. Qed.

(** A literal at the head of a pattern. *)
Lemma match_lit a rest s :
  match_here ((One, String.eqb a) :: rest) s =
  match s with
  | c :: t => if String.eqb a c then cons_match a (match_here rest t) else None
  | [] => None
  end.
Proof.
  destruct s as [|c t]; [reflexivity|]. rewrite match_one.
  destruct (String.eqb a c) eqn:E; [|reflexivity].
  apply String.eqb_eq in E. now subst c.
Qed.

(** *** The classes *)

Lemma group_char_iff u ch : digit_or_comma u ch = true <-> group_char u ch.
Proof.
  unfold digit_or_comma, group_char. rewrite orb_true_iff, String.eqb_eq. tauto.
Qed.

Lemma not_group_char u ch : digit_or_comma u ch = false <-> ~ group_char u ch.
Proof.
  rewrite <- group_char_iff. destruct (digit_or_comma u ch); split; congruence.
Qed.

Lemma dot_no_space u : white_space u "." = false.
Proof. reflexivity. Qed.

Lemma dot_no_group u : digit_or_comma u "." = false.
Proof. reflexivity. Qed.

(** *** Digit groups *)

(** The starred class takes the digits and commas the text begins with. *)
Lemma star_digits u cs :
  exists ds after,
    match_here [(Star, digit_or_comma u)] cs = Some ds /\
    cs = (ds ++ after)%list /\ Forall (group_char u) ds /\ ends_group u after.
Proof.
  induction cs as [|c t (ds & after & E & -> & F & G)].
  - exists [], []. conj; constructor.
  - rewrite match_star_cons. destruct (digit_or_comma u c) eqn:Ec.
    + rewrite E. exists (c :: ds), after. conj; auto.
      constructor; [now apply group_char_iff | exact F].
    + exists [], (c :: ds ++ after)%list. conj; auto.
      simpl. now apply not_group_char.
Qed.

(** Digits and commas at the start of a text go no further than the run
    the text begins with. *)
Lemma group_prefix_le u m : forall after ds a,
  ends_group u after -> (m ++ after)%list = (ds ++ a)%list ->
  Forall (group_char u) ds -> List.length ds <= List.length m.
Proof.
  induction m as [|c m IH]; intros after ds a G E F.
  - destruct ds as [|d ds]; [reflexivity|]. cbn [app] in E. subst after.
    inversion F; subst. now destruct G.
  - destruct ds as [|d ds]; [simpl; lia|]. cbn [app] in E. inversion E; subst.
    inversion F; subst. simpl. apply le_n_S. eapply IH; eauto.
Qed.

Lemma plus_digits u cs :
  match match_here [(Plus, digit_or_comma u)] cs with
  | Some m =>
      digit_group u m /\ (exists after, cs = (m ++ after)%list) /\
      (forall ds a, cs = (ds ++ a)%list -> Forall (group_char u) ds ->
                    List.length ds <= List.length m)
  | None => forall ds a, cs = (ds ++ a)%list -> digit_group u ds -> False
  end.
Proof.
  destruct cs as [|c t].
  - rewrite match_plus_nil. intros ds a E [Hn _].
    symmetry in E. apply app_eq_nil in E. now destruct E.
  - rewrite match_plus. destruct (digit_or_comma u c) eqn:Ec.
    + destruct (star_digits u t) as (ds & after & E & -> & F & G). rewrite E.
      cbn [cons_match option_map]. conj.
      * split; [discriminate|]. constructor; [now apply group_char_iff | exact F].
      * now exists after.
      * intros ds' a E' F'.
        apply (group_prefix_le u (c :: ds) after ds' a G E' F').
    + intros ds a E [Hn F]. destruct F as [|d ds Hd F]; [contradiction|].
      cbn [app] in E. inversion E; subst.
      apply group_char_iff in Hd. congruence.
Qed.

(** *** White space, then a digit group *)

Lemma spaced_correct u cs :
  match match_here (spaced u) cs with
  | Some m =>
      (exists ws ds after,
          m = (ws ++ ds)%list /\ cs = (m ++ after)%list /\
          blank u ws /\ digit_group u ds) /\
      (forall ws ds a,
          cs = (ws ++ ds ++ a)%list -> blank u ws -> digit_group u ds ->
          List.length (ws ++ ds)%list <= List.length m)
  | None =>
      forall ws ds a,
        cs = (ws ++ ds ++ a)%list -> blank u ws -> digit_group u ds -> False
  end.
Proof.
  unfold spaced. induction cs as [|c t IH].
  - rewrite match_star_nil, match_plus_nil. intros ws ds a E _ [Hn _].
    symmetry in E. apply app_eq_nil in E. destruct E as [_ E].
    apply app_eq_nil in E. now destruct E.
  - rewrite match_star_cons.
    pose proof (plus_digits u (c :: t)) as P.
    (* what the digits alone give, for the decompositions without white space *)
    assert (Hplus :
      match match_here [(Plus, digit_or_comma u)] (c :: t) with
      | Some m =>
          (exists ws ds after,
              m = (ws ++ ds)%list /\ (c :: t) = (m ++ after)%list /\
              blank u ws /\ digit_group u ds) /\
          (forall ds a,
              (c :: t) = (ds ++ a)%list -> digit_group u ds ->
              List.length ds <= List.length m)
      | None => forall ds a, (c :: t) = (ds ++ a)%list -> digit_group u ds -> False
      end).
    { destruct (match_here [(Plus, digit_or_comma u)] (c :: t)) as [m|]; [|exact P].
      destruct P as (D & (after & E) & L). split.
      - exists [], m, after. conj; auto. constructor.
      - intros ds a E' [_ F]. now apply (L ds a). }
    clear P.
    destruct (white_space u c) eqn:Ec.
    + destruct (match_here [(Star, white_space u); (Plus, digit_or_comma u)] t)
        as [m1|] eqn:E1; cbn [cons_match option_map or_else].
      * destruct IH as ((ws & ds & after & Em & Et & B & D) & L). split.
        -- exists (c :: ws), ds, after. conj; auto.
           ++ now rewrite Em.
           ++ now rewrite Et.
           ++ constructor; auto.
        -- clear Em Et. intros ws' ds' a E B' D'. destruct ws' as [|w ws'].
           ++ cbn [app] in E. destruct D' as [Hn F].
              destruct F as [|d ds' Hd F]; [contradiction|].
              cbn [app] in E. inversion E; subst.
              destruct ds' as [|d' ds']; [simpl; lia|].
              cbn [app List.length]. apply le_n_S.
              apply (L [] (d' :: ds') a eq_refl); [constructor|].
              split; [discriminate | exact F].
           ++ cbn [app] in E. inversion E; subst. inversion B'; subst.
              cbn [app List.length]. apply le_n_S. now apply (L ws' ds' a).
      * destruct (match_here [(Plus, digit_or_comma u)] (c :: t)) as [m|].
        -- destruct Hplus as (S & L). split; [exact S|].
           intros ws' ds' a E B' D'. destruct ws' as [|w ws'].
           ++ now apply (L ds' a).
           ++ cbn [app] in E. inversion E; subst. inversion B'; subst.
              now destruct (IH ws' ds' a).
        -- intros ws' ds' a E B' D'. destruct ws' as [|w ws'].
           ++ now apply (Hplus ds' a).
           ++ cbn [app] in E. inversion E; subst. inversion B'; subst.
              now apply (IH ws' ds' a).
    + assert (Hw : forall ws' ds' a,
        (c :: t) = (ws' ++ ds' ++ a)%list -> blank u ws' -> ws' = []).
      { intros ws' ds' a E B'. destruct ws' as [|w ws']; [reflexivity|].
        cbn [app] in E. inversion E; subst. inversion B'; subst. congruence. }
      destruct (match_here [(Plus, digit_or_comma u)] (c :: t)) as [m|].
      * destruct Hplus as (S & L). split; [exact S|].
        intros ws' ds' a E B' D'. pose proof (Hw ws' ds' a E B'). subst ws'.
        now apply (L ds' a).
      * intros ws' ds' a E B' D'. pose proof (Hw ws' ds' a E B'). subst ws'.
        now apply (Hplus ds' a).
Qed.

(** White space followed by a digit group does not begin with a full
    stop. *)
Lemma spaced_head u ws ds a t :
  blank u ws -> digit_group u ds -> (ws ++ ds ++ a)%list = "." :: t -> False.
Proof.
  intros B [Hn F] E. destruct B as [|w ws Hw B]; cbn [app] in E.
  - destruct F as [|d ds Hd F]; [contradiction|]. cbn [app] in E. inversion E; subst.
    apply group_char_iff in Hd. rewrite dot_no_group in Hd. discriminate.
  - inversion E; subst. rewrite dot_no_space in Hw. discriminate.
Qed.

(** *** An optional full stop before them *)

Lemma dotted_correct u cs :
  match match_here (dotted u) cs with
  | Some m =>
      (exists ws ds after,
          (m = (ws ++ ds)%list \/ m = ("." :: ws ++ ds)%list) /\
          cs = (m ++ after)%list /\ blank u ws /\ digit_group u ds) /\
      (forall ws ds a,
          blank u ws -> digit_group u ds ->
          (cs = (ws ++ ds ++ a)%list -> List.length (ws ++ ds)%list <= List.length m) /\
          (cs = ("." :: ws ++ ds ++ a)%list ->
           S (List.length (ws ++ ds)%list) <= List.length m))
  | None =>
      forall ws ds a,
        blank u ws -> digit_group u ds ->
        cs <> (ws ++ ds ++ a)%list /\ cs <> ("." :: ws ++ ds ++ a)%list
  end.
Proof.
  unfold dotted. rewrite match_opt, match_lit.
  destruct cs as [|c t].
  - cbn [or_else]. pose proof (spaced_correct u []) as S.
    destruct (match_here (spaced u) []) as [m|].
    + destruct S as ((ws & ds & after & -> & E & B & [Hn F]) & _).
      symmetry in E. apply app_eq_nil in E. destruct E as [E _].
      apply app_eq_nil in E. now destruct E.
    + intros ws ds a B D. split; [|discriminate].
      intros E. now apply (S ws ds a).
  - destruct (String.eqb "." c) eqn:Ec.
    + apply String.eqb_eq in Ec. subst c.
      pose proof (spaced_correct u t) as S.
      destruct (match_here (spaced u) t) as [m1|]; cbn [cons_match option_map or_else].
      * destruct S as ((ws & ds & after & -> & -> & B & D) & L). split.
        -- exists ws, ds, after. conj; auto.
        -- intros ws' ds' a B' D'. split.
           ++ intros E. symmetry in E. now destruct (spaced_head u ws' ds' a _ B' D' E).
           ++ intros E. inversion E; subst. apply le_n_S. now apply (L ws' ds' a).
      * assert (N : match_here (spaced u) ("." :: t) = None).
        { unfold spaced. rewrite match_star_cons, dot_no_space, match_plus.
          now rewrite dot_no_group. }
        rewrite N. intros ws' ds' a B' D'. split.
        -- intros E. symmetry in E. now destruct (spaced_head u ws' ds' a _ B' D' E).
        -- intros E. inversion E; subst. now apply (S ws' ds' a).
    + cbn [or_else]. apply String.eqb_neq in Ec.
      pose proof (spaced_correct u (c :: t)) as S.
      destruct (match_here (spaced u) (c :: t)) as [m|].
      * destruct S as ((ws & ds & after & -> & E & B & D) & L). split.
        -- exists ws, ds, after. conj; auto.
        -- intros ws' ds' a B' D'. split.
           ++ intros E'. now apply (L ws' ds' a).
           ++ intros E'. inversion E'; subst. congruence.
      * intros ws' ds' a B' D'. split.
        -- intros E'. now apply (S ws' ds' a).
        -- intros E'. inversion E'; subst. congruence.
Qed.

(** *** The four patterns *)

Lemma pattern_rupee u :
  pattern_of u Rupee = [(One, String.eqb "₹"); (Plus, digit_or_comma u)].
Proof. reflexivity. Qed.

Lemma pattern_rs u :
  pattern_of u Rs = (One, String.eqb "R") :: (One, String.eqb "s") :: dotted u.
Proof. reflexivity. Qed.

Lemma pattern_inr u :
  pattern_of u INR =
  (One, String.eqb "I") :: (One, String.eqb "N") :: (One, String.eqb "R") :: spaced u.
Proof. reflexivity. Qed.

Lemma pattern_dollar u :
  pattern_of u Dollar = [(One, String.eqb "$"); (Plus, digit_or_comma u)].
Proof. reflexivity. Qed.

(** What the pattern of a currency matches at the start of a text: the
    longest token of the currency the text begins with, and nothing when it
    begins with none. *)
Lemma match_correct u k cs :
  match match_here (pattern_of u k) cs with
  | Some m =>
      token u k m /\ (exists after, cs = (m ++ after)%list) /\
      (forall t a, cs = (t ++ a)%list -> token u k t -> List.length t <= List.length m)
  | None => forall t a, cs = (t ++ a)%list -> ~ token u k t
  end.
Proof.
  destruct k.
  - (* rupee sign *)
    rewrite pattern_rupee, match_lit. destruct cs as [|c t].
    { intros t a E T. inversion T; subst. discriminate. }
    destruct (String.eqb "₹" c) eqn:Ec.
    + apply String.eqb_eq in Ec. subst c. pose proof (plus_digits u t) as P.
      destruct (match_here [(Plus, digit_or_comma u)] t) as [m|];
        cbn [cons_match option_map].
      * destruct P as (D & (after & Et) & L). conj.
        -- now constructor.
        -- exists after. now rewrite Et.
        -- clear Et. intros t' a E T. inversion T as [ds D'| | | |]; subst.
           cbn [app] in E. inversion E; subst. cbn [List.length]. apply le_n_S.
           apply (L ds a eq_refl). apply D'.
      * intros t' a E T. inversion T as [ds D'| | | |]; subst.
        cbn [app] in E. inversion E; subst. now apply (P ds a).
    + apply String.eqb_neq in Ec. intros t' a E T. inversion T; subst.
      cbn [app] in E. inversion E; subst. congruence.
  - (* Rs *)
    rewrite pattern_rs, match_lit. destruct cs as [|c t].
    { intros t a E T. inversion T; subst; discriminate. }
    destruct (String.eqb "R" c) eqn:Ec.
    2:{ apply String.eqb_neq in Ec. intros t' a E T.
        inversion T; subst; cbn [app] in E; inversion E; subst; congruence. }
    apply String.eqb_eq in Ec. subst c. rewrite match_lit. destruct t as [|c t].
    { cbn [cons_match option_map]. intros t a E T.
      inversion T; subst; discriminate. }
    destruct (String.eqb "s" c) eqn:Ec.
    2:{ apply String.eqb_neq in Ec. cbn [cons_match option_map]. intros t' a E T.
        inversion T; subst; cbn [app] in E; inversion E; subst; congruence. }
    apply String.eqb_eq in Ec. subst c. pose proof (dotted_correct u t) as P.
    destruct (match_here (dotted u) t) as [m|]; cbn [cons_match option_map].
    + destruct P as ((ws & ds & after & Hm & Et & B & D) & L). conj.
      * destruct Hm as [-> | ->]; now constructor.
      * exists after. now rewrite Et.
      * clear Et. intros t' a E T.
        inversion T as [|ws' ds' B' D'|ws' ds' B' D'| |]; subst;
          cbn [app] in E; inversion E as [E']; simpl; apply le_n_S, le_n_S.
        -- rewrite <- app_assoc in E'. apply (proj1 (L ws' ds' a B' D') E').
        -- rewrite <- app_assoc in E'.
           apply (proj2 (L ws' ds' a B' D')). exact E'.
    + intros t' a E T.
      inversion T as [|ws' ds' B' D'|ws' ds' B' D'| |]; subst;
        cbn [app] in E; inversion E as [E']; rewrite <- app_assoc in E'.
      * now apply (proj1 (P ws' ds' a B' D')).
      * now apply (proj2 (P ws' ds' a B' D')).
  - (* INR *)
    rewrite pattern_inr, match_lit. destruct cs as [|c t].
    { intros t a E T. inversion T; subst; discriminate. }
    destruct (String.eqb "I" c) eqn:Ec.
    2:{ apply String.eqb_neq in Ec. intros t' a E T.
        inversion T; subst; cbn [app] in E; inversion E; subst; congruence. }
    apply String.eqb_eq in Ec. subst c. rewrite match_lit. destruct t as [|c t].
    { cbn [cons_match option_map]. intros t a E T.
      inversion T; subst; discriminate. }
    destruct (String.eqb "N" c) eqn:Ec.
    2:{ apply String.eqb_neq in Ec. cbn [cons_match option_map]. intros t' a E T.
        inversion T; subst; cbn [app] in E; inversion E; subst; congruence. }
    apply String.eqb_eq in Ec. subst c. rewrite match_lit. destruct t as [|c t].
    { cbn [cons_match option_map]. intros t a E T.
      inversion T; subst; discriminate. }
    destruct (String.eqb "R" c) eqn:Ec.
    2:{ apply String.eqb_neq in Ec. cbn [cons_match option_map]. intros t' a E T.
        inversion T; subst; cbn [app] in E; inversion E; subst; congruence. }
    apply String.eqb_eq in Ec. subst c. pose proof (spaced_correct u t) as P.
    destruct (match_here (spaced u) t) as [m|]; cbn [cons_match option_map].
    + destruct P as ((ws & ds & after & -> & Et & B & D) & L). conj.
      * now constructor.
      * exists after. now rewrite Et.
      * clear Et. intros t' a E T. inversion T as [| | |ws' ds' B' D'|]; subst.
        cbn [app] in E. inversion E as [E']. rewrite <- app_assoc in E'.
        simpl. apply le_n_S, le_n_S, le_n_S. now apply (L ws' ds' a).
    + intros t' a E T. inversion T as [| | |ws' ds' B' D'|]; subst.
      cbn [app] in E. inversion E as [E']. rewrite <- app_assoc in E'.
      now apply (P ws' ds' a).
  - (* dollar sign *)
    rewrite pattern_dollar, match_lit. destruct cs as [|c t].
    { intros t a E T. inversion T; subst. discriminate. }
    destruct (String.eqb "$" c) eqn:Ec.
    + apply String.eqb_eq in Ec. subst c. pose proof (plus_digits u t) as P.
      destruct (match_here [(Plus, digit_or_comma u)] t) as [m|];
        cbn [cons_match option_map].
      * destruct P as (D & (after & Et) & L). conj.
        -- now constructor.
        -- exists after. now rewrite Et.
        -- clear Et. intros t' a E T. inversion T as [| | | |ds D']; subst.
           cbn [app] in E. inversion E; subst. cbn [List.length]. apply le_n_S.
           apply (L ds a eq_refl). apply D'.
      * intros t' a E T. inversion T as [| | | |ds D']; subst.
        cbn [app] in E. inversion E; subst. now apply (P ds a).
    + apply String.eqb_neq in Ec. intros t' a E T. inversion T; subst.
      cbn [app] in E. inversion E; subst. congruence.
Qed.

(** *** The search *)

Lemma search_chars_cons p c t :
  search_chars p (c :: t) =
  match match_here p (c :: t) with Some m => Some m | None => search_chars p t end.
Proof. reflexivity. Qed.

Lemma search_chars_nil p :
  search_chars p [] = match match_here p [] with Some m => Some m | None => None end.
Proof. reflexivity. Qed.

(** Two pieces of equal length at the start of a text are the same. *)
Lemma same_start {A} (x y : list A) : forall a b,
  (x ++ a)%list = (y ++ b)%list -> List.length x = List.length y -> x = y.
Proof.
  revert y. induction x as [|c x IH]; intros [|d y] a b E L; try discriminate.
  - reflexivity.
  - cbn [app] in E. inversion E; subst. simpl in L. f_equal. eapply IH; eauto.
Qed.

(** The search finds the token the description names. *)
Lemma search_sound u k text tok :
  search_chars (pattern_of u k) text = Some tok -> found u k text tok.
Proof.
  assert (Here : forall cs m,
    match_here (pattern_of u k) cs = Some m -> found u k cs m).
  { intros cs m E. pose proof (match_correct u k cs) as C. rewrite E in C.
    destruct C as (T & (after & ->) & L).
    exists [], after.
    conj; auto; try (intros; simpl; lia); intros t a E' T'; now apply (L t a). }
  induction text as [|c t IH]; intros H.
  - rewrite search_chars_nil in H.
    destruct (match_here (pattern_of u k) []) as [m|] eqn:E; [|discriminate].
    inversion H; subst. now apply Here.
  - rewrite search_chars_cons in H.
    pose proof (match_correct u k (c :: t)) as C.
    destruct (match_here (pattern_of u k) (c :: t)) as [m|] eqn:E.
    + inversion H; subst. now apply Here.
    + destruct (IH H) as (before & after & -> & T & L & G).
      exists (c :: before), after. conj; auto.
      intros b t' a E' T'. destruct b as [|c0 b].
      * now destruct (C t' a E').
      * cbn [app] in E'. inversion E'; subst. simpl.
        apply le_n_S. now apply (L b t' a).
Qed.

Lemma search_found u k text tok :
  found u k text tok -> search_chars (pattern_of u k) text = Some tok.
Proof.
  intros (before & after & -> & T & L & G).
  induction before as [|c before IH].
  - cbn [app].
    assert (E : match_here (pattern_of u k) (tok ++ after)%list = Some tok).
    { pose proof (match_correct u k (tok ++ after)%list) as C.
      destruct (match_here (pattern_of u k) (tok ++ after)%list) as [m|].
      - destruct C as (Tm & (a & Em) & Lm). f_equal.
        apply (same_start m tok a after (eq_sym Em)).
        apply Nat.le_antisymm.
        + apply (G m a Em Tm).
        + apply (Lm tok after eq_refl T).
      - now destruct (C tok after eq_refl). }
    destruct (tok ++ after)%list; [rewrite search_chars_nil | rewrite search_chars_cons];
      now rewrite E.
  - cbn [app]. rewrite search_chars_cons.
    pose proof (match_correct u k (c :: before ++ tok ++ after)%list) as C.
    destruct (match_here (pattern_of u k) (c :: before ++ tok ++ after)%list) as [m|].
    + destruct C as (Tm & (a & Em) & _).
      specialize (L [] m a Em Tm). simpl in L. lia.
    + apply IH. intros b t a E' T'.
      specialize (L (c :: b) t a). cbn [app] in L. rewrite E' in L.
      specialize (L eq_refl T'). simpl in L. lia.
Qed.

Lemma search_none u k text :
  search_chars (pattern_of u k) text = None -> absent u k text.
Proof.
  induction text as [|c t IH]; intros H b tok a E T.
  - pose proof (match_correct u k []) as C. rewrite search_chars_nil in H.
    destruct (match_here (pattern_of u k) []) as [m|]; [discriminate|].
    destruct b; [|discriminate]. now apply (C tok a E).
  - rewrite search_chars_cons in H.
    pose proof (match_correct u k (c :: t)) as C.
    destruct (match_here (pattern_of u k) (c :: t)) as [m0|]; [discriminate|].
    destruct b as [|c0 b].
    + now apply (C tok a E).
    + cbn [app] in E. inversion E; subst. now apply (IH H b tok a eq_refl).
Qed.

Lemma search_absent u k text :
  absent u k text -> search_chars (pattern_of u k) text = None.
Proof.
  intros H. destruct (search_chars (pattern_of u k) text) as [tok|] eqn:E; [|reflexivity].
  apply search_sound in E. destruct E as (before & after & E & T & _).
  now destruct (H before tok after E).
Qed.

(** *** The price of a text *)

Lemma price_token_unfold u content :
  price_token u content =
  match search_chars (pattern_of u Rupee) (chars content) with
  | Some m => Some (text_of m)
  | None =>
      match search_chars (pattern_of u Rs) (chars content) with
      | Some m => Some (text_of m)
      | None =>
          match search_chars (pattern_of u INR) (chars content) with
          | Some m => Some (text_of m)
          | None => option_map text_of (search_chars (pattern_of u Dollar) (chars content))
          end
      end
  end.
Proof.
  unfold price_token, search. cbn [pattern_of].
  repeat match goal with
         | |- context [search_chars ?p ?t] => destruct (search_chars p t)
         end; reflexivity.
Qed.

(** The loop of [web_search] over the patterns extracts the price the
    description names, and nothing when the text holds none. *)
Lemma price_token_spec u content p :
  price_token u content = Some p <-> price_is u content p.
Proof.
  rewrite price_token_unfold. unfold price_is. split.
  - destruct (search_chars (pattern_of u Rupee) (chars content)) as [m1|] eqn:E1.
    { intros H. inversion H. exists m1. split; [reflexivity|].
      left. now apply search_sound. }
    destruct (search_chars (pattern_of u Rs) (chars content)) as [m2|] eqn:E2.
    { intros H. inversion H. exists m2. split; [reflexivity|].
      right. left. split; [now apply search_none | now apply search_sound]. }
    destruct (search_chars (pattern_of u INR) (chars content)) as [m3|] eqn:E3.
    { intros H. inversion H. exists m3. split; [reflexivity|].
      right. right. left.
      conj; [now apply search_none | now apply search_none | now apply search_sound]. }
    destruct (search_chars (pattern_of u Dollar) (chars content)) as [m4|] eqn:E4;
      [|discriminate].
    intros H. inversion H. exists m4. split; [reflexivity|].
    right. right. right.
    conj;
      [now apply search_none | now apply search_none | now apply search_none
      | now apply search_sound].
  - intros (tok & -> & [F | [(A1 & F) | [(A1 & A2 & F) | (A1 & A2 & A3 & F)]]]).
    + now rewrite (search_found u _ _ _ F).
    + now rewrite (search_absent u _ _ A1), (search_found u _ _ _ F).
    + now rewrite (search_absent u _ _ A1), (search_absent u _ _ A2),
        (search_found u _ _ _ F).
    + now rewrite (search_absent u _ _ A1), (search_absent u _ _ A2),
        (search_absent u _ _ A3), (search_found u _ _ _ F).
Qed.

Lemma price_token_none u content :
  price_token u content = None <-> no_price u content.
Proof.
  rewrite price_token_unfold. unfold no_price. split.
  - destruct (search_chars (pattern_of u Rupee) (chars content)) eqn:E1; [discriminate|].
    destruct (search_chars (pattern_of u Rs) (chars content)) eqn:E2; [discriminate|].
    destruct (search_chars (pattern_of u INR) (chars content)) eqn:E3; [discriminate|].
    destruct (search_chars (pattern_of u Dollar) (chars content)) eqn:E4; [discriminate|].
    intros _ k. destruct k; now apply search_none.
  - intros H.
    now rewrite (search_absent u _ _ (H Rupee)), (search_absent u _ _ (H Rs)),
      (search_absent u _ _ (H INR)), (search_absent u _ _ (H Dollar)).
Qed.

(** An extracted price is a token that stands in the text. *)
Lemma price_token_stands u content p :
  price_token u content = Some p ->
  exists k before tok after,
    p = text_of tok /\ chars content = (before ++ tok ++ after)%list /\ token u k tok.
Proof.
  intros H. apply price_token_spec in H.
  destruct H as (tok & -> & [F | [(_ & F) | [(_ & _ & F) | (_ & _ & _ & F)]]]);
    destruct F as (before & after & E & T & _).
  - exists Rupee, before, tok, after. auto.
  - exists Rs, before, tok, after. auto.
  - exists INR, before, tok, after. auto.
  - exists Dollar, before, tok, after. auto.
Qed.

End PatternFacts.

(** ** [agentic_rag_workflow.py]: properties *)

Module AgenticRagFacts.
Import Text Regex Effects Graph Logic Observe EffectFacts GraphFacts TextFacts ObserveFacts AgenticRag.
Import PatternFacts.
Open Scope monad_scope.

(** *** The rewrite path *)

Lemma retriever_route_labels s :
  retriever_route s = "WebSearch" \/ retriever_route s = "generator".
Proof. unfold retriever_route. destruct (existsb _ _); auto. Qed.

Lemma node_quiet w n s : n <> Rewriter -> emits quiet (node_fn w n s).
Proof.
  intros Hn. destruct n; try contradiction; simpl;
    unfold _ai_assistant, _vector_retriever, _web_search_node, web_search, _generate;
    emits_tac; split; discriminate.
Qed.

Lemma edge_quiet n s : emits quiet (edge n s).
Proof. destruct n; simpl; emits_tac. Qed.

Lemma edge_avoids_rewriter n s log t :
  n <> Rewriter -> snd (edge n s log) = Ok (To t) -> t <> Rewriter.
Proof.
  intros Hn. destruct n; try contradiction; simpl.
  - unfold bind, lift, ret. destruct (assistant_route s) as [[l|]|e]; simpl;
      intros H; inversion H; discriminate.
  - unfold lift. simpl.
    destruct (retriever_route_labels s) as [-> | ->]; simpl;
      intros H; inversion H; discriminate.
  - discriminate.
  - discriminate.
Qed.

Lemma run_quiet w q : emits quiet (run w q).
Proof.
  unfold run, app_invoke, invoke.
  apply emits_bind.
  - apply exec_emits with (allowed := fun n => n <> Rewriter).
    + intros; now apply node_quiet.
    + intros; apply edge_quiet.
    + intros n s log t. apply edge_avoids_rewriter.
    + simpl. discriminate.
  - intros result. emits_tac.
Qed.

Lemma quiet_printed log :
  Forall quiet log ->
  printed "--- GRADER ---" log = false /\ printed "--- REWRITE ---" log = false.
Proof.
  intros H. split; apply printed_false; eapply Forall_impl; [|exact H| |exact H];
    now intros e [H1 H2].
Qed.

(** C10.  In [agentic_rag_workflow], the lambda on the edge out of
    [Retriever] only returns the labels WebSearch and generator.  So in
    every configuration of a run the next node is not [Rewriter], neither
    [_grade_documents] nor [_rewrite] has been entered (their banners were
    not printed), and the same holds of the whole log of [run], whether it
    returns or raises. *)
Theorem rewrite_path_unreachable w q t s log :
  reachable w q (t, s, log) ->
  (retriever_route s = "WebSearch" \/ retriever_route s = "generator") /\
  t <> To Rewriter /\
  printed "--- GRADER ---" log = false /\
  printed "--- REWRITE ---" log = false /\
  printed "--- GRADER ---" (fst (run w q [])) = false /\
  printed "--- REWRITE ---" (fst (run w q [])) = false.
Proof.
  intros Hr. split; [apply retriever_route_labels|].
  apply (reach_closed (node_fn w) reduce edge quiet (fun n => n <> Rewriter)) in Hr.
  - destruct Hr as [Ht Hl]. simpl in Ht, Hl.
    split; [destruct t; simpl in Ht; congruence|].
    destruct (quiet_printed _ Hl) as [H1 H2].
    destruct (run_quiet w q []) as (evs & E & F). simpl in E.
    rewrite E. destruct (quiet_printed _ F) as [H3 H4]. auto.
  - intros; now apply node_quiet.
  - intros; apply edge_quiet.
  - intros n s0 log0 t0. apply edge_avoids_rewriter.
  - simpl. discriminate.
  - constructor.
Qed.

(** *** The first message *)

Lemma superstep_appends w n s log log' t' s' :
  superstep (node_fn w) reduce edge n s log = (log', Ok (t', s')) ->
  exists added, messages s' = (messages s ++ added)%list.
Proof.
  intros H. apply superstep_inv in H. destruct H as (log1 & upd & _ & -> & _).
  exists upd. reflexivity.
Qed.

(** Every configuration of a run keeps the messages the run started from,
    in place and in order. *)
Lemma reach_appends w t0 s0 log0 c :
  reach (node_fn w) reduce edge (t0, s0, log0) c ->
  exists rest, messages (snd (fst c)) = (messages s0 ++ rest)%list.
Proof.
  induction 1 as [|n s log t' s' log' Hr IH Hs]; simpl.
  - exists []. now rewrite app_nil_r.
  - destruct IH as (rest & E). simpl in E.
    destruct (superstep_appends _ _ _ _ _ _ _ Hs) as (added & E').
    exists (rest ++ added)%list. now rewrite E', E, app_assoc.
Qed.

Lemma reachable_head w q c :
  reachable w q c -> exists rest, messages (snd (fst c)) = HumanMessage q :: rest.
Proof.
  intros H. destruct (reach_appends _ _ _ _ _ H) as (rest & E). now exists rest.
Qed.

(** The state [app.invoke] returns still has the query as its first
    message. *)
Lemma final_state_keeps_query w q log' result :
  app_invoke w (input_of q) [] = (log', Ok result) ->
  first_content (messages result) = Ok q.
Proof.
  intros H.
  assert (R : reachable w q (END, result, log'))
    by (eapply exec_reach; [apply reach_start | exact H]).
  destruct (reachable_head _ _ _ R) as (rest & E). simpl in E. now rewrite E.
Qed.

(** On a first run the first message is the query of the run. *)
Lemma first_run_first_message w q t s log :
  reachable w q (t, s, log) -> first_content (messages s) = Ok q.
Proof.
  intros Hr. destruct (reachable_head _ _ _ Hr) as (rest & E). simpl in E. now rewrite E.
Qed.

(** *** Runs on a thread *)

Lemma resume_messages saved q :
  messages (resume saved q) = (saved ++ [HumanMessage q])%list.
Proof. reflexivity. Qed.

Lemma resume_first saved q :
  first_content (messages (resume saved q)) = Ok (first_query saved q).
Proof. now destruct saved. Qed.

Lemma resume_last saved q : last_content (messages (resume saved q)) = Ok q.
Proof. rewrite resume_messages. apply last_content_snoc. Qed.

(** The first run on a thread is the run on a thread that holds nothing. *)
Lemma run_on_nothing w q : run_on w [] q = run w q.
Proof. reflexivity. Qed.

Lemma reachable_on_first w saved q t s log :
  reachable_on w saved q (t, s, log) ->
  first_content (messages s) = Ok (first_query saved q).
Proof.
  intros Hr. destruct (reach_appends _ _ _ _ _ Hr) as (rest & E). simpl in E.
  rewrite E. apply first_content_app, resume_first.
Qed.

(** [run_thread] does what [run_on] does on the messages of the thread. *)
Lemma run_thread_result w store q thread_id log :
  fst (run_thread w store q thread_id log) = run_on w (store thread_id) q log.
Proof. reflexivity. Qed.

(** What a thread holds after a run, returned or raised: the messages it
    held, the query, and what the run added. *)
Lemma run_thread_saves w store q thread_id log :
  exists added,
    snd (run_thread w store q thread_id log) thread_id =
      (store thread_id ++ HumanMessage q :: added)%list.
Proof.
  unfold run_thread, put. cbn [snd]. rewrite String.eqb_refl.
  destruct (last_saved_reach (node_fn w) reduce edge
              (To Assistant, resume (store thread_id) q, log) recursion_limit
              (To Assistant) (resume (store thread_id) q) log (reach_start _ _ _ _))
    as (t' & log' & Hr).
  destruct (reach_appends _ _ _ _ _ Hr) as (rest & E). cbn [fst snd] in E.
  exists rest. rewrite E, resume_messages, <- app_assoc. reflexivity.
Qed.

(** Other threads are left as they were. *)
Lemma run_thread_other w store q thread_id log other :
  other <> thread_id ->
  snd (run_thread w store q thread_id log) other = store other.
Proof.
  intros H. unfold run_thread, put. cbn [snd].
  apply String.eqb_neq in H. now rewrite H.
Qed.

(** C9, what the code does.  A thread that held nothing is given a first
    query by [run], and then a second one.  Whatever the first run did,
    returned or raised, in every configuration of the second run the first
    message is the first query, not the query of the run: the messages of
    the thread begin with the first query, and the second query comes after
    what the first run left.  Within the run every superstep leaves the
    messages it found in place and in order and adds its own at the end, so
    the first message is never overwritten; it is the wrong one from the
    start. *)
Theorem second_run_reads_first_query w store thread_id q1 log1 q2 t s log :
  store thread_id = [] ->
  reachable_on w (snd (run_thread w store q1 thread_id log1) thread_id) q2 (t, s, log) ->
  first_content (messages s) = Ok q1 /\
  (exists left rest,
      messages s = (HumanMessage q1 :: left ++ HumanMessage q2 :: rest)%list) /\
  (forall n log' t' s',
      superstep (node_fn w) reduce edge n s log = (log', Ok (t', s')) ->
      exists added, messages s' = (messages s ++ added)%list).
Proof.
  intros Hnew Hr.
  destruct (run_thread_saves w store q1 thread_id log1) as (left & Es).
  rewrite Hnew in Es. cbn [app] in Es. rewrite Es in Hr.
  destruct (reach_appends _ _ _ _ _ Hr) as (rest & E). cbn [fst snd] in E.
  rewrite resume_messages in E. cbn [app] in E.
  rewrite <- app_assoc in E. cbn [app] in E.
  split; [now rewrite E|]. split; [now exists left, rest|].
  intros n log' t' s'. apply superstep_appends.
Qed.

(** C9, witness: the failing input.  After "What is the price of iPhone
    15?" on the default thread, the run on "What is the price of Galaxy
    S24?" starts with the first query as its first message, and asks the
    index for the first query. *)
Lemma second_run_reads_first_query_witness :
  first_content
    (messages
       (resume
          (snd (run_thread
                  (Scenarios.world "It costs 64900." [Scenarios.iphone] None
                     Scenarios.no_response)
                  no_checkpoints "What is the price of iPhone 15?" default_thread [])
             default_thread)
          "What is the price of Galaxy S24?")) =
    Ok "What is the price of iPhone 15?" /\
  vector_db_queries
    (fst (fst (run_thread
                 (Scenarios.world "It costs 64900." [Scenarios.iphone] None
                    Scenarios.no_response)
                 (snd (run_thread
                         (Scenarios.world "It costs 64900." [Scenarios.iphone] None
                            Scenarios.no_response)
                         no_checkpoints "What is the price of iPhone 15?" default_thread []))
                 "What is the price of Galaxy S24?" default_thread []))) =
    ["What is the price of iPhone 15?"].
Proof.
  split; [|reflexivity].
  apply (second_run_reads_first_query
           (Scenarios.world "It costs 64900." [Scenarios.iphone] None Scenarios.no_response)
           no_checkpoints default_thread "What is the price of iPhone 15?" []
           "What is the price of Galaxy S24?" (To Assistant) _ [] eq_refl).
  apply reach_start.
Defined.

(** *** Where the log of a computation starts *)

Lemma node_emits w n s : emits any_event (node_fn w n s).
Proof.
  destruct n; simpl;
    unfold _ai_assistant, _vector_retriever, _web_search_node, web_search, _generate,
      _rewrite;
    emits_tac; exact I.
Qed.

Lemma edge_emits n s : emits any_event (edge n s).
Proof. destruct n; simpl; emits_tac. Qed.

Lemma exec_emits_any w fuel t s :
  emits any_event (exec (node_fn w) reduce edge fuel t s).
Proof.
  apply exec_emits with (allowed := fun _ => True); auto.
  - intros; apply node_emits.
  - intros; apply edge_emits.
  - now destruct t.
Qed.

(** *** The Assistant node *)

Lemma assistant_routes w s log l :
  last_content (messages s) = Ok l ->
  contains_any keywords (lower l) = true ->
  superstep (node_fn w) reduce edge Assistant s log =
    ((log ++ [Print "--- CALL ASSISTANT ---"])%list,
     Ok (To Retriever, reduce s [HumanMessage "TOOL: retriever"])).
Proof.
  intros Hl Hk. apply superstep_ok with (log1 := (log ++ [Print "--- CALL ASSISTANT ---"])%list).
  - simpl. unfold _ai_assistant. run_monad. now rewrite Hl, Hk.
  - simpl. unfold assistant_route, reduce, add_messages. run_monad.
    cbv [messages]. now rewrite last_content_snoc.
Qed.

Lemma assistant_answers w s log l r :
  last_content (messages s) = Ok l ->
  contains_any keywords (lower l) = false ->
  llm w (log ++ [Print "--- CALL ASSISTANT ---"])%list (assistant_prompt l) = Ok r ->
  superstep (node_fn w) reduce edge Assistant s log =
    ((log ++ [Print "--- CALL ASSISTANT ---"] ++ [CallLLM (assistant_prompt l)])%list,
     Ok (if contains "TOOL" r then To Retriever else END, reduce s [HumanMessage r])).
Proof.
  intros Hl Hk Hr.
  apply superstep_ok with
    (log1 := (log ++ [Print "--- CALL ASSISTANT ---"] ++ [CallLLM (assistant_prompt l)])%list).
  - simpl. unfold _ai_assistant. run_monad. rewrite Hl, Hk, Hr. now rewrite <- app_assoc.
  - simpl. unfold assistant_route, reduce, add_messages. run_monad.
    cbv [messages]. rewrite last_content_snoc. simpl content.
    now destruct (contains "TOOL" r).
Qed.

Lemma keyword_not_websearch q :
  contains_any keywords (lower q) = true -> String.eqb "TOOL: websearch" q = false.
Proof.
  intros H. apply String.eqb_neq. intros <-. vm_compute in H. discriminate.
Qed.

Lemma retriever_starts w s log q :
  first_content (messages s) = Ok q ->
  starts (superstep (node_fn w) reduce edge Retriever s) log
    (log ++ [Print "--- RETRIEVER ---"] ++ [CallVectorDB q])%list.
Proof.
  intros Hq. unfold superstep. apply starts_bind_any; [|intros ?; emits_tac; apply edge_emits].
  simpl. unfold _vector_retriever.
  eapply starts_bind_ok; [reflexivity|].
  eapply starts_bind_ok; [unfold lift; rewrite Hq; reflexivity|].
  apply starts_bind_any; [|intros ?; emits_tac].
  change [Print "--- RETRIEVER ---"; CallVectorDB q]
    with ([Print "--- RETRIEVER ---"] ++ [CallVectorDB q])%list.
  rewrite app_assoc. apply starts_call.
Qed.

Lemma run_starts_with_retrieval w saved q :
  contains_any keywords (lower q) = true ->
  starts (run_on w saved q) []
    [Print "--- CALL ASSISTANT ---"; Print "--- RETRIEVER ---";
     CallVectorDB (first_query saved q)].
Proof.
  intros Hk. unfold run_on. apply starts_bind_any; [|intros ?; emits_tac].
  unfold app_invoke, invoke, recursion_limit.
  change (exec (node_fn w) reduce edge 25 (To Assistant) (resume saved q))
    with (bind (superstep (node_fn w) reduce edge Assistant (resume saved q))
               (fun c => exec (node_fn w) reduce edge 24 (fst c) (snd c))).
  eapply starts_bind_ok;
    [apply (assistant_routes w (resume saved q) [] q (resume_last saved q) Hk)|].
  change (exec (node_fn w) reduce edge 24 (To Retriever)
            (reduce (resume saved q) [HumanMessage "TOOL: retriever"]))
    with (bind (superstep (node_fn w) reduce edge Retriever
                  (reduce (resume saved q) [HumanMessage "TOOL: retriever"]))
               (fun c => exec (node_fn w) reduce edge 23 (fst c) (snd c))).
  apply starts_bind_any; [|intros c; exact (exec_emits_any w 23 (fst c) (snd c))].
  apply (retriever_starts w _ [Print "--- CALL ASSISTANT ---"] (first_query saved q)).
  apply first_content_app, resume_first.
Qed.

Lemma run_direct_answer w saved q r :
  contains_any keywords (lower q) = false ->
  llm w [Print "--- CALL ASSISTANT ---"] (assistant_prompt q) = Ok r ->
  contains "TOOL" r = false ->
  run_on w saved q [] =
    ([Print "--- CALL ASSISTANT ---"; CallLLM (assistant_prompt q)],
     Ok (if String.eqb (normalize r) (normalize q) then no_price_message q else r)).
Proof.
  intros Hk Hr Ht. unfold run_on, app_invoke, invoke, recursion_limit.
  rewrite (bind_ok _ _ _ [Print "--- CALL ASSISTANT ---"; CallLLM (assistant_prompt q)]
             (reduce (resume saved q) [HumanMessage r])).
  - unfold reduce at 1. unfold add_messages at 1. run_monad. cbv [messages].
    rewrite last_content_snoc. cbv [content].
    now destruct (String.eqb (normalize r) (normalize q)).
  - rewrite exec_S.
    rewrite (assistant_answers w (resume saved q) [] q r (resume_last saved q) Hk Hr).
    rewrite Ht. reflexivity.
Qed.

(** C3, as amended.  The thread may hold messages of earlier runs
    ([saved]); the Assistant reads the new query, the last message.  A query
    whose lowered text contains "price", "review" or "product" is sent to the
    Retriever: the Assistant step calls no model, its edge leads to
    [Retriever], and the log of the run starts with a lookup in the vector
    index, for the first message of the thread (the query itself on a first
    run).  A query with none of the keywords is put to the model directly;
    when the model's reply does not contain "TOOL", the run ends there, with
    no call to the index or to web search, and returns the reply (or, when
    the reply normalises to the query, the no-information message of
    [run]). *)
Theorem assistant_routing w saved q :
  (contains_any keywords (lower q) = true ->
     superstep (node_fn w) reduce edge Assistant (resume saved q) [] =
       ([Print "--- CALL ASSISTANT ---"],
        Ok (To Retriever,
            {| messages :=
                 (saved ++ [HumanMessage q; HumanMessage "TOOL: retriever"])%list |})) /\
     exists rest,
       fst (run_on w saved q []) =
         Print "--- CALL ASSISTANT ---" :: Print "--- RETRIEVER ---" ::
         CallVectorDB (first_query saved q) :: rest) /\
  (contains_any keywords (lower q) = false ->
     forall r,
       llm w [Print "--- CALL ASSISTANT ---"] (assistant_prompt q) = Ok r ->
       contains "TOOL" r = false ->
       run_on w saved q [] =
         ([Print "--- CALL ASSISTANT ---"; CallLLM (assistant_prompt q)],
          Ok (if String.eqb (normalize r) (normalize q)
              then no_price_message q else r)) /\
       vector_db_queries (fst (run_on w saved q [])) = [] /\
       searched_web (fst (run_on w saved q [])) = false /\
       printed "--- RETRIEVER ---" (fst (run_on w saved q [])) = false /\
       printed "--- WEB SEARCH ---" (fst (run_on w saved q [])) = false).
Proof.
  split.
  - intros Hk. split.
    + rewrite (assistant_routes w (resume saved q) [] q (resume_last saved q) Hk).
      unfold reduce, add_messages. rewrite resume_messages, <- app_assoc. reflexivity.
    + destruct (run_starts_with_retrieval w saved q Hk) as (evs & E). now exists evs.
  - intros Hk r Hr Ht. rewrite (run_direct_answer w saved q r Hk Hr Ht). auto.
Qed.

(** C3, witness: a query with a keyword on a thread that holds an earlier
    query, and a query without a keyword on a new thread. *)
Lemma assistant_routing_witness :
  (exists rest,
     fst (run_on (Scenarios.world "It costs 64900." [] None Scenarios.no_response)
            [HumanMessage "Galaxy S24 reviews"; HumanMessage "TOOL: retriever"]
            "iPhone price" []) =
       Print "--- CALL ASSISTANT ---" :: Print "--- RETRIEVER ---" ::
       CallVectorDB "Galaxy S24 reviews" :: rest) /\
  vector_db_queries
    (fst (run_on (Scenarios.world "Paris." [] None Scenarios.no_response) []
            "What is the capital of France?" [])) = [].
Proof.
  split.
  - apply (proj1 (assistant_routing _
                    [HumanMessage "Galaxy S24 reviews"; HumanMessage "TOOL: retriever"]
                    "iPhone price")).
    reflexivity.
  - apply (proj2 (assistant_routing
                    (Scenarios.world "Paris." [] None Scenarios.no_response) []
                    "What is the capital of France?") eq_refl "Paris."); reflexivity.
Defined.

(** C3, counterexample: two queries without a keyword.  On "hello" the
    model answers "Hello!", which normalises to the query, and [run] returns
    the no-information message instead of the model's answer.  On "hi" the
    model answers "TOOL", and the run goes on to the Retriever and to web
    search. *)
Lemma direct_answer_counterexample :
  (contains_any keywords (lower "hello") = false /\
   llm (Scenarios.world "Hello!" [] None Scenarios.no_response)
     [Print "--- CALL ASSISTANT ---"] (assistant_prompt "hello") = Ok "Hello!" /\
   snd (run (Scenarios.world "Hello!" [] None Scenarios.no_response) "hello" []) =
     Ok "No price information found online for hello.") /\
  (contains_any keywords (lower "hi") = false /\
   vector_db_queries
     (fst (run (Scenarios.world "TOOL" [] None Scenarios.no_response) "hi" [])) = ["hi"] /\
   printed "--- WEB SEARCH ---"
     (fst (run (Scenarios.world "TOOL" [] None Scenarios.no_response) "hi" [])) = true /\
   snd (run (Scenarios.world "TOOL" [] None Scenarios.no_response) "hi" []) <> Ok "TOOL").
Proof. vm_compute. repeat split; discriminate. Qed.

(** *** The echo guard *)

Lemma no_price_message_not_echo q text :
  normalize text = normalize q -> no_price_message q <> text.
Proof.
  intros H. unfold no_price_message.
  apply (wrapped_not_echo "No price information found online for " "." q text);
    [discriminate | exact H].
Qed.



(** *** Retrieval, web search and generation, step by step *)

Lemma retriever_route_websearch ms q :
  retriever_route {| messages := ms ++ [HumanMessage "TOOL: websearch"; HumanMessage q] |}
  = "WebSearch".
Proof.
  unfold retriever_route, contents. cbv [messages].
  rewrite map_app, existsb_app. simpl. now rewrite orb_true_r.
Qed.

Lemma retriever_finds_nothing w s log q :
  first_content (messages s) = Ok q ->
  vector_db w (log ++ [Print "--- RETRIEVER ---"])%list q = Ok [] ->
  superstep (node_fn w) reduce edge Retriever s log =
    ((log ++ [Print "--- RETRIEVER ---"; CallVectorDB q])%list,
     Ok (To WebSearch, reduce s [HumanMessage "TOOL: websearch"; HumanMessage q])).
Proof.
  intros Hq Hd.
  apply superstep_ok with
    (log1 := (log ++ [Print "--- RETRIEVER ---"; CallVectorDB q])%list).
  - simpl. unfold _vector_retriever. run_monad. rewrite Hq, Hd.
    change [Print "--- RETRIEVER ---"; CallVectorDB q]
      with ([Print "--- RETRIEVER ---"] ++ [CallVectorDB q])%list.
    now rewrite app_assoc.
  - simpl. unfold reduce, add_messages. run_monad.
    now rewrite retriever_route_websearch.
Qed.








(** *** An apology from the Generator *)

Lemma split_database_context context :
  split_indicator (database_indicator ++ NL ++ context) = (database_indicator, lstrip context).
Proof. reflexivity. Qed.

Lemma retriever_route_generator q context :
  contains_any keywords (lower q) = true ->
  retriever_route
    {| messages := [HumanMessage q; HumanMessage "TOOL: retriever";
                    HumanMessage (database_indicator ++ NL ++ context)] |}
  = "generator".
Proof.
  intros Hk. unfold retriever_route, contents. cbv [messages map content existsb].
  rewrite (keyword_not_websearch q Hk). reflexivity.
Qed.

Lemma retriever_finds_records w q d docs :
  contains_any keywords (lower q) = true ->
  vector_db w [Print "--- CALL ASSISTANT ---"; Print "--- RETRIEVER ---"] q = Ok (d :: docs) ->
  contains_any apology_phrases (lower (format_docs (d :: docs))) = false ->
  superstep (node_fn w) reduce edge Retriever
    {| messages := [HumanMessage q; HumanMessage "TOOL: retriever"] |}
    [Print "--- CALL ASSISTANT ---"] =
    ([Print "--- CALL ASSISTANT ---"; Print "--- RETRIEVER ---"; CallVectorDB q],
     Ok (To Generator,
         {| messages := [HumanMessage q; HumanMessage "TOOL: retriever";
                         HumanMessage (database_indicator ++ NL ++ format_docs (d :: docs))] |})).
Proof.
  intros Hk Hd Ha.
  apply superstep_ok with
    (log1 := [Print "--- CALL ASSISTANT ---"; Print "--- RETRIEVER ---"; CallVectorDB q])
    (upd := [HumanMessage (database_indicator ++ NL ++ format_docs (d :: docs))]).
  - cbv [node_fn]. unfold _vector_retriever. run_monad.
    cbv [messages first_content content app]. rewrite Hd, Ha. reflexivity.
  - cbv [edge]. unfold reduce, add_messages. cbv [messages app]. unfold lift.
    now rewrite (retriever_route_generator q (format_docs (d :: docs)) Hk).
Qed.

Lemma generator_apologises w q context log r :
  llm w (log ++ [Print "--- GENERATE ---"])%list
      (product_bot_prompt w (lstrip context) q) = Ok r ->
  contains_any apology_phrases (lower (database_indicator ++ NL ++ r)) = true ->
  superstep (node_fn w) reduce edge Generator
    {| messages := [HumanMessage q; HumanMessage "TOOL: retriever";
                    HumanMessage (database_indicator ++ NL ++ context)] |} log =
    ((log ++ [Print "--- GENERATE ---";
              CallLLM (product_bot_prompt w (lstrip context) q)])%list,
     Ok (END,
         {| messages := [HumanMessage q; HumanMessage "TOOL: retriever";
                         HumanMessage (database_indicator ++ NL ++ context);
                         HumanMessage "TOOL: websearch"; HumanMessage q] |})).
Proof.
  intros Hr Ha.
  apply superstep_ok with
    (log1 := (log ++ [Print "--- GENERATE ---";
                      CallLLM (product_bot_prompt w (lstrip context) q)])%list)
    (upd := [HumanMessage "TOOL: websearch"; HumanMessage q]);
    [|reflexivity].
  cbv [node_fn]. unfold _generate. run_monad.
  cbv [messages first_content content].
  change (last_content _) with (Ok (database_indicator ++ NL ++ context)).
  cbv iota. rewrite split_database_context. cbv [fst snd].
  rewrite Hr. change (truthy database_indicator) with true. cbv iota.
  rewrite Ha.
  change [Print "--- GENERATE ---"; CallLLM (product_bot_prompt w (lstrip context) q)]
    with ([Print "--- GENERATE ---"]
            ++ [CallLLM (product_bot_prompt w (lstrip context) q)])%list.
  now rewrite app_assoc.
Qed.

(** C2, what the code does.  The query has a product keyword, the index
    returns records whose formatted text holds no apology phrase, and the
    model's answer, with the database indicator in front, holds one.  Then
    [_generate] appends the marker "TOOL: websearch" and the question, but
    the edge out of [Generator] leads to [END]: the run visits Assistant,
    Retriever and Generator only, no web search takes place, the last
    message is the question itself and [run] returns the no-information
    message. *)
Theorem generator_apology_ends_run w q d docs r :
  contains_any keywords (lower q) = true ->
  vector_db w [Print "--- CALL ASSISTANT ---"; Print "--- RETRIEVER ---"] q = Ok (d :: docs) ->
  contains_any apology_phrases (lower (format_docs (d :: docs))) = false ->
  llm w [Print "--- CALL ASSISTANT ---"; Print "--- RETRIEVER ---"; CallVectorDB q;
         Print "--- GENERATE ---"]
      (product_bot_prompt w (lstrip (format_docs (d :: docs))) q) = Ok r ->
  contains_any apology_phrases (lower ("[Source: Database]" ++ NL ++ r)) = true ->
  run w q [] =
    ([Print "--- CALL ASSISTANT ---"; Print "--- RETRIEVER ---"; CallVectorDB q;
      Print "--- GENERATE ---";
      CallLLM (product_bot_prompt w (lstrip (format_docs (d :: docs))) q)],
     Ok (no_price_message q)) /\
  printed "--- WEB SEARCH ---" (fst (run w q [])) = false /\
  searched_web (fst (run w q [])) = false.
Proof.
  intros Hk Hd Hc Hr Ha.
  assert (E : run w q [] =
    ([Print "--- CALL ASSISTANT ---"; Print "--- RETRIEVER ---"; CallVectorDB q;
      Print "--- GENERATE ---";
      CallLLM (product_bot_prompt w (lstrip (format_docs (d :: docs))) q)],
     Ok (no_price_message q))).
  { unfold run, app_invoke, invoke, recursion_limit.
    rewrite (bind_ok _ _ _
               [Print "--- CALL ASSISTANT ---"; Print "--- RETRIEVER ---"; CallVectorDB q;
                Print "--- GENERATE ---";
                CallLLM (product_bot_prompt w (lstrip (format_docs (d :: docs))) q)]
               {| messages := [HumanMessage q; HumanMessage "TOOL: retriever";
                               HumanMessage (database_indicator ++ NL ++ format_docs (d :: docs));
                               HumanMessage "TOOL: websearch"; HumanMessage q] |}).
    - run_monad. cbv [messages].
      change (last_content _) with (Ok q). cbv iota.
      now rewrite String.eqb_refl.
    - rewrite exec_S, (assistant_routes w (input_of q) [] q eq_refl Hk).
      cbv [fst snd]. rewrite exec_S.
      change (reduce (input_of q) [HumanMessage "TOOL: retriever"])
        with {| messages := [HumanMessage q; HumanMessage "TOOL: retriever"] |}.
      change ([] ++ [Print "--- CALL ASSISTANT ---"])%list
        with [Print "--- CALL ASSISTANT ---"].
      rewrite (retriever_finds_records w q d docs Hk Hd Hc).
      cbv [fst snd]. rewrite exec_S.
      rewrite (generator_apologises w q (format_docs (d :: docs))
                 [Print "--- CALL ASSISTANT ---"; Print "--- RETRIEVER ---"; CallVectorDB q]
                 r Hr Ha).
      reflexivity. }
  rewrite E. auto.
Qed.

(** C2, witness: the failing input. *)
Lemma generator_apology_ends_run_witness :
  snd (run (Scenarios.world "I am sorry, I cannot provide the price."
              [Scenarios.iphone] None Scenarios.no_response)
         "What is the price of iPhone 15?" []) =
    Ok "No price information found online for What is the price of iPhone 15?." /\
  searched_web
    (fst (run (Scenarios.world "I am sorry, I cannot provide the price."
                 [Scenarios.iphone] None Scenarios.no_response)
            "What is the price of iPhone 15?" [])) = false.
Proof.
  destruct (generator_apology_ends_run
              (Scenarios.world "I am sorry, I cannot provide the price."
                 [Scenarios.iphone] None Scenarios.no_response)
              "What is the price of iPhone 15?" Scenarios.iphone []
              "I am sorry, I cannot provide the price."
              eq_refl eq_refl eq_refl eq_refl eq_refl) as (H1 & _ & H3).
  rewrite H3, H1. split; reflexivity.
Defined.

(** *** The selection policy of [web_search] *)

Lemma token_truthy u k tok : token u k tok -> truthy (text_of tok) = true.
Proof. destruct 1; reflexivity. Qed.

Lemma find_price_is_price_token u content :
  find_price (price_patterns u) content = price_token u content.
Proof.
  unfold price_token. cbn [find_price price_patterns].
  repeat match goal with |- context [search ?p content] => destruct (search p content) end;
    reflexivity.
Qed.

Lemma price_token_truthy u content p : price_token u content = Some p -> truthy p = true.
Proof.
  intros H. apply price_token_stands in H.
  destruct H as (k & before & tok & after & -> & _ & T).
  exact (token_truthy u k tok T).
Qed.

Lemma is_set_price u content :
  is_set (find_price (price_patterns u) content) =
  match price_token u content with Some _ => true | None => false end.
Proof.
  rewrite find_price_is_price_token.
  destruct (price_token u content) eqn:E; [|reflexivity].
  simpl. eapply price_token_truthy; eauto.
Qed.

(** One turn of the loop on a dict. *)
Lemma scan_priced u c t url rest best p :
  price_is u (get c "") p ->
  scan_results u (ResDict c t url :: rest) best =
    with_price (get t "Web Result") p (get c "") (get url "").
Proof.
  intros Hp. apply price_token_spec in Hp.
  cbn [scan_results]. now rewrite is_set_price, find_price_is_price_token, Hp.
Qed.

Lemma scan_unpriced u c t url rest best :
  no_price u (get c "") ->
  scan_results u (ResDict c t url :: rest) best =
    scan_results u rest
      (if negb (is_set best)
       then Some (without_price (get t "Web Result") (get c "") (get url ""))
       else best).
Proof.
  intros Hp. apply price_token_none in Hp.
  cbn [scan_results]. now rewrite is_set_price, Hp.
Qed.

(** The loop, once a fallback is held: it returns the first priced result,
    and the fallback when there is none. *)
Lemma scan_with_fallback u rs : forall b,
  truthy b = true ->
  (forall before c t url after p,
      rs = (before ++ ResDict c t url :: after)%list ->
      Forall (unpriced u) before ->
      price_is u (get c "") p ->
      scan_results u rs (Some b) =
        with_price (get t "Web Result") p (get c "") (get url "")) /\
  (Forall (unpriced u) rs -> scan_results u rs (Some b) = b).
Proof.
  intros b Hb. induction rs as [|r rs [IH1 IH2]].
  - split.
    + intros [|? ?] ? ? ? ? ? H; discriminate.
    + intros _. simpl. now rewrite Hb.
  - split.
    + intros before c t url after p E Hbefore Hp.
      destruct before as [|r0 before]; simpl in E; inversion E; subst.
      * now apply scan_priced.
      * inversion Hbefore as [|? ? H0 Hrest]; subst.
        destruct r0 as [c0 t0 u0|].
        -- rewrite (scan_unpriced u c0 t0 u0 _ _ H0).
           simpl is_set. rewrite Hb. simpl negb. cbv iota.
           eapply IH1; eauto.
        -- cbn [scan_results]. eapply IH1; eauto.
    + intros H. inversion H as [|? ? H0 Hrest]; subst.
      destruct r as [c0 t0 u0|].
      * rewrite (scan_unpriced u c0 t0 u0 _ _ H0).
        simpl is_set. rewrite Hb. simpl negb. cbv iota. auto.
      * cbn [scan_results]. auto.
Qed.

Lemma without_price_truthy t c u : truthy (without_price t c u) = true.
Proof. reflexivity. Qed.

(** The loop from its start. *)
Lemma scan_from_start u rs :
  (forall before c t url after p,
      rs = (before ++ ResDict c t url :: after)%list ->
      Forall (unpriced u) before ->
      price_is u (get c "") p ->
      scan_results u rs None =
        with_price (get t "Web Result") p (get c "") (get url "")) /\
  (forall before c t url after,
      rs = (before ++ ResDict c t url :: after)%list ->
      Forall (unpriced u) rs ->
      Forall (fun r => usable r = false) before ->
      scan_results u rs None = without_price (get t "Web Result") (get c "") (get url "")) /\
  (Forall (fun r => usable r = false) rs -> scan_results u rs None = "").
Proof.
  induction rs as [|r rs (IH1 & IH2 & IH3)].
  - split; [|split].
    + intros [|? ?] ? ? ? ? ? H; discriminate.
    + intros [|? ?] ? ? ? ? H; discriminate.
    + reflexivity.
  - split; [|split].
    + intros before c t url after p E Hbefore Hp.
      destruct before as [|r0 before]; simpl in E; inversion E; subst.
      * now apply scan_priced.
      * inversion Hbefore as [|? ? H0 Hrest]; subst.
        destruct r0 as [c0 t0 u0|].
        -- rewrite (scan_unpriced u c0 t0 u0 _ _ H0).
           simpl is_set. simpl negb. cbv iota.
           eapply (proj1 (scan_with_fallback u _ _ (without_price_truthy _ _ _))); eauto.
        -- cbn [scan_results]. eapply IH1; eauto.
    + intros before c t url after E Hall Hbefore.
      inversion Hall as [|? ? H0 Hrest]; subst.
      destruct before as [|r0 before]; simpl in E; inversion E; subst.
      * rewrite (scan_unpriced u c t url _ _ H0).
        simpl is_set. simpl negb. cbv iota.
        apply (proj2 (scan_with_fallback u _ _ (without_price_truthy _ _ _))). exact Hrest.
      * inversion Hbefore as [|? ? Hu0 Hb']; subst.
        destruct r0 as [c0 t0 u0|]; [discriminate|].
        cbn [scan_results]. eapply IH2; eauto.
    + intros H. inversion H as [|? ? H0 Hrest]; subst.
      destruct r as [c0 t0 u0|]; [discriminate|].
      cbn [scan_results]. auto.
Qed.

(** *** Examples of prices *)

(** "Rs 64,900", read with the description alone: no rupee sign stands in
    the text, and the text is a token of Rs, without a full stop and with
    one blank. *)
Example rs_without_full_stop u : price_is u "Rs 64,900" "Rs 64,900".
Proof.
  exists ["R"; "s"; " "; "6"; "4"; ","; "9"; "0"; "0"]. split; [reflexivity|].
  right. left. split.
  - intros b t a E T. inversion T as [ds D| | | |]; subst.
    assert (H : In "₹" (chars "Rs 64,900")).
    { rewrite E. apply in_or_app. right. now left. }
    cbv in H. repeat (destruct H as [H | H]; [discriminate|]). exact H.
  - exists [], []. split; [reflexivity|]. split; [|split].
    + apply (token_rs u [" "] ["6"; "4"; ","; "9"; "0"; "0"]).
      * repeat constructor.
      * split; [discriminate|].
        repeat constructor; (now left) || (now right).
    + intros; simpl; lia.
    + intros t a E _. apply (f_equal (@List.length _)) in E.
      rewrite !length_app in E. simpl in E. simpl. lia.
Qed.

Example price_token_rupee :
  price_token Scenarios.tables "The price is ₹64,900 only" = Some "₹64,900".
Proof. reflexivity. Qed.

Example price_token_order :
  price_token Scenarios.tables "From $799 abroad, Rs. 64,900 in India" = Some "Rs. 64,900".
Proof. reflexivity. Qed.

Example price_token_rs_plain :
  price_token Scenarios.tables "Now Rs 64,900 only" = Some "Rs 64,900".
Proof. reflexivity. Qed.

Example price_token_rs_unspaced :
  price_token Scenarios.tables "Now Rs.64,900 only" = Some "Rs.64,900".
Proof. reflexivity. Qed.

Example price_token_no_break_space :
  price_token Scenarios.tables ("Rs." ++ Scenarios.no_break_space ++ "64,900 today") =
    Some ("Rs." ++ Scenarios.no_break_space ++ "64,900").
Proof. reflexivity. Qed.

Example price_token_other_digits :
  price_token Scenarios.tables ("INR " ++ Scenarios.arabic_indic_64 ++ ",900 net") =
    Some ("INR " ++ Scenarios.arabic_indic_64 ++ ",900").
Proof. reflexivity. Qed.

Example price_token_inr : price_token Scenarios.tables "INR   1,299 now" = Some "INR   1,299".
Proof. reflexivity. Qed.

Example price_token_none_found :
  price_token Scenarios.tables "Rs. and INR but no digits" = None.
Proof. reflexivity. Qed.

(** C6.  With a key set and a response from the service, [web_search]
    returns an answer chosen from the results, scanned in order.  The price
    of a content is what the description names ([price_is]): the token found
    first for the first of the currencies rupee sign, Rs (with or without a
    full stop, with or without white space), INR, dollar sign that has a
    token in the content.
    - When a result holds a price and none before it does, the answer is
      that result's title, the price, its content and its source.
    - When no result holds a price, the answer is the title, content and
      source of the first usable result, without a price line.
    - When no result is usable, or there is none, the answer is the empty
      string.
    Every content holds a price or none, so the cases leave no sequence of
    results out. *)
Theorem web_search_selection w q log response :
  is_set (TAVILY_API_KEY w) = true ->
  tavily_search w log (q ++ " price in India") = Ok response ->
  exists answer,
    web_search w q log =
      ((log ++ [CallTavily (q ++ " price in India")])%list, Ok answer) /\
    (forall before c t u after p,
        results_of response = (before ++ ResDict c t u :: after)%list ->
        Forall (unpriced (unicode w)) before ->
        price_is (unicode w) (get c "") p ->
        answer = "Title: " ++ get t "Web Result" ++ NL ++ "Price: " ++ p ++ NL ++
                 "Details: " ++ get c "" ++ NL ++ "Source: " ++ get u "") /\
    (forall before c t u after,
        results_of response = (before ++ ResDict c t u :: after)%list ->
        Forall (unpriced (unicode w)) (results_of response) ->
        Forall (fun r => usable r = false) before ->
        answer = "Title: " ++ get t "Web Result" ++ NL ++
                 "Details: " ++ get c "" ++ NL ++ "Source: " ++ get u "") /\
    (Forall (fun r => usable r = false) (results_of response) -> answer = "") /\
    (forall content,
        (exists p, price_is (unicode w) content p) \/ no_price (unicode w) content).
Proof.
  intros Hkey Hresp. exists (select_result (unicode w) (results_of response)). split.
  - unfold web_search. rewrite Hkey. cbv [negb]. run_monad. now rewrite Hresp.
  - destruct (scan_from_start (unicode w) (results_of response)) as (H1 & H2 & H3).
    unfold select_result.
    assert (Hcases : forall content,
      (exists p, price_is (unicode w) content p) \/ no_price (unicode w) content).
    { intros content. destruct (price_token (unicode w) content) as [p|] eqn:E.
      - left. exists p. now apply price_token_spec.
      - right. now apply price_token_none. }
    destruct (results_of response) as [|r rs] eqn:E.
    + split; [|split; [|split]]; auto;
        intros [|? ?] ? ? ? ? ? H; discriminate.
    + split; [|split; [|split]]; auto;
        intros; first [eapply H1; eauto; fail | eapply H2; eauto].
Qed.

(** C6, witness.  Of three results the first is no dict, the second has no
    price, the third has a dollar price before a price in Rs written without
    a full stop: the Rs price is taken.  A price whose blank is a no-break
    space is recognised as well. *)
Lemma web_search_selection_witness :
  snd (web_search
         (Scenarios.world "unused" [] (Some "key") (RespDict (Some Scenarios.three_results)))
         "iPhone 15" []) =
    Ok ("Title: Web Result" ++ NL ++ "Price: Rs 64,900" ++ NL ++
        "Details: From $799 abroad, Rs 64,900 in India" ++ NL ++ "Source: http://b") /\
  snd (web_search
         (Scenarios.world "unused" [] (Some "key") (RespDict (Some Scenarios.spaced_result)))
         "iPhone 15" []) =
    Ok ("Title: Shop" ++ NL ++ "Price: Rs." ++ Scenarios.no_break_space ++ "64,900" ++ NL ++
        "Details: Rs." ++ Scenarios.no_break_space ++ "64,900 today" ++ NL ++
        "Source: http://c").
Proof.
  split.
  - destruct (web_search_selection
                (Scenarios.world "unused" [] (Some "key")
                   (RespDict (Some Scenarios.three_results)))
                "iPhone 15" [] (RespDict (Some Scenarios.three_results))
                eq_refl eq_refl)
      as (answer & E & H1 & _).
    rewrite E. cbv [snd]. f_equal.
    apply (H1 [ResOther;
               ResDict (Some "The new iPhone 15 is out") (Some "Launch") (Some "http://a")]
              (Some "From $799 abroad, Rs 64,900 in India") None (Some "http://b") []
              "Rs 64,900" eq_refl).
    + constructor; [exact I|]. constructor; [|constructor].
      apply price_token_none. reflexivity.
    + apply price_token_spec. reflexivity.
  - destruct (web_search_selection
                (Scenarios.world "unused" [] (Some "key")
                   (RespDict (Some Scenarios.spaced_result)))
                "iPhone 15" [] (RespDict (Some Scenarios.spaced_result))
                eq_refl eq_refl)
      as (answer & E & H1 & _).
    rewrite E. cbv [snd]. f_equal.
    apply (H1 [] (Some ("Rs." ++ Scenarios.no_break_space ++ "64,900 today"))
              (Some "Shop") (Some "http://c") []
              ("Rs." ++ Scenarios.no_break_space ++ "64,900") eq_refl).
    + constructor.
    + apply price_token_spec. reflexivity.
Defined.

(** C8, counterexample: without a key and with an empty index, the run of
    [agentic_rag_workflow] on "iPhone price" visits Assistant, Retriever and
    WebSearch and returns; the Generator does not run. *)
Lemma web_search_ends_run_counterexample :
  banners (fst (run (Scenarios.world "unused" [] None Scenarios.no_response)
                  "iPhone price" [])) =
    ["--- CALL ASSISTANT ---"; "--- RETRIEVER ---"; "--- WEB SEARCH ---"] /\
  printed "--- GENERATE ---"
    (fst (run (Scenarios.world "unused" [] None Scenarios.no_response)
            "iPhone price" [])) = false /\
  snd (run (Scenarios.world "unused" [] None Scenarios.no_response) "iPhone price" []) =
    Ok ("[Source: Web Search]" ++ NL ++ "No price information found online for iPhone price.").
Proof. vm_compute. repeat split. Qed.

(** C10, witness: the configuration after the Retriever step. *)
Lemma rewrite_path_unreachable_witness :
  printed "--- REWRITE ---"
    (fst (run (Scenarios.world "unused" [] None Scenarios.no_response)
            "iPhone price" [])) = false.
Proof.
  refine (proj2 (proj2 (proj2 (proj2 (proj2
           (rewrite_path_unreachable
              (Scenarios.world "unused" [] None Scenarios.no_response)
              "iPhone price" (To WebSearch)
              {| messages := [HumanMessage "iPhone price"; HumanMessage "TOOL: retriever";
                              HumanMessage "TOOL: websearch";
                              HumanMessage "iPhone price"] |}
              [Print "--- CALL ASSISTANT ---"; Print "--- RETRIEVER ---";
               CallVectorDB "iPhone price"] _)))))).
  eapply reach_step; [eapply reach_step; [apply reach_start|]|]; cbv; reflexivity.
Defined.

End AgenticRagFacts.

(** ** [agentic_workflow_with_mcp_websearch.py]: properties *)

Module McpFacts.
Import Text Effects Graph Logic Observe EffectFacts GraphFacts TextFacts ObserveFacts McpWorkflow.
Open Scope monad_scope.

(** *** The retry counter *)

(** Only [_rewrite] writes [retry_count], and only below the ceiling, where
    it writes the successor. *)
Lemma node_writes_count w n s log log1 upd :
  node_fn w n s log = (log1, Ok upd) ->
  upd_retry_count upd = None \/
  (n = Rewriter /\ (retry_count s < 2)%Z /\
   upd_retry_count upd = Some (retry_count s + 1)%Z).
Proof.
  destruct n; simpl;
    unfold _ai_assistant, _vector_retriever, _generate, _rewrite, _web_search, via_mcp,
      only_messages;
    run_monad; intros H; split_matches; simpl; auto.
  right. split; [reflexivity|]. split; [|reflexivity].
  match goal with
  | H : (_ >=? _)%Z = false |- _ => rewrite Z.geb_leb in H; apply Z.leb_gt in H; exact H
  end.
Qed.

Lemma superstep_count w n s log log' t' s' :
  superstep (node_fn w) reduce edge n s log = (log', Ok (t', s')) ->
  (retry_count s <= 2)%Z -> (retry_count s' <= 2)%Z.
Proof.
  intros H Hs. apply superstep_inv in H. destruct H as (log1 & upd & Hn & -> & _).
  apply node_writes_count in Hn. unfold reduce. simpl.
  destruct Hn as [-> | (_ & Hlt & ->)]; [assumption | lia].
Qed.

Lemma superstep_first w n s log log' t' s' q :
  superstep (node_fn w) reduce edge n s log = (log', Ok (t', s')) ->
  first_content (messages s) = Ok q -> first_content (messages s') = Ok q.
Proof.
  intros H Hs. apply superstep_inv in H. destruct H as (log1 & upd & _ & -> & _).
  unfold reduce, add_messages. simpl. now apply first_content_app.
Qed.

Lemma reachable_invariant w q r0 c :
  (r0 <= 2)%Z ->
  reachable_from w {| messages := [HumanMessage q]; retry_count := r0 |} c ->
  (retry_count (snd (fst c)) <= 2)%Z /\
  first_content (messages (snd (fst c))) = Ok q.
Proof.
  intros H0. induction 1 as [|n s log t' s' log' Hr [IH1 IH2] Hs]; simpl in *.
  - auto.
  - split; [eapply superstep_count | eapply superstep_first]; eauto.
Qed.

(** *** The Rewriter and what follows it *)

Lemma rewrite_below_ceiling w s log log1 upd :
  (retry_count s < 2)%Z ->
  _rewrite w s log = (log1, Ok upd) ->
  upd_retry_count upd = Some (retry_count s + 1)%Z /\
  exists question,
    first_content (messages s) = Ok question /\
    log1 = (log ++ [Print "--- REWRITE ---"; CallLLM (rewrite_prompt question)])%list.
Proof.
  intros Hlt. unfold _rewrite.
  assert (E : (retry_count s >=? 2)%Z = false)
    by (rewrite Z.geb_leb; now apply Z.leb_gt).
  rewrite E. run_monad. intros H. split_matches. simpl. split; [reflexivity|].
  eexists. split; [reflexivity|]. now rewrite <- app_assoc.
Qed.

Lemma rewrite_at_ceiling w s log original :
  (retry_count s >= 2)%Z ->
  first_content (messages s) = Ok original ->
  superstep (node_fn w) reduce edge Rewriter s log =
    ((log ++ [Print "--- REWRITE ---"])%list,
     Ok (To WebSearch,
         {| messages := (messages s ++ [HumanMessage original])%list;
            retry_count := retry_count s |})).
Proof.
  intros Hge Hq.
  assert (E : (retry_count s >=? 2)%Z = true)
    by (rewrite Z.geb_leb; apply Z.leb_le; lia).
  apply superstep_ok with (log1 := (log ++ [Print "--- REWRITE ---"])%list)
                          (upd := only_messages [HumanMessage original]);
    [|reflexivity].
  cbv [node_fn]. unfold _rewrite. rewrite E. run_monad. now rewrite Hq.
Qed.

(** [via_mcp] never raises and prints nothing. *)
Lemma via_mcp_returns w tool_name default query log :
  exists evs r,
    via_mcp w tool_name default query log = ((log ++ evs)%list, Ok r) /\
    banners evs = [].
Proof.
  unfold via_mcp.
  destruct (mcp_enabled w && _).
  - destruct (find _ (mcp_tools w)) as [tool|].
    + run_monad. destruct (ainvoke tool log query).
      * exists [CallTool tool_name query]. eexists. split; reflexivity.
      * exists [CallTool tool_name query]. eexists. split; reflexivity.
    + exists []. eexists. unfold ret. rewrite app_nil_r. split; reflexivity.
  - exists []. eexists. unfold ret. rewrite app_nil_r. split; reflexivity.
Qed.

(** After the WebSearch node, whatever it found, the Generator is next. *)
Lemma web_search_then_generator w s log original :
  first_content (messages s) = Ok original ->
  exists evs context,
    superstep (node_fn w) reduce edge WebSearch s log =
      ((log ++ [Print "--- WEB SEARCH (MCP/Fallback) ---"] ++ evs)%list,
       Ok (To Generator,
           {| messages := (messages s ++ [HumanMessage context])%list;
              retry_count := retry_count s |})) /\
    banners evs = [].
Proof.
  intros Hq.
  destruct (via_mcp_returns w "web_search" "No web search data found" original
              (log ++ [Print "--- WEB SEARCH (MCP/Fallback) ---"])%list)
    as (evs & r & E & B).
  exists evs.
  exists (match r with Some context => context | None => no_web_search_message original end).
  split; [|exact B].
  rewrite app_assoc.
  apply superstep_ok with
    (log1 := ((log ++ [Print "--- WEB SEARCH (MCP/Fallback) ---"]) ++ evs)%list)
    (upd := only_messages
              [HumanMessage (match r with
                             | Some context => context
                             | None => no_web_search_message original
                             end)]);
    [|reflexivity].
  cbv [node_fn]. unfold _web_search.
  rewrite (bind_ok _ _ _ (log ++ [Print "--- WEB SEARCH (MCP/Fallback) ---"])%list tt eq_refl).
  rewrite (bind_ok _ _ _ (log ++ [Print "--- WEB SEARCH (MCP/Fallback) ---"])%list original)
    by (unfold lift; now rewrite Hq).
  rewrite (bind_ok _ _ _ _ _ E). now destruct r.
Qed.

(** The Generator puts the context to the model and the run ends, with the
    model's answer or with the exception the model raised. *)
Lemma generator_then_end w s log fuel question docs :
  first_content (messages s) = Ok question ->
  last_content (messages s) = Ok docs ->
  exec (node_fn w) reduce edge (S fuel) (To Generator) s log =
    ((log ++ [Print "--- GENERATE ---"; CallLLM (product_bot_prompt w docs question)])%list,
     match llm w (log ++ [Print "--- GENERATE ---"])%list
                 (product_bot_prompt w docs question) with
     | Ok response =>
         Ok {| messages := (messages s ++ [HumanMessage response])%list;
               retry_count := retry_count s |}
     | Raise e => Raise e
     end).
Proof.
  intros Hq Hd. rewrite exec_S. unfold superstep. cbv [node_fn edge].
  unfold _generate. run_monad. rewrite Hq, Hd.
  change [Print "--- GENERATE ---"; CallLLM (product_bot_prompt w docs question)]
    with ([Print "--- GENERATE ---"] ++ [CallLLM (product_bot_prompt w docs question)])%list.
  rewrite app_assoc.
  destruct (llm w _ _); [|reflexivity].
  cbv [fst snd]. now rewrite exec_END.
Qed.

(** From the Rewriter at the ceiling the run goes through WebSearch and the
    Generator to the end, and the model is asked once, by the Generator. *)
Lemma run_from_ceiling w s log fuel original :
  (retry_count s >= 2)%Z ->
  first_content (messages s) = Ok original ->
  banners (fst (exec (node_fn w) reduce edge (3 + fuel) (To Rewriter) s log)) =
    (banners log ++
     ["--- REWRITE ---"; "--- WEB SEARCH (MCP/Fallback) ---"; "--- GENERATE ---"])%list.
Proof.
  intros Hge Hq. change (3 + fuel) with (S (S (S fuel))).
  rewrite exec_S, (rewrite_at_ceiling w s log original Hge Hq). cbv [fst snd].
  rewrite exec_S.
  destruct (web_search_then_generator w
              {| messages := (messages s ++ [HumanMessage original])%list;
                 retry_count := retry_count s |}
              (log ++ [Print "--- REWRITE ---"])%list original)
    as (evs & context & E & B); [now apply first_content_app|].
  rewrite E. cbv [fst snd messages retry_count].
  rewrite (generator_then_end w _ _ fuel original context);
    [| cbv [messages]; now apply first_content_app, first_content_app
     | cbv [messages]; apply last_content_snoc ].
  cbv [fst]. rewrite !banners_app, B. cbn [banners]. rewrite <- !app_assoc. reflexivity.
Qed.

(** C1.  In a run of the MCP workflow started with a counter at most 2 (a
    run started by [run] has 0), the counter of every configuration is at
    most 2.  A pass of [_rewrite] below the ceiling writes the counter plus
    one.  At the ceiling [_rewrite] asks no model, adds the original query
    (the content of the first message) as a message, leaves the counter as it
    is, and the run goes on through WebSearch and the Generator to the end. *)
Theorem rewrite_ceiling w q r0 t s log :
  (r0 <= 2)%Z ->
  reachable_from w {| messages := [HumanMessage q]; retry_count := r0 |} (t, s, log) ->
  (retry_count s <= 2)%Z /\
  first_content (messages s) = Ok q /\
  (forall s0 log0 log1 upd,
      (retry_count s0 < 2)%Z ->
      _rewrite w s0 log0 = (log1, Ok upd) ->
      upd_retry_count upd = Some (retry_count s0 + 1)%Z) /\
  (forall s0 log0 original,
      (retry_count s0 >= 2)%Z ->
      first_content (messages s0) = Ok original ->
      superstep (node_fn w) reduce edge Rewriter s0 log0 =
        ((log0 ++ [Print "--- REWRITE ---"])%list,
         Ok (To WebSearch,
             {| messages := (messages s0 ++ [HumanMessage original])%list;
                retry_count := retry_count s0 |})) /\
      forall fuel,
        banners (fst (exec (node_fn w) reduce edge (3 + fuel) (To Rewriter) s0 log0)) =
          (banners log0 ++
           ["--- REWRITE ---"; "--- WEB SEARCH (MCP/Fallback) ---"; "--- GENERATE ---"])%list).
Proof.
  intros H0 Hr.
  destruct (reachable_invariant w q r0 _ H0 Hr) as [H1 H2]. simpl in H1, H2.
  split; [exact H1|]. split; [exact H2|]. split.
  - intros s0 log0 log1 upd Hlt He.
    now destruct (rewrite_below_ceiling w s0 log0 log1 upd Hlt He).
  - intros s0 log0 original Hge Hq. split.
    + now apply rewrite_at_ceiling.
    + intros fuel. now apply run_from_ceiling with (original := original).
Qed.

(** C1, witness: with an empty index the grader asks for a rewrite; after
    the Rewriter the counter is 1. *)
Lemma rewrite_ceiling_witness :
  exists s log,
    reachable_from (Scenarios.world "iPhone 15 price India" [] None Scenarios.no_response)
      {| messages := [HumanMessage "iPhone price"]; retry_count := 0 |}
      (To WebSearch, s, log) /\
    retry_count s = 1%Z /\
    (retry_count s <= 2)%Z.
Proof.
  assert (R : reachable_from
                (Scenarios.world "iPhone 15 price India" [] None Scenarios.no_response)
                {| messages := [HumanMessage "iPhone price"]; retry_count := 0 |}
                (To WebSearch,
                 {| messages := [HumanMessage "iPhone price"; HumanMessage "TOOL: retriever";
                                 HumanMessage "No relevant documents found.";
                                 HumanMessage "iPhone 15 price India"];
                    retry_count := 1 |},
                 [Print "--- CALL ASSISTANT ---"; Print "--- RETRIEVER (MCP/Fallback) ---";
                  CallVectorDB "iPhone price"; Print "--- GRADER ---"; Print "--- REWRITE ---";
                  CallLLM (rewrite_prompt "iPhone price")])).
  { eapply reach_step;
      [eapply reach_step; [eapply reach_step; [apply reach_start|]|]|];
      cbv; reflexivity. }
  eexists. eexists. split; [exact R|]. split; [reflexivity|].
  apply (rewrite_ceiling _ "iPhone price" 0%Z _ _ _ ltac:(lia) R).
Defined.

(** C8, as amended.  In the MCP workflow the step of the WebSearch node,
    whatever the node found, leads to the Generator; in
    [agentic_rag_workflow] the edge out of WebSearch leads to [END]. *)
Theorem web_search_successor w s log original :
  first_content (messages s) = Ok original ->
  (exists log' s',
      superstep (node_fn w) reduce edge WebSearch s log = (log', Ok (To Generator, s'))) /\
  (forall s0 log0, edge WebSearch s0 log0 = (log0, Ok (To Generator))) /\
  (forall s0 log0, AgenticRag.edge AgenticRag.WebSearch s0 log0 = (log0, Ok END)).
Proof.
  intros Hq. repeat split.
  destruct (web_search_then_generator w s log original Hq) as (evs & context & E & _).
  eauto.
Qed.

(** C8, witness. *)
Lemma web_search_successor_witness :
  exists log' s',
    superstep (node_fn (Scenarios.world "unused" [] None Scenarios.no_response))
      reduce edge WebSearch
      {| messages := [HumanMessage "iPhone price"]; retry_count := 1 |} [] =
      (log', Ok (To Generator, s')).
Proof.
  apply (web_search_successor (Scenarios.world "unused" [] None Scenarios.no_response)
           {| messages := [HumanMessage "iPhone price"]; retry_count := 1 |} []
           "iPhone price" eq_refl).
Defined.

End McpFacts.

(** ** [normal_generation_workflow.py]: properties *)

Module NormalFacts.
Import Text Effects Graph Logic Observe EffectFacts GraphFacts ObserveFacts NormalWorkflow.
Open Scope monad_scope.

Lemma normal_node_emits w n s : emits any_event (node_fn w n s).
Proof.
  destruct n; simpl; unfold ai_assistant, vector_retriever, generate, rewrite;
    emits_tac; exact I.
Qed.

Lemma normal_edge_emits w n s : emits any_event (edge w n s).
Proof. destruct n; simpl; unfold grade_documents; emits_tac; exact I. Qed.

Lemma normal_exec_emits_any w fuel t s :
  emits any_event (exec (node_fn w) reduce (edge w) fuel t s).
Proof.
  apply exec_emits with (allowed := fun _ => True); auto.
  - intros; apply normal_node_emits.
  - intros; apply normal_edge_emits.
  - now destruct t.
Qed.

Lemma normal_assistant_routes w q :
  contains_any keywords (lower q) = true ->
  superstep (node_fn w) reduce (edge w) Assistant (input_of q) [] =
    ([Print "--- CALL ASSISTANT ---"],
     Ok (To Retriever,
         {| messages := [HumanMessage q; HumanMessage "TOOL: retriever"] |})).
Proof.
  intros Hk.
  apply superstep_ok with (log1 := [Print "--- CALL ASSISTANT ---"])
                          (upd := [HumanMessage "TOOL: retriever"]);
    [|reflexivity].
  cbv [node_fn]. unfold ai_assistant. run_monad.
  cbv [input_of messages last_content rev app content]. now rewrite Hk.
Qed.

(** C7, what the code does.  In [normal_generation_workflow], for a query
    with a product keyword, the Assistant appends the control message
    "TOOL: retriever" and [vector_retriever] reads [messages[-1]]: the
    vector index is asked for "TOOL: retriever", not for the query. *)
Theorem retriever_asks_control_message w q :
  contains_any keywords (lower q) = true ->
  exists rest,
    fst (app_invoke w (input_of q) []) =
      Print "--- CALL ASSISTANT ---" :: Print "--- RETRIEVER ---" ::
      CallVectorDB "TOOL: retriever" :: rest.
Proof.
  intros Hk.
  assert (S : starts (app_invoke w (input_of q)) []
                [Print "--- CALL ASSISTANT ---"; Print "--- RETRIEVER ---";
                 CallVectorDB "TOOL: retriever"]).
  { unfold app_invoke, invoke, recursion_limit.
    change (exec (node_fn w) reduce (edge w) 25 (To Assistant) (input_of q))
      with (bind (superstep (node_fn w) reduce (edge w) Assistant (input_of q))
                 (fun c => exec (node_fn w) reduce (edge w) 24 (fst c) (snd c))).
    eapply starts_bind_ok; [apply (normal_assistant_routes w q Hk)|].
    change (exec (node_fn w) reduce (edge w) 24 (To Retriever)
              {| messages := [HumanMessage q; HumanMessage "TOOL: retriever"] |})
      with (bind (superstep (node_fn w) reduce (edge w) Retriever
                    {| messages := [HumanMessage q; HumanMessage "TOOL: retriever"] |})
                 (fun c => exec (node_fn w) reduce (edge w) 23 (fst c) (snd c))).
    apply starts_bind_any; [|intros c; exact (normal_exec_emits_any w 23 (fst c) (snd c))].
    unfold superstep.
    apply starts_bind_any; [|intros ?; apply emits_bind; [apply normal_edge_emits | intros ?; apply emits_ret]].
    cbv [node_fn]. unfold vector_retriever.
    eapply starts_bind_ok; [reflexivity|].
    eapply starts_bind_ok; [reflexivity|].
    apply starts_bind_any; [|intros ?; emits_tac].
    apply (starts_call (CallVectorDB "TOOL: retriever") _
             [Print "--- CALL ASSISTANT ---"; Print "--- RETRIEVER ---"]). }
  destruct S as (evs & E). now exists evs.
Qed.

(** C7, witness: the failing input. *)
Lemma retriever_asks_control_message_witness :
  exists rest,
    vector_db_queries
      (fst (app_invoke (Scenarios.world "yes" [Scenarios.iphone] None Scenarios.no_response)
              (input_of "What is the price of iPhone 15?") [])) =
      "TOOL: retriever" :: rest.
Proof.
  destruct (retriever_asks_control_message
              (Scenarios.world "yes" [Scenarios.iphone] None Scenarios.no_response)
              "What is the price of iPhone 15?" eq_refl) as (rest & E).
  rewrite E. exists (vector_db_queries rest). reflexivity.
Defined.

End NormalFacts.

(** * Further properties of the code *)

(** ** Normalisation and the price patterns *)

Module NormalizeFacts.
Import Text TextFacts.

Lemma between_spec lo hi c :
  between lo hi c = true <-> lo <= code c <= hi.
Proof.
  unfold between. rewrite andb_true_iff, !Nat.leb_le. tauto.
Qed.

Lemma code_lower_char c :
  code (lower_char c) = if is_upper c then code c + 32 else code c.
Proof.
  unfold lower_char. destruct (is_upper c) eqn:E; [|reflexivity].
  apply between_spec in E. unfold code in *.
  apply nat_ascii_embedding. lia.
Qed.

Lemma is_upper_lower_char c : is_upper (lower_char c) = false.
Proof.
  destruct (is_upper (lower_char c)) eqn:E; [|reflexivity].
  apply between_spec in E. rewrite code_lower_char in E.
  destruct (is_upper c) eqn:Eu; [apply between_spec in Eu; lia|].
  assert (between 65 90 c = true) by (apply between_spec; lia).
  unfold is_upper in Eu. congruence.
Qed.

Lemma lower_char_idempotent c : lower_char (lower_char c) = lower_char c.
Proof. unfold lower_char at 1. now rewrite is_upper_lower_char. Qed.

Lemma is_alnum_lower_char c : is_alnum (lower_char c) = is_alnum c.
Proof.
  unfold is_alnum, is_lower, is_upper, is_digit.
  pose proof (code_lower_char c) as Hc.
  destruct (is_upper c) eqn:Eu.
  - apply between_spec in Eu.
    assert (H1 : between 97 122 (lower_char c) = true) by (apply between_spec; lia).
    assert (H2 : between 65 90 c = true) by (apply between_spec; lia).
    rewrite H1, H2. now rewrite orb_true_r.
  - unfold between. now rewrite Hc.
Qed.

Lemma lower_idempotent s : lower (lower s) = lower s.
Proof. induction s; simpl; [reflexivity|]. now rewrite lower_char_idempotent, IHs. Qed.

Lemma keep_alnum_lower s : keep_alnum (lower s) = lower (keep_alnum s).
Proof.
  induction s as [|c s IH]; simpl; [reflexivity|].
  rewrite is_alnum_lower_char. destruct (is_alnum c); simpl; now rewrite IH.
Qed.

Lemma keep_alnum_idempotent s : keep_alnum (keep_alnum s) = keep_alnum s.
Proof.
  induction s as [|c s IH]; simpl; [reflexivity|].
  destruct (is_alnum c) eqn:E; simpl; [rewrite E; now rewrite IH | exact IH].
Qed.

Lemma lower_app a b : lower (a ++ b) = lower a ++ lower b.
Proof. induction a; simpl; congruence. Qed.

(** X1.  The normalisation of the echo guard ignores the case of ASCII
    letters and surrounding white space, distributes over concatenation, and
    applying it twice changes nothing.  (Outside ASCII [str.lower] can bring
    in a letter that was not there, as for the Kelvin sign, so the first
    part is stated for ASCII text.) *)
Theorem normalize_insensitive s t :
  (is_ascii s = true -> normalize (lower s) = normalize s) /\
  normalize (strip s) = normalize s /\
  normalize (s ++ t) = normalize s ++ normalize t /\
  normalize (normalize s) = normalize s.
Proof.
  rewrite !normalize_eq. repeat split.
  - intros _. now rewrite keep_alnum_lower, lower_idempotent.
  - now rewrite keep_alnum_strip.
  - now rewrite keep_alnum_app, lower_app.
  - now rewrite keep_alnum_lower, keep_alnum_idempotent, lower_idempotent.
Qed.

(** X1, witness. *)
Lemma normalize_insensitive_witness :
  normalize (lower " What is the PRICE of iPhone 15? ") = "whatisthepriceofiphone15".
Proof.
  rewrite (proj1 (normalize_insensitive " What is the PRICE of iPhone 15? " "") eq_refl).
  reflexivity.
Defined.

End NormalizeFacts.

Module RegexFacts.
Import Text Regex AgenticRag TextFacts PatternFacts.

(** A token begins with the marker of its currency. *)
Lemma token_marker u k tok :
  token u k tok ->
  (prefix "₹" (text_of tok) || prefix "Rs" (text_of tok) ||
   prefix "INR" (text_of tok) || prefix "$" (text_of tok)) = true.
Proof.
  destruct 1 as [ds D | ws ds B D | ws ds B D | ws ds B D | ds D].
  - change (text_of ("₹" :: ds)) with ("₹" ++ text_of ds). now rewrite prefix_app.
  - change (text_of ("R" :: "s" :: ws ++ ds)) with ("Rs" ++ text_of (ws ++ ds)).
    rewrite (prefix_app "Rs"). now rewrite !orb_true_r.
  - change (text_of ("R" :: "s" :: "." :: ws ++ ds))
      with ("Rs" ++ text_of ("." :: ws ++ ds)).
    rewrite (prefix_app "Rs"). now rewrite !orb_true_r.
  - change (text_of ("I" :: "N" :: "R" :: ws ++ ds)) with ("INR" ++ text_of (ws ++ ds)).
    rewrite (prefix_app "INR"). now rewrite !orb_true_r.
  - change (text_of ("$" :: ds)) with ("$" ++ text_of ds).
    rewrite (prefix_app "$"). now rewrite !orb_true_r.
Qed.

(** The characters of a piece of a text make a piece of the text. *)
Lemma contains_chars content before tok after :
  chars content = (before ++ tok ++ after)%list ->
  contains (text_of tok) content = true.
Proof.
  intros E. rewrite <- (text_of_chars content), E, !text_of_app.
  apply contains_app_r, contains_self_app.
Qed.

(** X2.  A price token found in a text is a piece of that text, and it
    begins with one of the four currency markers.  This holds whatever the
    character tables are. *)
Theorem price_token_quotes_content u content p :
  price_token u content = Some p ->
  contains p content = true /\
  (prefix "₹" p || prefix "Rs" p || prefix "INR" p || prefix "$" p) = true.
Proof.
  intros H. apply price_token_stands in H.
  destruct H as (k & before & tok & after & -> & E & T). split.
  - exact (contains_chars content before tok after E).
  - exact (token_marker u k tok T).
Qed.

(** X2, witness. *)
Lemma price_token_quotes_content_witness :
  contains "Rs. 64,900" "From $799 abroad, Rs. 64,900 in India" = true.
Proof.
  apply (price_token_quotes_content Scenarios.tables
           "From $799 abroad, Rs. 64,900 in India" "Rs. 64,900").
  reflexivity.
Defined.

End RegexFacts.

(** ** Runs under an invariant of the state *)

Module GraphMore.
Import Effects Graph Logic EffectFacts GraphFacts.
Open Scope monad_scope.

Lemma emits_bind_known {A B} (P : Event -> Prop) (a : A) (k : A -> M B) :
  emits P (k a) -> emits P (bind (lift (Ok a)) k).
Proof. intros H log. exact (H log). Qed.

Lemma contents_of_nonempty (ms : list Message) :
  ms <> [] ->
  (exists q, first_content ms = Ok q) /\ (exists l, last_content ms = Ok l).
Proof.
  intros H. split.
  - destruct ms as [|m ms]; [contradiction|]. simpl. eauto.
  - destruct (exists_last H) as (ms' & m & ->). rewrite last_content_snoc. eauto.
Qed.

Section Guarded.
Context {Node State Update : Type}.
Variable node_fn : Node -> State -> M Update.
Variable reduce : State -> Update -> State.
Variable edge : Node -> State -> M (Target Node).
Variable P : Event -> Prop.
Variable inv : State -> Prop.
Hypothesis Hnode : forall n s, inv s -> emits P (node_fn n s).
Hypothesis Hedge : forall n s, inv s -> emits P (edge n s).
Hypothesis Hinv : forall n s log log1 upd,
  inv s -> node_fn n s log = (log1, Ok upd) -> inv (reduce s upd).

Lemma exec_emits_guarded fuel : forall t s,
  inv s -> emits P (exec node_fn reduce edge fuel t s).
Proof.
  induction fuel as [|fuel IH]; intros [n|] s Hs;
    [apply (emits_lift P) | apply (emits_ret P) | | apply (emits_ret P)].
  intros log. rewrite exec_S. unfold superstep, bind.
  destruct (Hnode n s Hs log) as (evs & E & F).
  destruct (node_fn n s log) as [log1 [upd|e]] eqn:En; simpl in E; subst log1;
    [|exists evs; auto].
  pose proof (Hinv _ _ _ _ _ Hs En) as Hs'.
  destruct (Hedge n _ Hs' (log ++ evs)%list) as (evs1 & E1 & F1).
  destruct (edge n (reduce s upd) (log ++ evs)%list) as [log2 [t|e]] eqn:Ee;
    simpl in E1; subst log2.
  - unfold ret. cbv beta iota. cbn [fst snd].
    destruct (IH t _ Hs' ((log ++ evs) ++ evs1)%list) as (evs2 & E2 & F2).
    exists (evs ++ evs1 ++ evs2)%list. rewrite E2, !app_assoc. split; [reflexivity|].
    rewrite <- app_assoc. repeat (apply Forall_app; split); auto.
  - exists (evs ++ evs1)%list. cbn [fst]. rewrite app_assoc. split; [reflexivity|].
    apply Forall_app; auto.
Qed.

End Guarded.

End GraphMore.

(** ** [agentic_rag_workflow.py]: termination, errors, answers *)

Module AgenticRagMore.
Import Text Regex Effects Graph Logic Observe EffectFacts GraphFacts TextFacts ObserveFacts.
Import Discipline GraphMore AgenticRag AgenticRagFacts.
Open Scope monad_scope.

(** Where a step can lead. *)
Lemma superstep_targets w n s log log' t' s' :
  superstep (node_fn w) reduce edge n s log = (log', Ok (t', s')) ->
  match n with
  | Assistant => t' = To Retriever \/ t' = END
  | Retriever => t' = To WebSearch \/ t' = To Generator
  | WebSearch => t' = END
  | Generator => t' = END
  | Rewriter => t' = To Assistant
  end.
Proof.
  intros H. apply superstep_inv in H. destruct H as (log1 & upd & _ & _ & He).
  destruct n; cbv [edge] in He.
  - unfold bind, lift, ret in He. destruct (assistant_route s') as [[l|]|e];
      inversion He; auto.
  - unfold lift in He.
    destruct (retriever_route_labels s') as [E | E]; rewrite E in He;
      inversion He; auto.
  - inversion He; auto.
  - inversion He; auto.
  - inversion He; auto.
Qed.

Lemma exec_leaf w n s log k :
  n = WebSearch \/ n = Generator ->
  exec (node_fn w) reduce edge (1 + k) (To n) s log =
  exec (node_fn w) reduce edge 1 (To n) s log.
Proof.
  intros Hn. change (1 + k) with (S k). rewrite !exec_S.
  destruct (superstep (node_fn w) reduce edge n s log) as [log' [[t' s']|e]] eqn:E;
    [|reflexivity].
  apply superstep_targets in E.
  assert (t' = END) by (destruct Hn; subst n; exact E). subst t'.
  cbv [fst snd]. now rewrite !exec_END.
Qed.

Lemma exec_retriever w s log k :
  exec (node_fn w) reduce edge (2 + k) (To Retriever) s log =
  exec (node_fn w) reduce edge 2 (To Retriever) s log.
Proof.
  change (2 + k) with (S (1 + k)). rewrite !exec_S.
  destruct (superstep (node_fn w) reduce edge Retriever s log) as [log' [[t' s']|e]] eqn:E;
    [|reflexivity].
  apply superstep_targets in E. cbv [fst snd].
  destruct E; subst t'; apply exec_leaf; auto.
Qed.

Lemma invoke_in_three_steps w s log :
  app_invoke w s log = exec (node_fn w) reduce edge 3 (To Assistant) s log.
Proof.
  unfold app_invoke, invoke, recursion_limit.
  change 25 with (S (2 + 22)). rewrite !exec_S.
  destruct (superstep (node_fn w) reduce edge Assistant s log) as [log' [[t' s']|e]] eqn:E;
    [|reflexivity].
  apply superstep_targets in E. cbv [fst snd].
  destruct E; subst t'; [apply exec_retriever | now rewrite !exec_END].
Qed.

(** X3.  A run of [agentic_rag_workflow] ends within three supersteps:
    with any bound of at least three the graph leaves the same log and the
    same result as with the bound three, so the recursion limit of 25 is
    never what ends a run. *)
Theorem run_within_three_steps w s log k :
  exec (node_fn w) reduce edge (3 + k) (To Assistant) s log =
  exec (node_fn w) reduce edge 3 (To Assistant) s log /\
  app_invoke w s log = exec (node_fn w) reduce edge 3 (To Assistant) s log.
Proof.
  assert (G : forall j,
    exec (node_fn w) reduce edge (3 + j) (To Assistant) s log =
    exec (node_fn w) reduce edge 3 (To Assistant) s log).
  { intros j. change (3 + j) with (S (2 + j)). rewrite !exec_S.
    destruct (superstep (node_fn w) reduce edge Assistant s log) as [log' [[t' s']|e]] eqn:E;
      [|reflexivity].
    apply superstep_targets in E. cbv [fst snd].
    destruct E; subst t'; [apply exec_retriever | now rewrite !exec_END]. }
  split; [apply G | apply (G 22)].
Qed.

(** X4.  What [run] returns never normalises to the query: an answer
    that would is replaced, and the replacement does not normalise to the
    query either. *)
Theorem run_never_echoes w q log answer :
  snd (run w q log) = Ok answer -> normalize answer <> normalize q.
Proof.
  unfold run, bind, lift, ret.
  destruct (app_invoke w (input_of q) log) as [log' [result|e]]; [|discriminate].
  destruct (last_content (messages result)) as [a|e]; [|discriminate].
  destruct (String.eqb (normalize a) (normalize q)) eqn:E; simpl; intros H;
    inversion H; subst.
  - intros Hn. now apply (no_price_message_not_echo q (no_price_message q)).
  - now apply String.eqb_neq.
Qed.

(** X4, witness. *)
Lemma run_never_echoes_witness :
  normalize "No price information found online for hello." <> normalize "hello".
Proof.
  apply (run_never_echoes (Scenarios.world "Hello!" [] None Scenarios.no_response)
           "hello" []).
  reflexivity.
Defined.

(** *** What the services are asked *)

Ltac guarded_tac Hq :=
  unfold call_llm, call_vector_db;
  repeat first
    [ rewrite Hq; apply emits_bind_known
    | apply emits_bind; [|intros ?]
    | apply emits_ret
    | apply emits_lift
    | apply emits_print
    | apply emits_call
    | apply emits_attempt
    | match goal with
      | |- emits _ (if ?b then _ else _) => destruct b
      | |- emits _ (match ?x with _ => _ end) => destruct x
      end ].

Lemma node_requests w q n s :
  first_content (messages s) = Ok q -> emits (rag_request q) (node_fn w n s).
Proof.
  intros Hq. destruct n; cbv [node_fn];
    unfold _ai_assistant, _vector_retriever, _web_search_node, web_search, _generate,
      _rewrite;
    guarded_tac Hq; exact I || reflexivity.
Qed.

Lemma edge_requests q n s : emits (rag_request q) (edge n s).
Proof. destruct n; simpl; emits_tac. Qed.

(** X5.  In a run of [agentic_rag_workflow], whatever the thread holds
    and whatever the services answer, the vector index is only ever asked for
    the first message of the thread, the Tavily client only for that message
    followed by " price in India", and no MCP tool is called.  On a first run
    the first message is the query as given; on a thread that holds earlier
    messages it is the first query of the thread, not the query of the
    run. *)
Theorem run_requests w saved q :
  Forall (rag_request (first_query saved q)) (fst (run_on w saved q [])) /\
  Forall (rag_request q) (fst (run w q [])).
Proof.
  assert (E : forall saved,
    emits (rag_request (first_query saved q)) (run_on w saved q)).
  { intros sv. unfold run_on, app_invoke, invoke. apply emits_bind.
    - apply exec_emits_guarded
        with (inv := fun s => first_content (messages s) = Ok (first_query sv q)).
      + intros n s Hs. now apply node_requests.
      + intros n s _. apply edge_requests.
      + intros n s log log1 upd Hs _. unfold reduce, add_messages. simpl.
        now apply first_content_app.
      + apply resume_first.
    - intros result. emits_tac. }
  split.
  - destruct (E saved []) as (evs & -> & F). exact F.
  - destruct (E [] []) as (evs & H & F). rewrite run_on_nothing in H.
    rewrite H. exact F.
Qed.

(** *** The WebSearch node and exceptions *)


Lemma web_search_cases w q log :
  (is_set (TAVILY_API_KEY w) = false /\
   web_search w q log = (log, Ok "Web search failed: API key not set.")) \/
  (is_set (TAVILY_API_KEY w) = true /\
   exists e, tavily_search w log (q ++ " price in India") = Raise e /\
     web_search w q log =
       ((log ++ [CallTavily (q ++ " price in India")])%list,
        Ok ("Web search failed: " ++ e))) \/
  (is_set (TAVILY_API_KEY w) = true /\
   exists response, tavily_search w log (q ++ " price in India") = Ok response /\
     web_search w q log =
       ((log ++ [CallTavily (q ++ " price in India")])%list,
        Ok (select_result (unicode w) (results_of response)))).
Proof.
  unfold web_search. destruct (is_set (TAVILY_API_KEY w)); cbv [negb]; [|auto].
  right. run_monad.
  destruct (tavily_search w log (q ++ " price in India")) as [response|e] eqn:E.
  - right. split; [reflexivity|]. exists response. auto.
  - left. split; [reflexivity|]. exists e. auto.
Qed.

Lemma web_node_step w s log q :
  first_content (messages s) = Ok q ->
  exists evs context,
    superstep (node_fn w) reduce edge WebSearch s log =
      ((log ++ [Print "--- WEB SEARCH ---"] ++ evs)%list,
       Ok (END, {| messages :=
                     (messages s ++ [HumanMessage (web_indicator ++ NL ++ context)])%list |})) /\
    (evs = [] \/ evs = [CallTavily (q ++ " price in India")]).
Proof.
  intros Hq.
  assert (S : forall log1 text,
    web_search w q (log ++ [Print "--- WEB SEARCH ---"])%list = (log1, Ok text) ->
    superstep (node_fn w) reduce edge WebSearch s log =
      (log1, Ok (END, {| messages :=
         (messages s ++
          [HumanMessage (web_indicator ++ NL ++
             (if invalid_context q text then no_price_message q else text))])%list |}))).
  { intros log1 text Hw.
    apply superstep_ok with (log1 := log1)
      (upd := [HumanMessage (web_indicator ++ NL ++
                 (if invalid_context q text then no_price_message q else text))]);
      [|reflexivity].
    cbv [node_fn]. unfold _web_search_node.
    rewrite (bind_ok _ _ _ (log ++ [Print "--- WEB SEARCH ---"])%list tt eq_refl).
    rewrite (bind_ok _ _ _ (log ++ [Print "--- WEB SEARCH ---"])%list q)
      by (unfold lift; now rewrite Hq).
    now rewrite (bind_ok _ _ _ _ _ Hw). }
  destruct (web_search_cases w q (log ++ [Print "--- WEB SEARCH ---"])%list)
    as [[Hk Hw] | [[Hk (e & He & Hw)] | [Hk (response & Hr & Hw)]]].
  - exists []. eexists. rewrite app_nil_r. split; [apply (S _ _ Hw) | auto].
  - exists [CallTavily (q ++ " price in India")]. eexists. rewrite app_assoc.
    split; [apply (S _ _ Hw) | auto].
  - exists [CallTavily (q ++ " price in India")]. eexists. rewrite app_assoc.
    split; [apply (S _ _ Hw) | auto].
Qed.



(** *** Runs whose model and index answer *)

Lemma node_answers w n s log :
  answers w -> messages s <> [] ->
  exists log1 upd, node_fn w n s log = (log1, Ok upd) /\ upd <> [].
Proof.
  intros [Hllm Hdb] Hs.
  destruct (contents_of_nonempty _ Hs) as [(q & Hq) (l & Hl)].
  destruct n; cbv [node_fn].
  - unfold _ai_assistant. run_monad. rewrite Hl.
    destruct (contains_any keywords (lower l)).
    + eexists. eexists. split; [reflexivity | discriminate].
    + destruct (Hllm (log ++ [Print "--- CALL ASSISTANT ---"])%list (assistant_prompt l))
        as (r & ->).
      eexists. eexists. split; [reflexivity | discriminate].
  - unfold _vector_retriever. run_monad. rewrite Hq.
    destruct (Hdb (log ++ [Print "--- RETRIEVER ---"])%list q) as (docs & ->).
    destruct docs; [|destruct (contains_any apology_phrases _)];
      eexists; eexists; (split; [reflexivity | discriminate]).
  - destruct (web_node_step w s log q Hq) as (evs & context & E & _).
    apply superstep_inv in E. destruct E as (log1 & upd & En & Er & _).
    exists log1, upd. split; [exact En|].
    intros ->. unfold reduce, add_messages in Er. inversion Er as [Hm].
    rewrite app_nil_r in Hm.
    apply (f_equal (@List.length _)) in Hm. rewrite length_app in Hm. simpl in Hm. lia.
  - unfold _generate. run_monad. rewrite Hq, Hl.
    match goal with
    | |- context [llm w ?lg ?p] => destruct (Hllm lg p) as (r & ->)
    end.
    destruct (contains_any apology_phrases _);
      eexists; eexists; (split; [reflexivity | discriminate]).
  - unfold _rewrite. run_monad. rewrite Hq.
    match goal with
    | |- context [llm w ?lg ?p] => destruct (Hllm lg p) as (r & ->)
    end.
    eexists. eexists. split; [reflexivity | discriminate].
Qed.

Lemma edge_answers n s log :
  messages s <> [] -> exists t, edge n s log = (log, Ok t).
Proof.
  intros Hs. destruct (contents_of_nonempty _ Hs) as [_ (l & Hl)].
  destruct n; cbv [edge]; try (eexists; reflexivity).
  - unfold assistant_route. run_monad. rewrite Hl. eexists. reflexivity.
  - unfold lift. destruct (retriever_route_labels s) as [-> | ->]; eexists; reflexivity.
Qed.

Lemma step_answers w n s log :
  answers w -> messages s <> [] ->
  exists log' t' s',
    superstep (node_fn w) reduce edge n s log = (log', Ok (t', s')) /\ messages s' <> [].
Proof.
  intros Hw Hs.
  destruct (node_answers w n s log Hw Hs) as (log1 & upd & En & Hu).
  assert (Hs' : messages (reduce s upd) <> []).
  { unfold reduce, add_messages. simpl. intros H. apply app_eq_nil in H. tauto. }
  destruct (edge_answers n (reduce s upd) log1 Hs') as (t & Ee).
  exists log1, t, (reduce s upd). split; [|exact Hs'].
  now apply superstep_ok with (log1 := log1).
Qed.

Lemma exec_leaf_answers w n s log :
  answers w -> messages s <> [] -> n = WebSearch \/ n = Generator ->
  exists log' s', exec (node_fn w) reduce edge 1 (To n) s log = (log', Ok s') /\
                  messages s' <> [].
Proof.
  intros Hw Hs Hn. rewrite exec_S.
  destruct (step_answers w n s log Hw Hs) as (log' & t' & s' & E & Hs').
  rewrite E. pose proof (superstep_targets _ _ _ _ _ _ _ E) as Ht.
  assert (t' = END) by (destruct Hn; subst n; exact Ht). subst t'.
  cbv [fst snd]. rewrite exec_END. eauto.
Qed.

(** X7.  When the model and the index answer every request, [run]
    returns an answer, whatever the Tavily client does: only an exception
    of the model or of the index can make a run raise. *)
Theorem run_answers w q :
  answers w -> exists log' answer, run w q [] = (log', Ok answer).
Proof.
  intros Hw.
  assert (G : exists log' s',
    app_invoke w (input_of q) [] = (log', Ok s') /\ messages s' <> []).
  { rewrite invoke_in_three_steps, exec_S.
    destruct (step_answers w Assistant (input_of q) [] Hw) as (l1 & t1 & s1 & E1 & H1);
      [discriminate|].
    rewrite E1. cbv [fst snd].
    destruct (superstep_targets _ _ _ _ _ _ _ E1); subst t1;
      [|rewrite exec_END; eauto].
    rewrite exec_S.
    destruct (step_answers w Retriever s1 l1 Hw H1) as (l2 & t2 & s2 & E2 & H2).
    rewrite E2. cbv [fst snd].
    destruct (superstep_targets _ _ _ _ _ _ _ E2); subst t2;
      apply exec_leaf_answers; auto. }
  destruct G as (log' & s' & E & Hs').
  destruct (contents_of_nonempty _ Hs') as [_ (l & Hl)].
  unfold run. rewrite (bind_ok _ _ _ _ _ E). run_monad. rewrite Hl.
  destruct (String.eqb (normalize l) (normalize q)); eauto.
Qed.

(** X7, witness: the model and the index answer, the Tavily client
    raises. *)
Lemma run_answers_witness :
  exists log' answer,
    run {| llm := fun _ _ => Ok "It costs 64900.";
           vector_db := fun _ _ => Ok [];
           TAVILY_API_KEY := Some "key";
           tavily_search := fun _ _ => Raise "connection refused";
           product_bot_prompt := fun c q => c ++ q;
           mcp_enabled := false;
           mcp_tools := [];
           unicode := Scenarios.tables |} "iPhone price" [] = (log', Ok answer).
Proof.
  apply run_answers. split; intros; eexists; reflexivity.
Defined.

(** *** The context formatter *)




(** *** Whole runs: an answer from the index, an answer from the web *)

Lemma retriever_route_generator_on ms context :
  existsb (String.eqb "TOOL: websearch") (contents ms) = false ->
  retriever_route
    {| messages := (ms ++ [HumanMessage (database_indicator ++ NL ++ context)])%list |}
  = "generator".
Proof.
  intros H. unfold retriever_route, contents. cbv [messages].
  rewrite map_app, existsb_app. fold (contents ms). now rewrite H.
Qed.

(** Records without an apology phrase, on a state that holds no web-search
    marker: the Generator is next. *)
Lemma retriever_passes_records w s log q d docs :
  first_content (messages s) = Ok q ->
  existsb (String.eqb "TOOL: websearch") (contents (messages s)) = false ->
  vector_db w (log ++ [Print "--- RETRIEVER ---"])%list q = Ok (d :: docs) ->
  contains_any apology_phrases (lower (format_docs (d :: docs))) = false ->
  superstep (node_fn w) reduce edge Retriever s log =
    ((log ++ [Print "--- RETRIEVER ---"; CallVectorDB q])%list,
     Ok (To Generator,
         reduce s [HumanMessage (database_indicator ++ NL ++ format_docs (d :: docs))])).
Proof.
  intros Hq Hm Hd Ha.
  apply superstep_ok with
    (log1 := (log ++ [Print "--- RETRIEVER ---"; CallVectorDB q])%list).
  - cbv [node_fn]. unfold _vector_retriever. run_monad. rewrite Hq, Hd, Ha.
    change [Print "--- RETRIEVER ---"; CallVectorDB q]
      with ([Print "--- RETRIEVER ---"] ++ [CallVectorDB q])%list.
    now rewrite app_assoc.
  - cbv [edge]. unfold reduce, add_messages. unfold lift.
    now rewrite (retriever_route_generator_on (messages s) (format_docs (d :: docs)) Hm).
Qed.

(** The Generator on a context from the index, when the model's answer
    holds no apology phrase. *)
Lemma generator_answers w s log q context r :
  first_content (messages s) = Ok q ->
  last_content (messages s) = Ok (database_indicator ++ NL ++ context) ->
  llm w (log ++ [Print "--- GENERATE ---"])%list
      (product_bot_prompt w (lstrip context) q) = Ok r ->
  contains_any apology_phrases (lower (database_indicator ++ NL ++ r)) = false ->
  superstep (node_fn w) reduce edge Generator s log =
    ((log ++ [Print "--- GENERATE ---";
              CallLLM (product_bot_prompt w (lstrip context) q)])%list,
     Ok (END, reduce s [HumanMessage (database_indicator ++ NL ++ r)])).
Proof.
  intros Hq Hl Hr Ha.
  apply superstep_ok with
    (log1 := (log ++ [Print "--- GENERATE ---";
                      CallLLM (product_bot_prompt w (lstrip context) q)])%list);
    [|reflexivity].
  cbv [node_fn]. unfold _generate. run_monad. rewrite Hq, Hl.
  rewrite split_database_context. cbv [fst snd].
  rewrite Hr. change (truthy database_indicator) with true. cbv iota.
  rewrite Ha.
  change [Print "--- GENERATE ---"; CallLLM (product_bot_prompt w (lstrip context) q)]
    with ([Print "--- GENERATE ---"]
            ++ [CallLLM (product_bot_prompt w (lstrip context) q)])%list.
  now rewrite app_assoc.
Qed.

Lemma no_marker_after_assistant saved q :
  existsb (String.eqb "TOOL: websearch") (contents saved) = false ->
  contains_any keywords (lower q) = true ->
  existsb (String.eqb "TOOL: websearch")
    (contents (messages (reduce (resume saved q) [HumanMessage "TOOL: retriever"]))) = false.
Proof.
  intros Hs Hk. unfold reduce, add_messages. cbn [messages].
  rewrite resume_messages. unfold contents. rewrite !map_app, !existsb_app.
  fold (contents saved). rewrite Hs. cbn [map existsb content].
  now rewrite (keyword_not_websearch q Hk).
Qed.

(** X9.  An answer from the index.  The thread holds no web-search marker
    (as on a first run), the query has a product keyword, the index returns,
    for the first message of the thread, records whose formatted text holds
    no apology phrase, and the model's answer, with the database indicator in
    front, holds none either.  Then the run visits Assistant, Retriever and
    Generator, the model is given the formatted records (without the
    indicator) and the first message of the thread as the question, no web
    search takes place, and [run] returns the database indicator, a line
    break and the model's answer (unless that text normalises to the query,
    in which case the echo guard replaces it). *)
Theorem answer_from_index w saved q d docs r :
  existsb (String.eqb "TOOL: websearch") (contents saved) = false ->
  contains_any keywords (lower q) = true ->
  vector_db w [Print "--- CALL ASSISTANT ---"; Print "--- RETRIEVER ---"]
    (first_query saved q) = Ok (d :: docs) ->
  contains_any apology_phrases (lower (format_docs (d :: docs))) = false ->
  llm w [Print "--- CALL ASSISTANT ---"; Print "--- RETRIEVER ---";
         CallVectorDB (first_query saved q); Print "--- GENERATE ---"]
      (product_bot_prompt w (lstrip (format_docs (d :: docs))) (first_query saved q))
    = Ok r ->
  contains_any apology_phrases (lower ("[Source: Database]" ++ NL ++ r)) = false ->
  run_on w saved q [] =
    ([Print "--- CALL ASSISTANT ---"; Print "--- RETRIEVER ---";
      CallVectorDB (first_query saved q); Print "--- GENERATE ---";
      CallLLM (product_bot_prompt w (lstrip (format_docs (d :: docs)))
                 (first_query saved q))],
     Ok (if String.eqb (normalize ("[Source: Database]" ++ NL ++ r)) (normalize q)
         then "No price information found online for " ++ strip q ++ "."
         else "[Source: Database]" ++ NL ++ r)).
Proof.
  intros Hs Hk Hd Hc Hr Ha.
  unfold run_on, app_invoke, invoke, recursion_limit.
  rewrite (bind_ok _ _ _
             [Print "--- CALL ASSISTANT ---"; Print "--- RETRIEVER ---";
              CallVectorDB (first_query saved q); Print "--- GENERATE ---";
              CallLLM (product_bot_prompt w (lstrip (format_docs (d :: docs)))
                         (first_query saved q))]
             (reduce
                (reduce (reduce (resume saved q) [HumanMessage "TOOL: retriever"])
                   [HumanMessage (database_indicator ++ NL ++ format_docs (d :: docs))])
                [HumanMessage (database_indicator ++ NL ++ r)])).
  - unfold reduce at 1. unfold add_messages at 1. run_monad. cbv [messages].
    rewrite last_content_snoc. cbv [content].
    change (database_indicator ++ NL ++ r) with ("[Source: Database]" ++ NL ++ r).
    now destruct (String.eqb _ (normalize q)).
  - rewrite exec_S.
    rewrite (assistant_routes w (resume saved q) [] q (resume_last saved q) Hk).
    cbv [fst snd]. rewrite exec_S.
    rewrite (retriever_passes_records w _ _ (first_query saved q) d docs);
      [|apply first_content_app, resume_first
       |now apply no_marker_after_assistant|exact Hd|exact Hc].
    cbv [fst snd]. rewrite exec_S.
    rewrite (generator_answers w _ _ (first_query saved q) (format_docs (d :: docs)) r);
      [|apply first_content_app, first_content_app, resume_first
       |apply last_content_snoc|exact Hr|exact Ha].
    reflexivity.
Qed.

(** X9, witness: a first run. *)
Lemma answer_from_index_witness :
  snd (run_on (Scenarios.world "The iPhone 15 costs 64900." [Scenarios.iphone] None
                 Scenarios.no_response) []
         "What is the price of iPhone 15?" []) =
    Ok ("[Source: Database]" ++ NL ++ "The iPhone 15 costs 64900.").
Proof.
  rewrite (answer_from_index
             (Scenarios.world "The iPhone 15 costs 64900." [Scenarios.iphone] None
                Scenarios.no_response) []
             "What is the price of iPhone 15?" Scenarios.iphone []
             "The iPhone 15 costs 64900." eq_refl eq_refl eq_refl eq_refl eq_refl eq_refl).
  reflexivity.
Defined.

Lemma web_search_node_finds w s log q response :
  first_content (messages s) = Ok q ->
  is_set (TAVILY_API_KEY w) = true ->
  tavily_search w (log ++ [Print "--- WEB SEARCH ---"])%list (q ++ " price in India")
    = Ok response ->
  invalid_context q (select_result (unicode w) (results_of response)) = false ->
  superstep (node_fn w) reduce edge WebSearch s log =
    ((log ++ [Print "--- WEB SEARCH ---"; CallTavily (q ++ " price in India")])%list,
     Ok (END,
         reduce s [HumanMessage (web_indicator ++ NL ++
                                 select_result (unicode w) (results_of response))])).
Proof.
  intros Hq Hk Hr Hv.
  apply superstep_ok with
    (log1 := (log ++ [Print "--- WEB SEARCH ---";
                      CallTavily (q ++ " price in India")])%list);
    [|reflexivity].
  cbv [node_fn]. unfold _web_search_node.
  rewrite (bind_ok _ _ _ (log ++ [Print "--- WEB SEARCH ---"])%list tt eq_refl).
  rewrite (bind_ok _ _ _ (log ++ [Print "--- WEB SEARCH ---"])%list q)
    by (unfold lift; now rewrite Hq).
  rewrite (bind_ok _ _ _
             ((log ++ [Print "--- WEB SEARCH ---"]) ++
              [CallTavily (q ++ " price in India")])%list
             (select_result (unicode w) (results_of response))).
  - rewrite Hv. unfold ret. now rewrite <- app_assoc.
  - unfold web_search. rewrite Hk. cbv [negb]. run_monad. now rewrite Hr.
Qed.

(** X10.  An answer from the web.  The query has a product keyword, the
    index returns no record for the first message of the thread, a Tavily key
    is set, the client answers, and the text selected from its results is
    acceptable to the WebSearch node (not empty, not an echo of the first
    message, no failure phrase).  Then the run visits Assistant, Retriever and
    WebSearch, no model is called, the client is asked for the first message
    of the thread followed by " price in India", and [run] returns the
    web-search indicator, a line break and the selected text (unless that
    normalises to the query). *)
Theorem answer_from_web w saved q response :
  contains_any keywords (lower q) = true ->
  vector_db w [Print "--- CALL ASSISTANT ---"; Print "--- RETRIEVER ---"]
    (first_query saved q) = Ok [] ->
  is_set (TAVILY_API_KEY w) = true ->
  tavily_search w
    [Print "--- CALL ASSISTANT ---"; Print "--- RETRIEVER ---";
     CallVectorDB (first_query saved q); Print "--- WEB SEARCH ---"]
    (first_query saved q ++ " price in India") = Ok response ->
  invalid_context (first_query saved q)
    (select_result (unicode w) (results_of response)) = false ->
  run_on w saved q [] =
    ([Print "--- CALL ASSISTANT ---"; Print "--- RETRIEVER ---";
      CallVectorDB (first_query saved q); Print "--- WEB SEARCH ---";
      CallTavily (first_query saved q ++ " price in India")],
     Ok (if String.eqb
              (normalize ("[Source: Web Search]" ++ NL ++
                          select_result (unicode w) (results_of response)))
              (normalize q)
         then "No price information found online for " ++ strip q ++ "."
         else "[Source: Web Search]" ++ NL ++
              select_result (unicode w) (results_of response))).
Proof.
  intros Hk Hd Hkey Hr Hv.
  unfold run_on, app_invoke, invoke, recursion_limit.
  rewrite (bind_ok _ _ _
             [Print "--- CALL ASSISTANT ---"; Print "--- RETRIEVER ---";
              CallVectorDB (first_query saved q); Print "--- WEB SEARCH ---";
              CallTavily (first_query saved q ++ " price in India")]
             (reduce
                (reduce (reduce (resume saved q) [HumanMessage "TOOL: retriever"])
                   [HumanMessage "TOOL: websearch"; HumanMessage (first_query saved q)])
                [HumanMessage (web_indicator ++ NL ++
                               select_result (unicode w) (results_of response))])).
  - unfold reduce at 1. unfold add_messages at 1. run_monad. cbv [messages].
    rewrite last_content_snoc. cbv [content].
    change (web_indicator ++ NL ++ select_result (unicode w) (results_of response))
      with ("[Source: Web Search]" ++ NL ++ select_result (unicode w) (results_of response)).
    now destruct (String.eqb _ (normalize q)).
  - rewrite exec_S.
    rewrite (assistant_routes w (resume saved q) [] q (resume_last saved q) Hk).
    cbv [fst snd]. rewrite exec_S.
    rewrite (retriever_finds_nothing w _ _ (first_query saved q));
      [|apply first_content_app, resume_first|exact Hd].
    cbv [fst snd]. rewrite exec_S.
    rewrite (web_search_node_finds w _ _ (first_query saved q) response);
      [|apply first_content_app, first_content_app, resume_first
       |exact Hkey|exact Hr|exact Hv].
    reflexivity.
Qed.

(** X10, witness: the index is empty and the web has a rupee price. *)
Lemma answer_from_web_witness :
  snd (run_on (Scenarios.world "unused" [] (Some "key")
                 (RespDict (Some Scenarios.rupee_result))) []
         "What is the price of iPhone 15?" []) =
    Ok ("[Source: Web Search]" ++ NL ++ "Title: Store" ++ NL ++ "Price: ₹64,900" ++ NL ++
        "Details: iPhone 15 at ₹64,900 on sale" ++ NL ++ "Source: http://s").
Proof.
  rewrite (answer_from_web
             (Scenarios.world "unused" [] (Some "key")
                (RespDict (Some Scenarios.rupee_result))) []
             "What is the price of iPhone 15?"
             (RespDict (Some Scenarios.rupee_result))
             eq_refl eq_refl eq_refl eq_refl eq_refl).
  reflexivity.
Defined.

(** *** An apology phrase in what was retrieved *)

Lemma retriever_escalates w s log q d docs :
  first_content (messages s) = Ok q ->
  vector_db w (log ++ [Print "--- RETRIEVER ---"])%list q = Ok (d :: docs) ->
  contains_any apology_phrases (lower (format_docs (d :: docs))) = true ->
  superstep (node_fn w) reduce edge Retriever s log =
    ((log ++ [Print "--- RETRIEVER ---"; CallVectorDB q])%list,
     Ok (To WebSearch, reduce s [HumanMessage "TOOL: websearch"; HumanMessage q])).
Proof.
  intros Hq Hd Ha.
  apply superstep_ok with
    (log1 := (log ++ [Print "--- RETRIEVER ---"; CallVectorDB q])%list).
  - cbv [node_fn]. unfold _vector_retriever. run_monad. rewrite Hq, Hd, Ha.
    change [Print "--- RETRIEVER ---"; CallVectorDB q]
      with ([Print "--- RETRIEVER ---"] ++ [CallVectorDB q])%list.
    now rewrite app_assoc.
  - cbv [edge]. unfold reduce, add_messages. run_monad.
    now rewrite retriever_route_websearch.
Qed.

(** X11.  An apology phrase in what was retrieved.  The query has a
    product keyword and the index returns, for the first message of the
    thread, records whose formatted text holds one of the apology phrases (as
    a review that says "not found" does).  Then the records are set aside:
    the run goes Assistant, Retriever, WebSearch and ends, the model is not
    called, and [run] returns the web-search indicator, a line break and the
    context of the WebSearch node (or the no-information message when that
    normalises to the query). *)
Theorem retrieved_apology_escalates w saved q d docs :
  contains_any keywords (lower q) = true ->
  vector_db w [Print "--- CALL ASSISTANT ---"; Print "--- RETRIEVER ---"]
    (first_query saved q) = Ok (d :: docs) ->
  contains_any apology_phrases (lower (format_docs (d :: docs))) = true ->
  exists log' context,
    run_on w saved q [] =
      (log',
       Ok (if String.eqb (normalize ("[Source: Web Search]" ++ NL ++ context)) (normalize q)
           then "No price information found online for " ++ strip q ++ "."
           else "[Source: Web Search]" ++ NL ++ context)) /\
    banners log' = ["--- CALL ASSISTANT ---"; "--- RETRIEVER ---"; "--- WEB SEARCH ---"] /\
    vector_db_queries log' = [first_query saved q] /\
    Forall (fun e => match e with CallLLM _ => False | _ => True end) log'.
Proof.
  intros Hk Hd Ha.
  destruct (web_node_step w
              (reduce (reduce (resume saved q) [HumanMessage "TOOL: retriever"])
                 [HumanMessage "TOOL: websearch"; HumanMessage (first_query saved q)])
              [Print "--- CALL ASSISTANT ---"; Print "--- RETRIEVER ---";
               CallVectorDB (first_query saved q)]
              (first_query saved q))
    as (evs & context & E & Hevs);
    [apply first_content_app, first_content_app, resume_first|].
  exists ([Print "--- CALL ASSISTANT ---"; Print "--- RETRIEVER ---";
           CallVectorDB (first_query saved q)]
            ++ [Print "--- WEB SEARCH ---"] ++ evs)%list, context.
  split; [|split; [|split]].
  - unfold run_on, app_invoke, invoke, recursion_limit.
    rewrite (bind_ok _ _ _
               ([Print "--- CALL ASSISTANT ---"; Print "--- RETRIEVER ---";
                 CallVectorDB (first_query saved q)]
                  ++ [Print "--- WEB SEARCH ---"] ++ evs)%list
               {| messages :=
                    (messages
                       (reduce (reduce (resume saved q) [HumanMessage "TOOL: retriever"])
                          [HumanMessage "TOOL: websearch";
                           HumanMessage (first_query saved q)])
                     ++ [HumanMessage (web_indicator ++ NL ++ context)])%list |}).
    + run_monad. cbv [messages].
      rewrite last_content_snoc. cbv [content].
      change (web_indicator ++ NL ++ context) with ("[Source: Web Search]" ++ NL ++ context).
      now destruct (String.eqb _ (normalize q)).
    + rewrite exec_S.
      rewrite (assistant_routes w (resume saved q) [] q (resume_last saved q) Hk).
      cbv [fst snd]. rewrite exec_S.
      rewrite (retriever_escalates w _ _ (first_query saved q) d docs);
        [|apply first_content_app, resume_first|exact Hd|exact Ha].
      cbv [fst snd]. rewrite exec_S.
      change (([] ++ [Print "--- CALL ASSISTANT ---"]) ++
              [Print "--- RETRIEVER ---"; CallVectorDB (first_query saved q)])%list
        with [Print "--- CALL ASSISTANT ---"; Print "--- RETRIEVER ---";
              CallVectorDB (first_query saved q)].
      rewrite E. reflexivity.
  - destruct Hevs as [-> | ->]; reflexivity.
  - destruct Hevs as [-> | ->]; reflexivity.
  - destruct Hevs as [-> | ->]; repeat constructor.
Qed.

(** X11, witness: a review that says "not found". *)
Lemma retrieved_apology_escalates_witness :
  exists log',
    run_on (Scenarios.world "unused" [Scenarios.unlucky_review] None Scenarios.no_response)
      [] "phone case price" [] =
      (log',
       Ok ("[Source: Web Search]" ++ NL ++
           "No price information found online for phone case price.")).
Proof.
  destruct (retrieved_apology_escalates
              (Scenarios.world "unused" [Scenarios.unlucky_review] None
                 Scenarios.no_response) []
              "phone case price" Scenarios.unlucky_review [] eq_refl eq_refl eq_refl)
    as (log' & context & E & _ & _).
  exists log'.
  transitivity
    (run_on (Scenarios.world "unused" [Scenarios.unlucky_review] None Scenarios.no_response)
       [] "phone case price" []); [reflexivity|].
  rewrite E. f_equal. f_equal.
  assert (H : snd (run_on (Scenarios.world "unused" [Scenarios.unlucky_review] None
                             Scenarios.no_response) [] "phone case price" []) =
              Ok ("[Source: Web Search]" ++ NL ++
                  "No price information found online for phone case price."))
    by reflexivity.
  rewrite E in H. cbv [snd] in H. now inversion H.
Defined.

(** *** Whatever the thread holds

    The echo guard, the answer when the model and the index answer, and the
    absence of the rewrite path do not depend on the messages the thread
    holds. *)

Lemma run_on_never_echoes w saved q log answer :
  snd (run_on w saved q log) = Ok answer -> normalize answer <> normalize q.
Proof.
  unfold run_on, bind, lift, ret.
  destruct (app_invoke w (resume saved q) log) as [log' [result|e]]; [|discriminate].
  destruct (last_content (messages result)) as [a|e]; [|discriminate].
  destruct (String.eqb (normalize a) (normalize q)) eqn:E; simpl; intros H;
    inversion H; subst.
  - intros Hn. now apply (no_price_message_not_echo q (no_price_message q)).
  - now apply String.eqb_neq.
Qed.

Lemma run_on_echo_guard w saved q log' result answer :
  app_invoke w (resume saved q) [] = (log', Ok result) ->
  last_content (messages result) = Ok answer ->
  normalize answer = normalize q ->
  run_on w saved q [] =
    (log', Ok ("No price information found online for " ++ strip q ++ ".")).
Proof.
  intros Hi Ha Hn. unfold run_on. rewrite (bind_ok _ _ _ _ _ Hi). run_monad.
  rewrite Ha, Hn, String.eqb_refl. reflexivity.
Qed.

Lemma run_on_answers w saved q :
  answers w -> exists log' answer, run_on w saved q [] = (log', Ok answer).
Proof.
  intros Hw.
  assert (Hne : messages (resume saved q) <> []).
  { rewrite resume_messages. intros H. apply app_eq_nil in H. destruct H. discriminate. }
  assert (G : exists log' s',
    app_invoke w (resume saved q) [] = (log', Ok s') /\ messages s' <> []).
  { rewrite invoke_in_three_steps, exec_S.
    destruct (step_answers w Assistant (resume saved q) [] Hw Hne)
      as (l1 & t1 & s1 & E1 & H1).
    rewrite E1. cbv [fst snd].
    destruct (superstep_targets _ _ _ _ _ _ _ E1); subst t1;
      [|rewrite exec_END; eauto].
    rewrite exec_S.
    destruct (step_answers w Retriever s1 l1 Hw H1) as (l2 & t2 & s2 & E2 & H2).
    rewrite E2. cbv [fst snd].
    destruct (superstep_targets _ _ _ _ _ _ _ E2); subst t2;
      apply exec_leaf_answers; auto. }
  destruct G as (log' & s' & E & Hs').
  destruct (contents_of_nonempty _ Hs') as [_ (l & Hl)].
  unfold run_on. rewrite (bind_ok _ _ _ _ _ E). run_monad. rewrite Hl.
  destruct (String.eqb (normalize l) (normalize q)); eauto.
Qed.

Lemma rewrite_path_unreachable_on w saved q t s log :
  reachable_on w saved q (t, s, log) ->
  t <> To Rewriter /\
  printed "--- GRADER ---" log = false /\
  printed "--- REWRITE ---" log = false.
Proof.
  intros Hr.
  apply (reach_closed (node_fn w) reduce edge quiet (fun n => n <> Rewriter)) in Hr.
  - destruct Hr as [Ht Hl]. simpl in Ht, Hl.
    split; [destruct t; simpl in Ht; congruence|].
    exact (quiet_printed _ Hl).
  - intros; now apply node_quiet.
  - intros; apply edge_quiet.
  - intros n s0 log0 t0. apply edge_avoids_rewriter.
  - simpl. discriminate.
  - constructor.
Qed.

(** *** A marker left on the thread *)

Lemma retriever_route_stale ms added :
  existsb (String.eqb "TOOL: websearch") (contents ms) = true ->
  retriever_route {| messages := (ms ++ added)%list |} = "WebSearch".
Proof.
  intros H. unfold retriever_route, contents. cbv [messages].
  rewrite map_app, existsb_app. fold (contents ms). now rewrite H.
Qed.

Lemma retriever_with_stale_marker w s log q docs :
  first_content (messages s) = Ok q ->
  existsb (String.eqb "TOOL: websearch") (contents (messages s)) = true ->
  vector_db w (log ++ [Print "--- RETRIEVER ---"])%list q = Ok docs ->
  exists added,
    superstep (node_fn w) reduce edge Retriever s log =
      ((log ++ [Print "--- RETRIEVER ---"; CallVectorDB q])%list,
       Ok (To WebSearch, reduce s added)).
Proof.
  intros Hq Hm Hd.
  assert (G : forall added,
    _vector_retriever w s log =
      ((log ++ [Print "--- RETRIEVER ---"; CallVectorDB q])%list, Ok added) ->
    superstep (node_fn w) reduce edge Retriever s log =
      ((log ++ [Print "--- RETRIEVER ---"; CallVectorDB q])%list,
       Ok (To WebSearch, reduce s added))).
  { intros added Hn.
    apply superstep_ok with
      (log1 := (log ++ [Print "--- RETRIEVER ---"; CallVectorDB q])%list);
      [exact Hn|].
    cbv [edge]. unfold reduce, add_messages, lift.
    now rewrite (retriever_route_stale (messages s) added Hm). }
  assert (L : ((log ++ [Print "--- RETRIEVER ---"]) ++ [CallVectorDB q])%list =
              (log ++ [Print "--- RETRIEVER ---"; CallVectorDB q])%list)
    by (now rewrite <- app_assoc).
  unfold _vector_retriever in G. revert G. run_monad. rewrite Hq, Hd, L. intros G.
  destruct docs as [|d docs]; [eexists; apply G; reflexivity|].
  destruct (contains_any apology_phrases (lower (format_docs (d :: docs))));
    eexists; apply G; reflexivity.
Qed.

(** X23.  A web-search marker left on the thread.  The Retriever edge looks
    for the message "TOOL: websearch" among all the messages of the state,
    those of earlier runs included.  So on a thread that holds one (any run
    that went to WebSearch leaves one), a query with a product keyword is
    sent to WebSearch whatever the index returns: records that would have
    been answered from are set aside, and the model is not called. *)
Theorem stale_marker_sends_to_web w saved q docs :
  existsb (String.eqb "TOOL: websearch") (contents saved) = true ->
  contains_any keywords (lower q) = true ->
  vector_db w [Print "--- CALL ASSISTANT ---"; Print "--- RETRIEVER ---"]
    (first_query saved q) = Ok docs ->
  exists log' context,
    run_on w saved q [] =
      (log',
       Ok (if String.eqb (normalize ("[Source: Web Search]" ++ NL ++ context)) (normalize q)
           then "No price information found online for " ++ strip q ++ "."
           else "[Source: Web Search]" ++ NL ++ context)) /\
    banners log' = ["--- CALL ASSISTANT ---"; "--- RETRIEVER ---"; "--- WEB SEARCH ---"] /\
    Forall (fun e => match e with CallLLM _ => False | _ => True end) log'.
Proof.
  intros Hs Hk Hd.
  destruct (retriever_with_stale_marker w
              (reduce (resume saved q) [HumanMessage "TOOL: retriever"])
              [Print "--- CALL ASSISTANT ---"] (first_query saved q) docs)
    as (added & Er);
    [apply first_content_app, resume_first
    | unfold reduce, add_messages; cbn [messages]; rewrite resume_messages;
      unfold contents; rewrite !map_app, !existsb_app; fold (contents saved);
      now rewrite Hs
    | exact Hd |].
  destruct (web_node_step w
              (reduce (reduce (resume saved q) [HumanMessage "TOOL: retriever"]) added)
              [Print "--- CALL ASSISTANT ---"; Print "--- RETRIEVER ---";
               CallVectorDB (first_query saved q)]
              (first_query saved q))
    as (evs & context & E & Hevs);
    [apply first_content_app, first_content_app, resume_first|].
  exists ([Print "--- CALL ASSISTANT ---"; Print "--- RETRIEVER ---";
           CallVectorDB (first_query saved q)]
            ++ [Print "--- WEB SEARCH ---"] ++ evs)%list, context.
  split; [|split].
  - unfold run_on, app_invoke, invoke, recursion_limit.
    rewrite (bind_ok _ _ _
               ([Print "--- CALL ASSISTANT ---"; Print "--- RETRIEVER ---";
                 CallVectorDB (first_query saved q)]
                  ++ [Print "--- WEB SEARCH ---"] ++ evs)%list
               {| messages :=
                    (messages
                       (reduce (reduce (resume saved q) [HumanMessage "TOOL: retriever"])
                          added)
                     ++ [HumanMessage (web_indicator ++ NL ++ context)])%list |}).
    + run_monad. cbv [messages].
      rewrite last_content_snoc. cbv [content].
      change (web_indicator ++ NL ++ context) with ("[Source: Web Search]" ++ NL ++ context).
      now destruct (String.eqb _ (normalize q)).
    + rewrite exec_S.
      rewrite (assistant_routes w (resume saved q) [] q (resume_last saved q) Hk).
      cbv [fst snd]. rewrite exec_S.
      change ([] ++ [Print "--- CALL ASSISTANT ---"])%list
        with [Print "--- CALL ASSISTANT ---"].
      rewrite Er. cbv [fst snd]. rewrite exec_S.
      change ([Print "--- CALL ASSISTANT ---"] ++
              [Print "--- RETRIEVER ---"; CallVectorDB (first_query saved q)])%list
        with [Print "--- CALL ASSISTANT ---"; Print "--- RETRIEVER ---";
              CallVectorDB (first_query saved q)].
      rewrite E. reflexivity.
  - destruct Hevs as [-> | ->]; reflexivity.
  - destruct Hevs as [-> | ->]; repeat constructor.
Qed.

(** X23, witness: the index has a record of the iPhone, but the thread
    holds the marker of an earlier run. *)
Lemma stale_marker_sends_to_web_witness :
  banners
    (fst (run_on (Scenarios.world "The iPhone 15 costs 64900." [Scenarios.iphone] None
                    Scenarios.no_response)
            [HumanMessage "Galaxy S24 price"; HumanMessage "TOOL: retriever";
             HumanMessage "TOOL: websearch"; HumanMessage "Galaxy S24 price";
             HumanMessage ("[Source: Web Search]" ++ NL ++
                           "No price information found online for Galaxy S24 price.")]
            "What is the price of iPhone 15?" [])) =
    ["--- CALL ASSISTANT ---"; "--- RETRIEVER ---"; "--- WEB SEARCH ---"].
Proof.
  destruct (stale_marker_sends_to_web
              (Scenarios.world "The iPhone 15 costs 64900." [Scenarios.iphone] None
                 Scenarios.no_response)
              [HumanMessage "Galaxy S24 price"; HumanMessage "TOOL: retriever";
               HumanMessage "TOOL: websearch"; HumanMessage "Galaxy S24 price";
               HumanMessage ("[Source: Web Search]" ++ NL ++
                             "No price information found online for Galaxy S24 price.")]
              "What is the price of iPhone 15?" [Scenarios.iphone]
              eq_refl eq_refl eq_refl) as (log' & context & E & B & _).
  rewrite E. exact B.
Defined.

(** *** Successive runs on a thread *)

(** X24.  After a first run on a thread, every later run on that thread
    asks the services for the first query: the index is asked for it and the
    Tavily client for it followed by " price in India", whatever the new
    query is and whatever the first run did. *)
Theorem later_run_requests w store thread_id q1 log1 q2 :
  store thread_id = [] ->
  Forall (rag_request q1)
    (fst (fst (run_thread w (snd (run_thread w store q1 thread_id log1))
                 q2 thread_id []))).
Proof.
  intros Hnew. rewrite run_thread_result.
  destruct (run_thread_saves w store q1 thread_id log1) as (added & Es).
  rewrite Hnew in Es. cbn [app] in Es. rewrite Es.
  assert (E : emits (rag_request q1)
                (run_on w (HumanMessage q1 :: added) q2)).
  { unfold run_on, app_invoke, invoke. apply emits_bind.
    - apply exec_emits_guarded
        with (inv := fun s => first_content (messages s) = Ok q1).
      + intros n s Hs. now apply node_requests.
      + intros n s _. apply edge_requests.
      + intros n s log log0 upd Hs _. unfold reduce, add_messages. simpl.
        now apply first_content_app.
      + reflexivity.
    - intros result. emits_tac. }
  destruct (E []) as (evs & -> & F). exact F.
Qed.

(** X24, witness: the second query on the default thread. *)
Lemma later_run_requests_witness :
  Forall (rag_request "What is the price of iPhone 15?")
    (fst (fst (run_thread
                 (Scenarios.world "It costs 64900." [Scenarios.iphone] None
                    Scenarios.no_response)
                 (snd (run_thread
                         (Scenarios.world "It costs 64900." [Scenarios.iphone] None
                            Scenarios.no_response)
                         no_checkpoints "What is the price of iPhone 15?" default_thread []))
                 "What is the price of Galaxy S24?" default_thread []))).
Proof.
  apply (later_run_requests
           (Scenarios.world "It costs 64900." [Scenarios.iphone] None Scenarios.no_response)
           no_checkpoints default_thread "What is the price of iPhone 15?" []
           "What is the price of Galaxy S24?" eq_refl).
Defined.

End AgenticRagMore.

(** ** [agentic_workflow_with_mcp_websearch.py]: termination, grading, errors *)

Module McpMore.
Import Text Effects Graph Logic Observe EffectFacts GraphFacts TextFacts ObserveFacts.
Import Discipline GraphMore McpWorkflow McpFacts.
Open Scope monad_scope.

(** *** The grader *)

Lemma grader_cases s log l :
  last_content (messages s) = Ok l ->
  first_content (messages s) <> Raise "IndexError: list index out of range" ->
  exists label,
    _grade_documents s log = ((log ++ [Print "--- GRADER ---"])%list, Ok label) /\
    (label = "generator" \/ label = "rewriter" /\ (retry_count s < 1)%Z) /\
    ((retry_count s >= 1)%Z -> label = "generator").
Proof.
  intros Hl Hq. unfold _grade_documents. run_monad. rewrite Hl.
  destruct (first_content (messages s)) as [q|e] eqn:E.
  - destruct (_ || _ || _ || _).
    + exists "generator". auto.
    + destruct (retry_count s >=? 1)%Z eqn:Er.
      * exists "generator". auto.
      * rewrite Z.geb_leb in Er. apply Z.leb_gt in Er.
        destruct (_ && _ && _ && _).
        -- exists "generator". auto.
        -- exists "rewriter". repeat split; auto. intros; lia.
  - exfalso. destruct (messages s); simpl in E; [|discriminate].
    simpl in Hl. discriminate.
Qed.

(** The edge out of the Retriever finds its way. *)
Lemma grader_edge_returns s log :
  messages s <> [] ->
  exists log' t,
    bind (_grade_documents s) (fun label => lift (retriever_path_map label)) log =
      (log', Ok t).
Proof.
  intros Hs. destruct (contents_of_nonempty _ Hs) as [(q & Hq) (l & Hl)].
  destruct (grader_cases s log l Hl) as (label & E & Hc & _);
    [rewrite Hq; discriminate|].
  rewrite (bind_ok _ _ _ _ _ E).
  destruct Hc as [-> | [-> _]]; eexists; eexists; reflexivity.
Qed.

(** X12.  On a state with at least one message the grader of the MCP
    workflow prints its banner, calls no service, never raises, and returns
    exactly "generator" or "rewriter", a label the path map of the Retriever
    edge knows.  It returns "rewriter" only when the retry counter is below
    1: once a rewrite has been made, whatever was retrieved is accepted. *)
Theorem grader_is_total s log :
  messages s <> [] ->
  exists label t,
    _grade_documents s log = ((log ++ [Print "--- GRADER ---"])%list, Ok label) /\
    (label = "generator" \/ label = "rewriter") /\
    retriever_path_map label = Ok t /\
    ((retry_count s >= 1)%Z -> label = "generator").
Proof.
  intros Hs. destruct (contents_of_nonempty _ Hs) as [(q & Hq) (l & Hl)].
  destruct (grader_cases s log l Hl) as (label & E & Hc & Hg);
    [rewrite Hq; discriminate|].
  destruct Hc as [-> | [-> _]].
  - exists "generator", (To Generator). repeat split; auto.
  - exists "rewriter", (To Rewriter). repeat split; auto.
Qed.

(** X12, witness: after a rewrite, an empty retrieval is accepted. *)
Lemma grader_is_total_witness :
  _grade_documents
    {| messages := [HumanMessage "iPhone"; HumanMessage "No relevant documents found."];
       retry_count := 1 |} [] =
    ([Print "--- GRADER ---"], Ok "generator").
Proof.
  destruct (grader_is_total
              {| messages := [HumanMessage "iPhone";
                              HumanMessage "No relevant documents found."];
                 retry_count := 1 |} []) as (label & t & E & _ & _ & H);
    [discriminate|].
  rewrite E. now rewrite H by (simpl; lia).
Defined.

(** *** Where a step can lead *)

Lemma mcp_superstep_targets w n s log log' t' s' :
  superstep (node_fn w) reduce edge n s log = (log', Ok (t', s')) ->
  match n with
  | Assistant => t' = To Retriever \/ t' = END
  | Retriever => t' = To Generator \/ (t' = To Rewriter /\ (retry_count s' < 1)%Z)
  | Generator => t' = END
  | Rewriter => t' = To WebSearch
  | WebSearch => t' = To Generator
  end.
Proof.
  intros H. apply superstep_inv in H. destruct H as (log1 & upd & _ & _ & He).
  destruct n; cbv [edge] in He.
  - unfold bind, lift, ret in He. destruct (assistant_route s') as [[l|]|e];
      inversion He; auto.
  - unfold bind in He.
    destruct (_grade_documents s' log1) as [log2 [label|e]] eqn:Eg; [|discriminate].
    unfold lift in He.
    assert (Hl : exists l, last_content (messages s') = Ok l).
    { revert Eg. unfold _grade_documents. run_monad.
      destruct (first_content (messages s')); [|discriminate].
      destruct (last_content (messages s')); [eauto | discriminate]. }
    destruct Hl as (l & Hl).
    destruct (grader_cases s' log1 l Hl) as (label' & E' & Hc & _).
    { destruct (messages s'); [discriminate | simpl; discriminate]. }
    rewrite E' in Eg. inversion Eg; subst.
    destruct Hc as [-> | [-> Hlt]]; simpl in He; inversion He; auto.
  - inversion He; auto.
  - inversion He; auto.
  - inversion He; auto.
Qed.

(** *** Termination *)

Lemma exec_generator w s log k :
  exec (node_fn w) reduce edge (1 + k) (To Generator) s log =
  exec (node_fn w) reduce edge 1 (To Generator) s log.
Proof.
  change (1 + k) with (S k). rewrite !exec_S.
  destruct (superstep (node_fn w) reduce edge Generator s log) as [log' [[t' s']|e]] eqn:E;
    [|reflexivity].
  apply mcp_superstep_targets in E. subst t'. cbv [fst snd]. now rewrite !exec_END.
Qed.

Lemma exec_web_search w s log k :
  exec (node_fn w) reduce edge (2 + k) (To WebSearch) s log =
  exec (node_fn w) reduce edge 2 (To WebSearch) s log.
Proof.
  change (2 + k) with (S (1 + k)). rewrite !exec_S.
  destruct (superstep (node_fn w) reduce edge WebSearch s log) as [log' [[t' s']|e]] eqn:E;
    [|reflexivity].
  apply mcp_superstep_targets in E. subst t'. cbv [fst snd]. apply exec_generator.
Qed.

Lemma exec_rewriter w s log k :
  exec (node_fn w) reduce edge (3 + k) (To Rewriter) s log =
  exec (node_fn w) reduce edge 3 (To Rewriter) s log.
Proof.
  change (3 + k) with (S (2 + k)). rewrite !exec_S.
  destruct (superstep (node_fn w) reduce edge Rewriter s log) as [log' [[t' s']|e]] eqn:E;
    [|reflexivity].
  apply mcp_superstep_targets in E. subst t'. cbv [fst snd]. apply exec_web_search.
Qed.

Lemma mcp_exec_retriever w s log k :
  exec (node_fn w) reduce edge (4 + k) (To Retriever) s log =
  exec (node_fn w) reduce edge 4 (To Retriever) s log.
Proof.
  change (4 + k) with (S (3 + k)). rewrite !exec_S.
  destruct (superstep (node_fn w) reduce edge Retriever s log) as [log' [[t' s']|e]] eqn:E;
    [|reflexivity].
  apply mcp_superstep_targets in E. cbv [fst snd].
  destruct E as [-> | [-> _]].
  - transitivity (exec (node_fn w) reduce edge 1 (To Generator) s' log');
      [apply (exec_generator w s' log' (2 + k))
      | symmetry; apply (exec_generator w s' log' 2)].
  - apply exec_rewriter.
Qed.

Lemma invoke_in_five_steps w s log :
  app_invoke w s log = exec (node_fn w) reduce edge 5 (To Assistant) s log.
Proof.
  unfold app_invoke, invoke, recursion_limit.
  change 25 with (S (4 + 20)). rewrite !exec_S.
  destruct (superstep (node_fn w) reduce edge Assistant s log) as [log' [[t' s']|e]] eqn:E;
    [|reflexivity].
  apply mcp_superstep_targets in E. cbv [fst snd].
  destruct E; subst t'; [apply mcp_exec_retriever | now rewrite !exec_END].
Qed.

(** X13.  A run of the MCP workflow ends within five supersteps
    (Assistant, Retriever, Rewriter, WebSearch, Generator): with any bound of
    at least five the graph leaves the same log and the same result as with
    the bound five, so no run loops and the recursion limit of 25 is never
    what ends one. *)
Theorem run_within_five_steps w s log k :
  exec (node_fn w) reduce edge (5 + k) (To Assistant) s log =
  exec (node_fn w) reduce edge 5 (To Assistant) s log /\
  app_invoke w s log = exec (node_fn w) reduce edge 5 (To Assistant) s log.
Proof.
  assert (G : forall j,
    exec (node_fn w) reduce edge (5 + j) (To Assistant) s log =
    exec (node_fn w) reduce edge 5 (To Assistant) s log).
  { intros j. change (5 + j) with (S (4 + j)). rewrite !exec_S.
    destruct (superstep (node_fn w) reduce edge Assistant s log) as [log' [[t' s']|e]] eqn:E;
      [|reflexivity].
    apply mcp_superstep_targets in E. cbv [fst snd].
    destruct E; subst t'; [apply mcp_exec_retriever | now rewrite !exec_END]. }
  split; [apply G | apply (G 20)].
Qed.

(** *** The Rewriter is reached below one *)

(** X14.  In a run of the MCP workflow started with a counter of at most
    1 (a run started by [run] has 0), the counter of every configuration is
    at most 1, and whenever the Rewriter is the next node the counter is
    below 1.  So in a run of the graph [_rewrite] never takes its branch for
    the ceiling, and the query is rewritten at most once. *)
Theorem rewriter_reached_below_one w input t s log :
  (retry_count input <= 1)%Z ->
  reachable_from w input (t, s, log) ->
  (retry_count s <= 1)%Z /\ (t = To Rewriter -> (retry_count s < 1)%Z).
Proof.
  intros H0 Hr.
  remember (t, s, log) as c eqn:Ec. revert t s log Ec.
  induction Hr as [|n s0 log0 t' s' log' Hr IH Hs]; intros t s log Ec.
  - inversion Ec; subst. split; [exact H0 | discriminate].
  - inversion Ec; subst. destruct (IH _ _ _ eq_refl) as [IH1 IH2].
    pose proof (mcp_superstep_targets _ _ _ _ _ _ _ Hs) as Ht.
    pose proof Hs as Hs2.
    apply superstep_inv in Hs2. destruct Hs2 as (log1 & upd & Hn & -> & _).
    apply node_writes_count in Hn. unfold reduce in *. simpl in *.
    split.
    + destruct Hn as [-> | (-> & _ & ->)]; [assumption|].
      specialize (IH2 eq_refl). lia.
    + intros ->. destruct n; try (destruct Ht; discriminate); try discriminate.
      destruct Ht as [Ht | [_ Ht]]; [discriminate | exact Ht].
Qed.

(** X14, witness: the configuration in which the Rewriter is next. *)
Lemma rewriter_reached_below_one_witness :
  exists s log,
    reachable_from (Scenarios.world "iPhone 15 price India" [] None Scenarios.no_response)
      (input_of "iPhone price") (To Rewriter, s, log) /\
    (retry_count s < 1)%Z.
Proof.
  assert (R : reachable_from
                (Scenarios.world "iPhone 15 price India" [] None Scenarios.no_response)
                (input_of "iPhone price")
                (To Rewriter,
                 {| messages := [HumanMessage "iPhone price"; HumanMessage "TOOL: retriever";
                                 HumanMessage "No relevant documents found."];
                    retry_count := 0 |},
                 [Print "--- CALL ASSISTANT ---"; Print "--- RETRIEVER (MCP/Fallback) ---";
                  CallVectorDB "iPhone price"; Print "--- GRADER ---"])).
  { eapply reach_step; [eapply reach_step; [apply reach_start|]|]; cbv; reflexivity. }
  assert (H0 : (retry_count (input_of "iPhone price") <= 1)%Z) by (simpl; lia).
  eexists. eexists. split; [exact R|].
  apply (rewriter_reached_below_one _ _ _ _ _ H0 R). reflexivity.
Defined.

(** *** What the services are asked *)

Ltac guarded_tac Hq :=
  unfold call_llm, call_vector_db;
  repeat first
    [ rewrite Hq; apply emits_bind_known
    | apply emits_bind; [|intros ?]
    | apply emits_ret
    | apply emits_lift
    | apply emits_print
    | apply emits_call
    | apply emits_attempt
    | match goal with
      | |- emits _ (if ?b then _ else _) => destruct b
      | |- emits _ (match ?x with _ => _ end) => destruct x
      end ].

Lemma mcp_node_requests w q n s :
  first_content (messages s) = Ok q -> emits (mcp_request q) (node_fn w n s).
Proof.
  intros Hq. destruct n; cbv [node_fn];
    unfold _ai_assistant, _vector_retriever, _generate, _rewrite, _web_search, via_mcp;
    guarded_tac Hq; try exact I; try reflexivity; simpl; auto.
Qed.

Lemma mcp_edge_requests q n s : emits (mcp_request q) (edge n s).
Proof. destruct n; cbv [edge]; unfold _grade_documents; emits_tac; exact I. Qed.

Lemma mcp_resume_first saved q :
  first_content (messages (resume saved q)) = Ok (first_query (messages saved) q).
Proof. unfold resume, reduce, add_messages. cbn. now destruct (messages saved). Qed.

(** The first run on a thread is the run on a thread that holds no
    message. *)
Lemma mcp_run_on_nothing w q : run_on w (no_checkpoints default_thread) q = run w q.
Proof. reflexivity. Qed.

(** X15.  In a run of the MCP workflow, whatever the thread holds and
    whatever the services answer, the vector index and the MCP tools are only
    ever asked for the first message of the thread (never for a control
    message or a rewritten query), the only tools called are get_product_info
    and web_search, and the Tavily client is not called.  On a first run the
    first message is the query as given; on a thread that holds earlier
    messages it is the first query of the thread, not the query of the
    run. *)
Theorem mcp_run_requests w saved q :
  Forall (mcp_request (first_query (messages saved) q)) (fst (run_on w saved q [])) /\
  Forall (mcp_request q) (fst (run w q [])).
Proof.
  assert (E : forall saved,
    emits (mcp_request (first_query (messages saved) q)) (run_on w saved q)).
  { intros sv. unfold run_on, app_invoke, invoke. apply emits_bind.
    - apply exec_emits_guarded
        with (inv := fun s =>
                first_content (messages s) = Ok (first_query (messages sv) q)).
      + intros n s Hs. now apply mcp_node_requests.
      + intros n s _. apply mcp_edge_requests.
      + intros n s log log1 upd Hs _. unfold reduce, add_messages. simpl.
        now apply first_content_app.
      + apply mcp_resume_first.
    - intros result. emits_tac. }
  split.
  - destruct (E saved []) as (evs & -> & F). exact F.
  - destruct (E (no_checkpoints default_thread) []) as (evs & H & F).
    rewrite mcp_run_on_nothing in H. rewrite H. exact F.
Qed.

(** *** Successive runs on a thread *)

Lemma mcp_reach_appends w t0 s0 log0 c :
  reach (node_fn w) reduce edge (t0, s0, log0) c ->
  exists rest, messages (snd (fst c)) = (messages s0 ++ rest)%list.
Proof.
  induction 1 as [|n s log t' s' log' Hr IH Hs]; simpl.
  - exists []. now rewrite app_nil_r.
  - destruct IH as (rest & E). simpl in E.
    apply superstep_inv in Hs. destruct Hs as (log1 & upd & _ & -> & _).
    exists (rest ++ upd_messages upd)%list.
    unfold reduce, add_messages. cbn [messages]. now rewrite E, app_assoc.
Qed.

(** What a thread holds after a run, returned or raised: the messages it
    held, the query, and what the run added. *)
Lemma mcp_run_thread_saves w store q thread_id log :
  exists added,
    messages (snd (run_thread w store q thread_id log) thread_id) =
      (messages (store thread_id) ++ HumanMessage q :: added)%list.
Proof.
  unfold run_thread, put. cbn [snd]. rewrite String.eqb_refl.
  destruct (last_saved_reach (node_fn w) reduce edge
              (To Assistant, resume (store thread_id) q, log) recursion_limit
              (To Assistant) (resume (store thread_id) q) log (reach_start _ _ _ _))
    as (t' & log' & Hr).
  destruct (mcp_reach_appends _ _ _ _ _ Hr) as (rest & E). cbn [fst snd] in E.
  exists rest. rewrite E. unfold resume, reduce, add_messages. cbn [messages upd_messages].
  rewrite <- app_assoc. reflexivity.
Qed.

(** X25.  After a first run on a thread of the MCP workflow, whatever that
    run did, every later run on the thread asks the vector index and the MCP
    tools for the first query of the thread only, whatever the new query
    is. *)
Theorem mcp_later_run_requests w store thread_id q1 log1 q2 :
  messages (store thread_id) = [] ->
  Forall (mcp_request q1)
    (fst (fst (run_thread w (snd (run_thread w store q1 thread_id log1))
                 q2 thread_id []))).
Proof.
  intros Hnew.
  destruct (mcp_run_thread_saves w store q1 thread_id log1) as (added & Es).
  rewrite Hnew in Es. cbn [app] in Es.
  change (fst (run_thread w (snd (run_thread w store q1 thread_id log1)) q2 thread_id []))
    with (run_on w (snd (run_thread w store q1 thread_id log1) thread_id) q2 []).
  assert (E : emits (mcp_request q1)
                (run_on w (snd (run_thread w store q1 thread_id log1) thread_id) q2)).
  { unfold run_on, app_invoke, invoke. apply emits_bind.
    - apply exec_emits_guarded
        with (inv := fun s => first_content (messages s) = Ok q1).
      + intros n s Hs. now apply mcp_node_requests.
      + intros n s _. apply mcp_edge_requests.
      + intros n s log log0 upd Hs _. unfold reduce, add_messages. simpl.
        now apply first_content_app.
      + rewrite mcp_resume_first, Es. reflexivity.
    - intros result. emits_tac. }
  destruct (E []) as (evs & -> & F). exact F.
Qed.

(** X25, witness: the second query on the default thread. *)
Lemma mcp_later_run_requests_witness :
  vector_db_queries
    (fst (fst (run_thread
                 (Scenarios.world "It costs 64900." [Scenarios.iphone] None
                    Scenarios.no_response)
                 (snd (run_thread
                         (Scenarios.world "It costs 64900." [Scenarios.iphone] None
                            Scenarios.no_response)
                         no_checkpoints "What is the price of iPhone 15?" default_thread []))
                 "What is the price of Galaxy S24?" default_thread []))) =
    ["What is the price of iPhone 15?"] /\
  Forall (mcp_request "What is the price of iPhone 15?")
    (fst (fst (run_thread
                 (Scenarios.world "It costs 64900." [Scenarios.iphone] None
                    Scenarios.no_response)
                 (snd (run_thread
                         (Scenarios.world "It costs 64900." [Scenarios.iphone] None
                            Scenarios.no_response)
                         no_checkpoints "What is the price of iPhone 15?" default_thread []))
                 "What is the price of Galaxy S24?" default_thread []))).
Proof.
  split; [reflexivity|].
  apply (mcp_later_run_requests
           (Scenarios.world "It costs 64900." [Scenarios.iphone] None Scenarios.no_response)
           no_checkpoints default_thread "What is the price of iPhone 15?" []
           "What is the price of Galaxy S24?" eq_refl).
Defined.

(** *** Tools that fail *)

(** X16.  When the MCP tools are loaded and the tool get_product_info
    raises, the Retriever node does not raise: it falls back to the vector
    index, asked for the original query, and its message is the formatted
    retrieval. *)
Theorem retriever_falls_back w s log q tool e :
  first_content (messages s) = Ok q ->
  mcp_enabled w = true ->
  find (fun t => String.eqb (name t) "get_product_info") (mcp_tools w) = Some tool ->
  ainvoke tool (log ++ [Print "--- RETRIEVER (MCP/Fallback) ---"])%list q = Raise e ->
  _vector_retriever w s log =
    ((log ++ [Print "--- RETRIEVER (MCP/Fallback) ---";
              CallTool "get_product_info" q; CallVectorDB q])%list,
     match vector_db w
             (log ++ [Print "--- RETRIEVER (MCP/Fallback) ---";
                      CallTool "get_product_info" q])%list q with
     | Ok docs => Ok (only_messages [HumanMessage (format_docs docs)])
     | Raise e' => Raise e'
     end).
Proof.
  intros Hq He Hf Hr. unfold _vector_retriever, via_mcp. rewrite He.
  destruct (mcp_tools w) as [|t0 ts] eqn:Et; [discriminate|].
  cbv [andb negb]. rewrite Hf. run_monad. rewrite Hq, Hr.
  replace ((log ++ [Print "--- RETRIEVER (MCP/Fallback) ---"]) ++
           [CallTool "get_product_info" q])%list
    with (log ++ [Print "--- RETRIEVER (MCP/Fallback) ---";
                  CallTool "get_product_info" q])%list
    by (now rewrite <- app_assoc).
  replace ((log ++ [Print "--- RETRIEVER (MCP/Fallback) ---";
                    CallTool "get_product_info" q]) ++ [CallVectorDB q])%list
    with (log ++ [Print "--- RETRIEVER (MCP/Fallback) ---";
                  CallTool "get_product_info" q; CallVectorDB q])%list
    by (now rewrite <- app_assoc).
  now destruct (vector_db w _ q).
Qed.

(** X16, witness. *)
Lemma retriever_falls_back_witness :
  snd (_vector_retriever
         (Scenarios.with_tools
            (Scenarios.world "unused" [Scenarios.iphone] None Scenarios.no_response)
            [Scenarios.crashing_tool "get_product_info"])
         {| messages := [HumanMessage "iPhone price"; HumanMessage "TOOL: retriever"];
            retry_count := 0 |} []) =
    Ok (only_messages [HumanMessage (format_docs [Scenarios.iphone])]).
Proof.
  rewrite (retriever_falls_back
             (Scenarios.with_tools
                (Scenarios.world "unused" [Scenarios.iphone] None Scenarios.no_response)
                [Scenarios.crashing_tool "get_product_info"])
             {| messages := [HumanMessage "iPhone price"; HumanMessage "TOOL: retriever"];
                retry_count := 0 |}
             [] "iPhone price" (Scenarios.crashing_tool "get_product_info")
             "tool crashed" eq_refl eq_refl eq_refl eq_refl).
  reflexivity.
Defined.

(** *** Runs whose model and index answer *)

Lemma mcp_node_answers w n s log :
  answers w -> messages s <> [] ->
  exists log1 upd, node_fn w n s log = (log1, Ok upd) /\ upd_messages upd <> [].
Proof.
  intros [Hllm Hdb] Hs.
  destruct (contents_of_nonempty _ Hs) as [(q & Hq) (l & Hl)].
  destruct n; cbv [node_fn].
  - unfold _ai_assistant. run_monad. rewrite Hl.
    destruct (contains_any keywords (lower l)).
    + eexists. eexists. split; [reflexivity | discriminate].
    + destruct (Hllm (log ++ [Print "--- CALL ASSISTANT ---"])%list (assistant_prompt l))
        as (r & ->).
      eexists. eexists. split; [reflexivity | discriminate].
  - unfold _vector_retriever.
    rewrite (bind_ok _ _ _ (log ++ [Print "--- RETRIEVER (MCP/Fallback) ---"])%list tt eq_refl).
    rewrite (bind_ok _ _ _ (log ++ [Print "--- RETRIEVER (MCP/Fallback) ---"])%list q)
      by (unfold lift; now rewrite Hq).
    destruct (via_mcp_returns w "get_product_info" "No MCP data found" q
                (log ++ [Print "--- RETRIEVER (MCP/Fallback) ---"])%list)
      as (evs & r & E & _).
    rewrite (bind_ok _ _ _ _ _ E). destruct r as [context|].
    + eexists. eexists. split; [reflexivity | discriminate].
    + run_monad.
      match goal with
      | |- context [vector_db w ?lg ?x] => destruct (Hdb lg x) as (docs & ->)
      end.
      eexists. eexists. split; [reflexivity | discriminate].
  - unfold _generate. run_monad. rewrite Hq, Hl.
    match goal with
    | |- context [llm w ?lg ?p] => destruct (Hllm lg p) as (r & ->)
    end.
    eexists. eexists. split; [reflexivity | discriminate].
  - unfold _rewrite. destruct (retry_count s >=? 2)%Z; run_monad; rewrite Hq.
    + eexists. eexists. split; [reflexivity | discriminate].
    + match goal with
      | |- context [llm w ?lg ?p] => destruct (Hllm lg p) as (r & ->)
      end.
      eexists. eexists. split; [reflexivity | discriminate].
  - destruct (web_search_then_generator w s log q Hq) as (evs & context & E & _).
    apply superstep_inv in E. destruct E as (log1 & upd & En & Er & _).
    exists log1, upd. split; [exact En|].
    intros Hu. unfold reduce, add_messages in Er. rewrite Hu in Er.
    inversion Er as [[Hm Hc]]. rewrite app_nil_r in Hm.
    apply (f_equal (@List.length _)) in Hm. rewrite length_app in Hm. simpl in Hm. lia.
Qed.

Lemma mcp_edge_answers n s log :
  messages s <> [] -> exists log' t, edge n s log = (log', Ok t).
Proof.
  intros Hs. destruct (contents_of_nonempty _ Hs) as [_ (l & Hl)].
  destruct n; cbv [edge]; try (eexists; eexists; reflexivity).
  - unfold assistant_route. run_monad. rewrite Hl. eexists. eexists. reflexivity.
  - apply grader_edge_returns. exact Hs.
Qed.

Lemma mcp_step_answers w n s log :
  answers w -> messages s <> [] ->
  exists log' t' s',
    superstep (node_fn w) reduce edge n s log = (log', Ok (t', s')) /\ messages s' <> [].
Proof.
  intros Hw Hs.
  destruct (mcp_node_answers w n s log Hw Hs) as (log1 & upd & En & Hu).
  assert (Hs' : messages (reduce s upd) <> []).
  { unfold reduce, add_messages. simpl. intros H. apply app_eq_nil in H. tauto. }
  destruct (mcp_edge_answers n (reduce s upd) log1 Hs') as (log2 & t & Ee).
  exists log2, t, (reduce s upd). split; [|exact Hs'].
  now apply superstep_ok with (log1 := log1).
Qed.

Lemma exec_generator_answers w s log :
  answers w -> messages s <> [] ->
  exists log' s', exec (node_fn w) reduce edge 1 (To Generator) s log = (log', Ok s') /\
                  messages s' <> [].
Proof.
  intros Hw Hs. rewrite exec_S.
  destruct (mcp_step_answers w Generator s log Hw Hs) as (log' & t' & s' & E & Hs').
  rewrite E. apply mcp_superstep_targets in E. subst t'.
  cbv [fst snd]. rewrite exec_END. eauto.
Qed.

Lemma exec_rewriter_answers w s log :
  answers w -> messages s <> [] ->
  exists log' s', exec (node_fn w) reduce edge 3 (To Rewriter) s log = (log', Ok s') /\
                  messages s' <> [].
Proof.
  intros Hw Hs. rewrite exec_S.
  destruct (mcp_step_answers w Rewriter s log Hw Hs) as (l1 & t1 & s1 & E1 & H1).
  rewrite E1. apply mcp_superstep_targets in E1. subst t1. cbv [fst snd]. rewrite exec_S.
  destruct (mcp_step_answers w WebSearch s1 l1 Hw H1) as (l2 & t2 & s2 & E2 & H2).
  rewrite E2. apply mcp_superstep_targets in E2. subst t2. cbv [fst snd].
  now apply exec_generator_answers.
Qed.

(** X17.  When the model and the index answer every request, [run] of
    the MCP workflow returns an answer, whatever the MCP tools do: a tool
    that raises or returns nothing never makes a run raise. *)
Theorem mcp_run_answers w q :
  answers w -> exists log' answer, run w q [] = (log', Ok answer).
Proof.
  intros Hw.
  assert (G : exists log' s',
    app_invoke w (input_of q) [] = (log', Ok s') /\ messages s' <> []).
  { rewrite invoke_in_five_steps, exec_S.
    destruct (mcp_step_answers w Assistant (input_of q) [] Hw) as (l1 & t1 & s1 & E1 & H1);
      [discriminate|].
    rewrite E1. cbv [fst snd].
    destruct (mcp_superstep_targets _ _ _ _ _ _ _ E1); subst t1;
      [|rewrite exec_END; eauto].
    rewrite exec_S.
    destruct (mcp_step_answers w Retriever s1 l1 Hw H1) as (l2 & t2 & s2 & E2 & H2).
    rewrite E2. cbv [fst snd].
    destruct (mcp_superstep_targets _ _ _ _ _ _ _ E2) as [-> | [-> _]].
    - pose proof (exec_generator w s2 l2 2) as Eg. change (1 + 2) with 3 in Eg.
      rewrite Eg. now apply exec_generator_answers.
    - now apply exec_rewriter_answers. }
  destruct G as (log' & s' & E & Hs').
  destruct (contents_of_nonempty _ Hs') as [_ (l & Hl)].
  unfold run. rewrite (bind_ok _ _ _ _ _ E). unfold lift. rewrite Hl. eauto.
Qed.

(** X17, witness: both tools raise. *)
Lemma mcp_run_answers_witness :
  exists log' answer,
    run (Scenarios.with_tools
           (Scenarios.world "It costs 64900." [] None Scenarios.no_response)
           [Scenarios.crashing_tool "get_product_info"; Scenarios.crashing_tool "web_search"])
        "iPhone price" [] = (log', Ok answer).
Proof.
  apply mcp_run_answers. split; intros; eexists; reflexivity.
Defined.

(** *** What a run returns *)

(** X18.  Every answer [run] of the MCP workflow returns is a reply of
    the language model, the direct reply of the Assistant or the reply of
    the Generator: what was retrieved or searched is never returned as it
    is. *)
Theorem mcp_answer_is_model_reply w q log' answer :
  run w q [] = (log', Ok answer) ->
  exists log prompt, llm w log prompt = Ok answer.
Proof.
  unfold run, bind. intros H.
  destruct (app_invoke w (input_of q) []) as [log1 [result|e]] eqn:E; [|discriminate].
  unfold lift in H.
  assert (Ha : last_content (messages result) = Ok answer) by (now inversion H).
  clear H.
  assert (R : reachable_from w (input_of q) (END, result, log1))
    by (eapply exec_reach; [apply reach_start | exact E]).
  inversion R as [Hc | n s0 log0 t' s' log2 Hr Hs]; subst.
  pose proof (mcp_superstep_targets _ _ _ _ _ _ _ Hs) as Ht.
  apply superstep_inv in Hs. destruct Hs as (lg & upd & Hn & -> & He).
  destruct n; try discriminate; try (destruct Ht as [Ht | [Ht _]]; discriminate).
  - cbv [node_fn] in Hn. unfold _ai_assistant in Hn. revert Hn. run_monad.
    destruct (last_content (messages s0)) as [l|]; [|discriminate].
    destruct (contains_any keywords (lower l)).
    + intros Hn. inversion Hn; subst.
      cbv [edge] in He. unfold assistant_route, reduce, add_messages in He.
      revert He. run_monad. cbv [messages upd_messages only_messages].
      rewrite last_content_snoc. cbv [content].
      change (contains "TOOL" "TOOL: retriever") with true. cbv iota. discriminate.
    + destruct (llm w _ _) as [r|] eqn:El; [|discriminate].
      intros Hn. inversion Hn; subst.
      unfold reduce, add_messages in Ha. cbv [messages upd_messages only_messages] in Ha.
      rewrite last_content_snoc in Ha. inversion Ha; subst. eauto.
  - cbv [node_fn] in Hn. unfold _generate in Hn. revert Hn. run_monad.
    destruct (first_content (messages s0)) as [fq|]; [|discriminate].
    destruct (last_content (messages s0)) as [l|]; [|discriminate].
    destruct (llm w _ _) as [r|] eqn:El; [|discriminate].
    intros Hn. inversion Hn; subst.
    unfold reduce, add_messages in Ha. cbv [messages upd_messages only_messages] in Ha.
    rewrite last_content_snoc in Ha. inversion Ha; subst. eauto.
Qed.

(** X18, witness: an empty index, a rewrite, a failed web search, and the
    answer is still the model's. *)
Lemma mcp_answer_is_model_reply_witness :
  exists log prompt,
    llm (Scenarios.world "It costs 64900." [] None Scenarios.no_response) log prompt =
      Ok "It costs 64900.".
Proof.
  eapply (mcp_answer_is_model_reply
            (Scenarios.world "It costs 64900." [] None Scenarios.no_response)
            "iPhone price").
  vm_compute. reflexivity.
Defined.

(** X19.  The WebSearch node of the MCP workflow without a working tool.
    When the tools are not loaded, or the tool web_search raises, the node
    does not raise: its message is the fixed apology that names the original
    query, and the Generator is next.  When the tool returns the empty
    text, the message is "No web search data found". *)
Theorem web_search_without_tool w s log q :
  first_content (messages s) = Ok q ->
  (mcp_enabled w = false ->
     superstep (node_fn w) reduce edge WebSearch s log =
       ((log ++ [Print "--- WEB SEARCH (MCP/Fallback) ---"])%list,
        Ok (To Generator,
            {| messages :=
                 (messages s ++
                  [HumanMessage ("I couldn't perform a web search for '" ++ q ++
                     "' at the moment. Please try again later or check online manually.")])%list;
               retry_count := retry_count s |}))) /\
  (forall tool result,
     mcp_enabled w = true ->
     find (fun t => String.eqb (name t) "web_search") (mcp_tools w) = Some tool ->
     ainvoke tool (log ++ [Print "--- WEB SEARCH (MCP/Fallback) ---"])%list q = result ->
     superstep (node_fn w) reduce edge WebSearch s log =
       ((log ++ [Print "--- WEB SEARCH (MCP/Fallback) ---"; CallTool "web_search" q])%list,
        Ok (To Generator,
            {| messages :=
                 (messages s ++
                  [HumanMessage
                     match result with
                     | Raise _ =>
                         "I couldn't perform a web search for '" ++ q ++
                         "' at the moment. Please try again later or check online manually."
                     | Ok "" => "No web search data found"
                     | Ok text => text
                     end])%list;
               retry_count := retry_count s |}))).
Proof.
  intros Hq. split.
  - intros Hd.
    apply superstep_ok with
      (log1 := (log ++ [Print "--- WEB SEARCH (MCP/Fallback) ---"])%list)
      (upd := only_messages [HumanMessage (no_web_search_message q)]);
      [|reflexivity].
    cbv [node_fn]. unfold _web_search, via_mcp. rewrite Hd. run_monad.
    now rewrite Hq.
  - intros tool result He Hf Hr.
    apply superstep_ok with
      (log1 := (log ++ [Print "--- WEB SEARCH (MCP/Fallback) ---";
                        CallTool "web_search" q])%list)
      (upd := only_messages
                [HumanMessage
                   match result with
                   | Raise _ => no_web_search_message q
                   | Ok "" => "No web search data found"
                   | Ok text => text
                   end]);
      [|reflexivity].
    cbv [node_fn]. unfold _web_search, via_mcp. rewrite He.
    destruct (mcp_tools w) as [|t0 ts] eqn:Et; [discriminate|].
    cbv [andb negb]. rewrite Hf. run_monad. rewrite Hq, Hr.
    replace ((log ++ [Print "--- WEB SEARCH (MCP/Fallback) ---"]) ++
             [CallTool "web_search" q])%list
      with (log ++ [Print "--- WEB SEARCH (MCP/Fallback) ---";
                    CallTool "web_search" q])%list
      by (now rewrite <- app_assoc).
    destruct result as [[|c text]|e]; reflexivity.
Qed.

(** X19, witness: the tool raises. *)
Lemma web_search_without_tool_witness :
  snd (superstep
         (node_fn (Scenarios.with_tools
                     (Scenarios.world "unused" [] None Scenarios.no_response)
                     [Scenarios.crashing_tool "web_search"]))
         reduce edge WebSearch
         {| messages := [HumanMessage "iPhone price"]; retry_count := 1 |} []) =
    Ok (To Generator,
        {| messages :=
             [HumanMessage "iPhone price";
              HumanMessage ("I couldn't perform a web search for 'iPhone price' at the " ++
                            "moment. Please try again later or check online manually.")];
           retry_count := 1 |}).
Proof.
  rewrite (proj2 (web_search_without_tool
                    (Scenarios.with_tools
                       (Scenarios.world "unused" [] None Scenarios.no_response)
                       [Scenarios.crashing_tool "web_search"])
                    {| messages := [HumanMessage "iPhone price"]; retry_count := 1 |}
                    [] "iPhone price" eq_refl)
             (Scenarios.crashing_tool "web_search") (Raise "tool crashed")
             eq_refl eq_refl eq_refl).
  reflexivity.
Defined.

End McpMore.

(** ** [normal_generation_workflow.py]: the plain chain, and the loop *)

Module NormalMore.
Import Text Effects Graph Logic Observe EffectFacts GraphFacts ObserveFacts.
Import Discipline GraphMore NormalWorkflow NormalFacts.
Open Scope monad_scope.

(** *** [invoke_chain] *)

(** X20.  [invoke_chain] never raises, with or without [debug]: whatever
    the index or the model raise is caught.  It returns one context and a
    response: either the fixed error context with "Error: " and the text of
    the exception, or the formatted result of its first lookup of the query
    (for an empty result this is "No relevant documents found.") with the
    response of the chain. *)
Theorem invoke_chain_never_raises w q debug log :
  exists log' context response,
    invoke_chain w q debug log = (log', Ok ([context], response)) /\
    ((context = "Error: could not retrieve contexts." /\
      exists e, response = "Error: " ++ e) \/
     (exists docs, vector_db w log q = Ok docs /\ context = format_docs docs)).
Proof.
  unfold invoke_chain, build_chain, chain. run_monad.
  destruct (vector_db w log q) as [docs|e] eqn:E1.
  - assert (Hc : match docs with
                 | _ :: _ => [format_docs docs]
                 | [] => ["No relevant documents found."]
                 end = [format_docs docs]) by (now destruct docs).
    rewrite Hc. clear Hc.
    destruct debug;
      repeat (cbv beta iota zeta delta [fst snd];
              match goal with
              | |- context [vector_db w ?lg ?x] => destruct (vector_db w lg x)
              | |- context [llm w ?lg ?p] => destruct (llm w lg p)
              end);
      cbv beta iota zeta delta [fst snd];
      eexists; eexists; eexists; (split; [reflexivity|]);
      first [ right; exists docs; split; reflexivity
            | left; split; [reflexivity | eexists; reflexivity] ].
  - eexists. eexists. eexists. split; [reflexivity|].
    left. split; [reflexivity | eexists; reflexivity].
Qed.

(** X21.  How [invoke_chain] composes, without [debug]: the index is
    asked for the query twice, once by [build_chain] and once by the chain.
    The context returned comes from the first answer; the model is given the
    second answer, formatted, with the query, and its reply is the
    response. *)
Theorem invoke_chain_composes w q log docs1 docs2 r :
  vector_db w log q = Ok docs1 ->
  vector_db w (log ++ [CallVectorDB q])%list q = Ok docs2 ->
  llm w (log ++ [CallVectorDB q; CallVectorDB q])%list
      (product_bot_prompt w (format_docs docs2) q) = Ok r ->
  invoke_chain w q false log =
    ((log ++ [CallVectorDB q; CallVectorDB q;
              CallLLM (product_bot_prompt w (format_docs docs2) q)])%list,
     Ok ([format_docs docs1], r)).
Proof.
  intros H1 H2 H3. unfold invoke_chain, build_chain, chain. run_monad.
  rewrite H1. cbv beta iota zeta delta [fst snd]. rewrite H2.
  replace ((log ++ [CallVectorDB q]) ++ [CallVectorDB q])%list
    with (log ++ [CallVectorDB q; CallVectorDB q])%list by (now rewrite <- app_assoc).
  rewrite H3.
  replace ((log ++ [CallVectorDB q; CallVectorDB q]) ++
           [CallLLM (product_bot_prompt w (format_docs docs2) q)])%list
    with (log ++ [CallVectorDB q; CallVectorDB q;
                  CallLLM (product_bot_prompt w (format_docs docs2) q)])%list
    by (now rewrite <- app_assoc).
  now destruct docs1.
Qed.

(** X21, witness. *)
Lemma invoke_chain_composes_witness :
  snd (invoke_chain
         (Scenarios.world "It costs 64900." [Scenarios.iphone] None Scenarios.no_response)
         "iPhone price" false []) =
    Ok ([format_docs [Scenarios.iphone]], "It costs 64900.").
Proof.
  rewrite (invoke_chain_composes
             (Scenarios.world "It costs 64900." [Scenarios.iphone] None
                Scenarios.no_response)
             "iPhone price" [] [Scenarios.iphone] [Scenarios.iphone] "It costs 64900."
             eq_refl eq_refl eq_refl).
  reflexivity.
Defined.

(** *** The loop of the graph *)

Lemma snoc_nonempty (ms : list Message) m : (ms ++ [m])%list <> [].
Proof. intros H. apply app_eq_nil in H. destruct H. discriminate. Qed.

Lemma assistant_to_retriever w s log l :
  last_content (messages s) = Ok l ->
  contains_any keywords (lower l) = true ->
  exists log',
    superstep (node_fn w) reduce (edge w) Assistant s log =
      (log', Ok (To Retriever,
                 {| messages := (messages s ++ [HumanMessage "TOOL: retriever"])%list |})).
Proof.
  intros Hl Hk. eexists.
  eapply superstep_ok with (upd := [HumanMessage "TOOL: retriever"]).
  - cbv [node_fn]. unfold ai_assistant. run_monad. now rewrite Hl, Hk.
  - cbv [edge]. unfold assistant_route, reduce, add_messages. run_monad.
    cbv [messages]. now rewrite last_content_snoc.
Qed.

Lemma retriever_to_rewriter w s log :
  never_satisfied w -> messages s <> [] ->
  exists log' s',
    superstep (node_fn w) reduce (edge w) Retriever s log = (log', Ok (To Rewriter, s')) /\
    messages s' <> [].
Proof.
  intros [Hllm Hdb] Hs.
  destruct (contents_of_nonempty _ Hs) as [(q & Hq) (l & Hl)].
  destruct (Hdb (log ++ [Print "--- RETRIEVER ---"])%list l) as (docs & Hd).
  destruct (Hllm (((log ++ [Print "--- RETRIEVER ---"]) ++ [CallVectorDB l]) ++
                  [Print "--- GRADER ---"])%list
                 (grader_prompt q (format_docs docs))) as (r & Hr & Hno & _).
  eexists. eexists. split.
  - eapply superstep_ok with (upd := [HumanMessage (format_docs docs)]).
    + cbv [node_fn]. unfold vector_retriever. run_monad. rewrite Hl, Hd. reflexivity.
    + cbv [edge]. unfold grade_documents, reduce, add_messages. run_monad.
      cbv [messages]. rewrite (first_content_app _ _ _ Hq), last_content_snoc.
      cbv [content]. rewrite Hr, Hno. reflexivity.
  - apply snoc_nonempty.
Qed.

Lemma rewriter_to_assistant w s log :
  never_satisfied w -> messages s <> [] ->
  exists log' s' l,
    superstep (node_fn w) reduce (edge w) Rewriter s log = (log', Ok (To Assistant, s')) /\
    last_content (messages s') = Ok l /\
    contains_any keywords (lower l) = true.
Proof.
  intros [Hllm Hdb] Hs.
  destruct (contents_of_nonempty _ Hs) as [(q & Hq) _].
  destruct (Hllm (log ++ [Print "--- REWRITE ---"])%list
                 ("Rewrite the query to be clearer: " ++ q)) as (r & Hr & _ & Hk).
  eexists. eexists. exists r. split; [|split; [|exact Hk]].
  - eapply superstep_ok with (upd := [HumanMessage r]); [|reflexivity].
    cbv [node_fn]. unfold rewrite. run_monad. rewrite Hq, Hr. reflexivity.
  - unfold reduce, add_messages. cbv [messages]. apply last_content_snoc.
Qed.

Lemma loop_exhausts_any_bound w :
  never_satisfied w ->
  forall fuel s log,
    (forall l, last_content (messages s) = Ok l ->
               contains_any keywords (lower l) = true ->
       snd (exec (node_fn w) reduce (edge w) fuel (To Assistant) s log)
         = Raise "GraphRecursionError") /\
    (messages s <> [] ->
       snd (exec (node_fn w) reduce (edge w) fuel (To Retriever) s log)
         = Raise "GraphRecursionError") /\
    (messages s <> [] ->
       snd (exec (node_fn w) reduce (edge w) fuel (To Rewriter) s log)
         = Raise "GraphRecursionError").
Proof.
  intros Hw. induction fuel as [|fuel IH]; intros s log.
  - repeat split; reflexivity.
  - repeat split.
    + intros l Hl Hk. rewrite exec_S.
      destruct (assistant_to_retriever w s log l Hl Hk) as (log' & E). rewrite E.
      cbv [fst snd]. apply IH. apply snoc_nonempty.
    + intros Hs. rewrite exec_S.
      destruct (retriever_to_rewriter w s log Hw Hs) as (log' & s' & E & Hs').
      rewrite E. cbv [fst snd]. now apply IH.
    + intros Hs. rewrite exec_S.
      destruct (rewriter_to_assistant w s log Hw Hs) as (log' & s' & l & E & Hl & Hk).
      rewrite E. cbv [fst snd]. eapply IH; eauto.
Qed.

(** X22.  The graph of [normal_generation_workflow] has no bound on
    rewrites.  With a model whose every reply lacks "yes" and contains a
    product keyword (the grader is never satisfied, every rewritten query is
    sent to the Retriever again) and an index that answers, a run on a query
    with a product keyword goes round Assistant, Retriever, Rewriter for
    ever: under every bound on the supersteps, the recursion limit of 25
    included, it ends with the recursion error. *)
Theorem normal_graph_loops w q :
  never_satisfied w ->
  contains_any keywords (lower q) = true ->
  (forall fuel,
     snd (exec (node_fn w) reduce (edge w) fuel (To Assistant) (input_of q) [])
       = Raise "GraphRecursionError") /\
  snd (app_invoke w (input_of q) []) = Raise "GraphRecursionError".
Proof.
  intros Hw Hk.
  assert (G : forall fuel,
    snd (exec (node_fn w) reduce (edge w) fuel (To Assistant) (input_of q) [])
      = Raise "GraphRecursionError").
  { intros fuel.
    apply (proj1 (loop_exhausts_any_bound w Hw fuel (input_of q) []) q);
      [reflexivity | exact Hk]. }
  split; [exact G | apply G].
Qed.

(** X22, witness: the model always answers "price?". *)
Lemma normal_graph_loops_witness :
  snd (app_invoke (Scenarios.world "price?" [] None Scenarios.no_response)
         (input_of "iPhone price") []) = Raise "GraphRecursionError".
Proof.
  apply (normal_graph_loops (Scenarios.world "price?" [] None Scenarios.no_response)
           "iPhone price").
  - split; intros; eexists; repeat split; reflexivity.
  - reflexivity.
Defined.

End NormalMore.
